(** * Gaia SMS app: attachment renderer (apps/sms/js/attachment_renderer.js)

    A shallow embedding of the attachment renderer and the properties of
    its rendering pipeline.

    Conventions of the embedding.
    - JS numbers are modelled by the rationals they denote ([Q]).  Byte
      counts below 2^53 and their quotients by 1024 are exactly
      representable as doubles, so for them the arithmetic is exact; the
      product and the quotient of the thumbnail scale are rounded to the
      nearest double ([JS.roundDouble]).  Infinities and NaN are not
      numbers of the model: results stay below 2^1024 in magnitude.
    - JS strings are modelled by [string]; the only character the code
      inspects is the one-unit separator '/'.
    - The DOM, the template engine, the localisation library, the image
      probe and the URL factory are collaborators of the renderer: their
      answers are fields of a [host] record, and every call made to them is
      appended to a trace.
    - Promises are modelled by their settlement ([Fulfilled], [Rejected] or
      [Pending] when they never settle); reactions run in source order. *)

From Stdlib Require Import ZArith QArith Qround Qabs String Ascii List Lia.
From stdpp Require Import base option list strings gmap pretty.

Open Scope string_scope.
Open Scope list_scope.

(** ** Numbers and strings of the JS runtime *)

Module JS.

(** [a < b] on numbers. *)
Definition ltb (a b : Q) : bool := negb (Qle_bool b a).

(** The number of a byte count. *)
Definition ofN (n : N) : Q := inject_Z (Z.of_N n).

(** Values that may be thrown, or carried by a rejected promise. *)
Inductive value :=
| VUndefined
| VNull
| VBool (b : bool)
| VNum (x : Q)
| VNaN
| VStr (s : string)
| VObj (name : string).

(** ToBoolean, as used by [!!error] and by [hasError ? .. : ..]. *)
Definition ToBoolean (v : value) : bool :=
  match v with
  | VUndefined | VNull | VNaN => false
  | VBool b => b
  | VNum x => negb (Qeq_bool x 0)
  | VStr s => negb (String.eqb s "")
  | VObj _ => true
  end.

Definition TypeError : value := VObj "TypeError".

(** Number.prototype.toFixed(1), on the path taken below 10^21: the sign,
    then the integer [n] nearest to [10 * |x|] (the larger one on a tie)
    written with its last digit after the point. *)
Definition toFixed1 (x : Q) : string :=
  let sgn := if ltb x 0 then "-" else "" in
  let n := Z.to_N (Qfloor (Qabs x * 10 + (1 # 2))%Q) in
  sgn +:+ pretty (n / 10)%N +:+ "." +:+ pretty (n mod 10)%N.

(** String.prototype.lastIndexOf(c): the last index of the unit [c], or
    -1.  [i] is the index of the head of [s], [last] the last hit so far. *)
Fixpoint lastIndexOf_from (s : string) (c : ascii) (i last : Z) : Z :=
  match s with
  | EmptyString => last
  | String a s' =>
      lastIndexOf_from s' c (i + 1) (if Ascii.eqb a c then i else last)
  end.

Definition lastIndexOf (s : string) (c : ascii) : Z :=
  lastIndexOf_from s c 0 (-1).

Fixpoint drop (n : nat) (s : string) : string :=
  match n, s with
  | O, _ => s
  | S n', String _ s' => drop n' s'
  | S _, EmptyString => EmptyString
  end.

(** String.prototype.slice(start): a negative start counts from the end,
    and the start is clamped to the string. *)
Definition slice (s : string) (start : Z) : string :=
  let len := Z.of_nat (String.length s) in
  let from := if (start <? 0)%Z then Z.max (len + start) 0
              else Z.min start len in
  drop (Z.to_nat from) s.

Definition dquote : string := String (ascii_of_nat 34) EmptyString.

(** JSON.stringify({ n: v }) for a string [v] without characters to
    escape (digits, the point and the sign, as [toFixed1] yields). *)
Definition stringify_n (v : string) : string :=
  "{" +:+ dquote +:+ "n" +:+ dquote +:+ ":" +:+ dquote +:+ v +:+ dquote +:+ "}".

(** *** Arithmetic of doubles

    A product or a quotient of JS numbers is the binary64 number nearest
    to the exact result, the one with the even significand on a tie. *)

(** The integer nearest to [n / d], the even one on a tie. *)
Definition nearestEven (n d : Z) : Z :=
  let q := (n / d)%Z in
  match (2 * (n mod d) ?= d)%Z with
  | Lt => q
  | Gt => (q + 1)%Z
  | Eq => if Z.even q then q else (q + 1)%Z
  end.

(** [n / d] divided by [2 ^ e], as a fraction of integers. *)
Definition scaledNum (n e : Z) : Z := (n * 2 ^ Z.max 0 (- e))%Z.
Definition scaledDen (d e : Z) : Z := (d * 2 ^ Z.max 0 e)%Z.

(** The exponent of the unit in the last place of [n / d]: the [e] with
    [2^52 <= (n / d) / 2^e < 2^53], and -1074 for the subnormal numbers. *)
Definition exponentOf (n d : Z) : Z :=
  let e0 := (Z.log2 n - Z.log2 d - 52)%Z in
  let e1 := if (scaledNum n e0 <? 2 ^ 52 * scaledDen d e0)%Z then (e0 - 1)%Z else e0 in
  Z.max e1 (-1074).

(** The double nearest to [x], for [x] below 2^1024 in magnitude. *)
Definition roundDouble (x : Q) : Q :=
  let n := Z.abs (Qnum x) in
  let d := Z.pos (Qden x) in
  if (n =? 0)%Z then 0%Q else
  let e := exponentOf n d in
  let m := nearestEven (scaledNum n e) (scaledDen d e) in
  Qred (Qmake (Z.sgn (Qnum x) * m * 2 ^ Z.max 0 e) (Z.to_pos (2 ^ Z.max 0 (- e)))).

(** [a * b] and [a / b] on numbers. *)
Definition mul (a b : Q) : Q := roundDouble (a * b).
Definition div (a b : Q) : Q := roundDouble (a / b).

End JS.

(** ** getSizeForL10n *)

Record sizeL10n := { l10nId : string; l10nArgs_n : string }.

Definition getSizeForL10n (size : Q) : sizeL10n :=
  let sizeKB := (size / 1024)%Q in
  let sizeMB := (sizeKB / 1024)%Q in
  if JS.ltb sizeKB 1000 then
    {| l10nId := "attachmentSize"; l10nArgs_n := JS.toFixed1 sizeKB |}
  else
    {| l10nId := "attachmentSizeMB"; l10nArgs_n := JS.toFixed1 sizeMB |}.

(** The displayed file name of [_getBaseMarkup]. *)
Definition fileName (name : string) : string :=
  JS.slice name (JS.lastIndexOf name "/" + 1).


(** ** Attachments *)

(** A [Blob]: its identity and its byte [size]. *)
Record Blob := { blob_id : nat; blob_size : N }.

Module Attachment.
(** The attachment handed to the renderer.  [size] is the attachment's own
    property, [None] when it is absent ([undefined]); [blob_size blob] is
    the size of the blob. *)
Record t := {
  type : string;
  size : option Q;
  blob : Blob;
  name : string;
  isDraft : bool }.
End Attachment.

(** ** The DOM store *)

(** The two entries of [RENDERERS]. *)
Inductive strategy := draft | base.

(** The closure [onload] of [RENDERERS.draft.renderTo]: it captures the
    markup and the deferred of the call that created it. *)
Inductive listener := OnLoad (baseMarkup : string) (deferred : nat).

#[global] Instance listener_eq_dec : EqDecision listener.
Proof. solve_decision. Defined.

(** The document of an iframe; [clickListeners] holds the iframes that the
    bound [click] listeners forward to. *)
Record document := { documentElement : nat; clickListeners : list nat }.

Record node := {
  localName : string;
  attributes : gmap string string;
  classList : list string;
  dataset : gmap string string;
  innerHTML : string;
  descendants : list nat;
  backgroundImage : option string;
  loadListeners : list listener;
  contentDocument : option document }.

Definition blankNode (tag : string) (classes : list string) (below : list nat) : node :=
  {| localName := tag; attributes := ∅; classList := classes; dataset := ∅;
     innerHTML := ""; descendants := below; backgroundImage := None;
     loadListeners := []; contentDocument := None |}.

Definition with_attributes (f : gmap string string -> gmap string string) (nd : node) : node :=
  {| localName := localName nd; attributes := f (attributes nd);
     classList := classList nd; dataset := dataset nd; innerHTML := innerHTML nd;
     descendants := descendants nd; backgroundImage := backgroundImage nd;
     loadListeners := loadListeners nd; contentDocument := contentDocument nd |}.

Definition with_classList (f : list string -> list string) (nd : node) : node :=
  {| localName := localName nd; attributes := attributes nd;
     classList := f (classList nd); dataset := dataset nd; innerHTML := innerHTML nd;
     descendants := descendants nd; backgroundImage := backgroundImage nd;
     loadListeners := loadListeners nd; contentDocument := contentDocument nd |}.

Definition with_dataset (f : gmap string string -> gmap string string) (nd : node) : node :=
  {| localName := localName nd; attributes := attributes nd;
     classList := classList nd; dataset := f (dataset nd); innerHTML := innerHTML nd;
     descendants := descendants nd; backgroundImage := backgroundImage nd;
     loadListeners := loadListeners nd; contentDocument := contentDocument nd |}.

Definition with_content (markup : string) (below : list nat) (nd : node) : node :=
  {| localName := localName nd; attributes := attributes nd;
     classList := classList nd; dataset := dataset nd; innerHTML := markup;
     descendants := below; backgroundImage := backgroundImage nd;
     loadListeners := loadListeners nd; contentDocument := contentDocument nd |}.

Definition with_backgroundImage (v : string) (nd : node) : node :=
  {| localName := localName nd; attributes := attributes nd;
     classList := classList nd; dataset := dataset nd; innerHTML := innerHTML nd;
     descendants := descendants nd; backgroundImage := Some v;
     loadListeners := loadListeners nd; contentDocument := contentDocument nd |}.

Definition with_loadListeners (f : list listener -> list listener) (nd : node) : node :=
  {| localName := localName nd; attributes := attributes nd;
     classList := classList nd; dataset := dataset nd; innerHTML := innerHTML nd;
     descendants := descendants nd; backgroundImage := backgroundImage nd;
     loadListeners := f (loadListeners nd); contentDocument := contentDocument nd |}.

Definition with_contentDocument (d : option document) (nd : node) : node :=
  {| localName := localName nd; attributes := attributes nd;
     classList := classList nd; dataset := dataset nd; innerHTML := innerHTML nd;
     descendants := descendants nd; backgroundImage := backgroundImage nd;
     loadListeners := loadListeners nd; contentDocument := d |}.

(** An [AttachmentRenderer] instance. *)
Record renderer := {
  _attachment : Attachment.t;
  _renderer : strategy;
  _attachmentContainer : option nat }.

(** Settlement of a promise. *)
Inductive promise (A : Type) :=
| Fulfilled (a : A)
| Rejected (e : JS.value)
| Pending.
Arguments Fulfilled {A} a.
Arguments Rejected {A} e.
Arguments Pending {A}.

(** Calls made to the collaborators, in order. *)
Inductive event :=
| CreateAttachmentContainer (how : strategy)
| CreateElement (tag : string) (n : nat)
| SetAttribute (n : nat) (k v : string)
| ClassListAdd (n : nat) (c : string)
| DatasetSet (n : nat) (k v : string)
| SetInnerHTML (n : nat) (markup : string)
| QuerySelector (n : nat) (class : string) (found : option nat)
| SetBackgroundImage (n : nat) (v : string)
| AddLoadListener (n : nat) (l : listener)
| RemoveLoadListener (n : nat) (l : listener)
| AddClickListener (iframe : nat)
| Interpolate (templateId : string) (fields : list (string * string)) (safe : list string)
| TranslateFragment (n : nat)
| GetSizeAndType (b : Blob)
| SizeNoMoreThan (scale : Q)
| CreateObjectURL (b : Blob).

Record state := {
  nodes : list node;
  renderers : list renderer;
  deferreds : list (promise (option nat));
  trace : list event }.

Definition with_nodes (f : list node -> list node) (s : state) : state :=
  {| nodes := f (nodes s); renderers := renderers s;
     deferreds := deferreds s; trace := trace s |}.

Definition with_renderers (f : list renderer -> list renderer) (s : state) : state :=
  {| nodes := nodes s; renderers := f (renderers s);
     deferreds := deferreds s; trace := trace s |}.

Definition with_deferreds
    (f : list (promise (option nat)) -> list (promise (option nat))) (s : state) : state :=
  {| nodes := nodes s; renderers := renderers s;
     deferreds := f (deferreds s); trace := trace s |}.

Definition with_trace (f : list event -> list event) (s : state) : state :=
  {| nodes := nodes s; renderers := renderers s;
     deferreds := deferreds s; trace := f (trace s) |}.

Definition emptyState : state :=
  {| nodes := []; renderers := []; deferreds := []; trace := [] |}.

(** ** Collaborators *)

(** An element produced by the HTML parser; [e_span] counts the elements
    that follow it in document order and lie below it. *)
Record element := { e_tag : string; e_classes : list string; e_span : nat }.

(** What [ImageUtils.getSizeAndType] resolves with. *)
Record imageInfo := { width : positive; height : positive; mimeType : string }.

Record host := {
  devicePixelRatio : Q;
  location_protocol : string;
  location_host : string;
  (** [Template(id).interpolate(data, { safe })]: the markup, or what it throws *)
  interpolate : string -> list (string * string) -> list string -> JS.value + string;
  (** the elements of a markup string, in document order *)
  parseHTML : string -> list element;
  (** what [navigator.mozL10n.translateFragment] throws on a fragment, if anything *)
  translateFragment : string -> option JS.value;
  (** what attaching the bound click listener throws, if anything *)
  clickListenerFault : option JS.value;
  getSizeAndType : Blob -> promise imageInfo;
  (** [ImageUtils.Downsample.sizeNoMoreThan(scale)]: the fragment, or what it throws *)
  sizeNoMoreThan : Q -> JS.value + string;
  createObjectURL : Blob -> string;
  (** how many load events the embedding page delivers to a navigated iframe *)
  loadEvents : nat }.

(** ** The effect monad: state passing with exceptions *)

Inductive result (A : Type) :=
| Ok (a : A)
| Throw (e : JS.value).
Arguments Ok {A} a.
Arguments Throw {A} e.

Definition M (A : Type) : Type := state -> result A * state.

Definition ret {A} (a : A) : M A := fun s => (Ok a, s).

Definition bind {A B} (m : M A) (f : A -> M B) : M B :=
  fun s =>
    match m s with
    | (Ok a, s') => f a s'
    | (Throw e, s') => (Throw e, s')
    end.

Definition throw {A} (e : JS.value) : M A := fun s => (Throw e, s).

(** [try { m } catch (e) { handler e }] *)
Definition try_catch {A} (m : M A) (handler : JS.value -> M A) : M A :=
  fun s =>
    match m s with
    | (Ok a, s') => (Ok a, s')
    | (Throw e, s') => handler e s'
    end.

Definition gets {A} (f : state -> A) : M A := fun s => (Ok (f s), s).

Definition modify (f : state -> state) : M unit := fun s => (Ok tt, f s).

Definition log (e : event) : M unit := modify (with_trace (fun t => t ++ [e])).

Declare Scope js_scope.
Delimit Scope js_scope with js.
Notation "x <- m ;; k" := (bind m (fun x => k))
  (at level 100, m at next level, right associativity) : js_scope.
Notation "m ;; k" := (bind m (fun _ => k))
  (at level 100, right associativity) : js_scope.
Open Scope js_scope.

(** ** Promises *)

(** The promise a reaction leaves behind: what it returns, or a rejection
    with what it throws. *)
Definition settle {A} (m : M (promise A)) : M (promise A) :=
  fun s =>
    match m s with
    | (Ok p, s') => (Ok p, s')
    | (Throw e, s') => (Ok (Rejected e), s')
    end.

(** [p.then(f)] *)
Definition pthen {A B} (p : promise A) (f : A -> M (promise B)) : M (promise B) :=
  match p with
  | Fulfilled a => settle (f a)
  | Rejected e => ret (Rejected e)
  | Pending => ret Pending
  end.

(** [p.catch(g)] *)
Definition pcatch {A} (p : promise A) (g : JS.value -> M (promise A)) : M (promise A) :=
  match p with
  | Fulfilled a => ret (Fulfilled a)
  | Rejected e => settle (g e)
  | Pending => ret Pending
  end.

(** [Utils.Promise.defer()] *)
Definition defer : M nat :=
  d <- gets (fun s => length (deferreds s)) ;;
  modify (with_deferreds (fun ds => ds ++ [Pending])) ;;
  ret d.

(** Settling a deferred has an effect only while it is pending. *)
Definition settleDeferred (d : nat) (p : promise (option nat)) : M unit :=
  modify (with_deferreds
            (alter (fun old => match old with Pending => p | _ => old end) d)).

Definition deferred_resolve (d : nat) (v : option nat) : M unit :=
  settleDeferred d (Fulfilled v).

Definition deferred_reject (d : nat) (e : JS.value) : M unit :=
  settleDeferred d (Rejected e).

Definition deferred_promise (d : nat) : M (promise (option nat)) :=
  gets (fun s => default Pending (deferreds s !! d)).

(** ** DOM operations *)

Definition createElement (tag : string) : M nat :=
  n <- gets (fun s => length (nodes s)) ;;
  modify (with_nodes (fun ns => ns ++ [blankNode tag [] []])) ;;
  log (CreateElement tag n) ;;
  ret n.

Definition setAttribute (n : nat) (k v : string) : M unit :=
  modify (with_nodes (alter (with_attributes (insert k v)) n)) ;;
  log (SetAttribute n k v).

(** [DOMTokenList.add]: a token already in the list is not added again. *)
Definition add_token (c : string) (l : list string) : list string :=
  if bool_decide (c ∈ l) then l else l ++ [c].

(** [node.classList.add(c)]; [null.classList] throws. *)
Definition classList_add (n : option nat) (c : string) : M unit :=
  match n with
  | None => throw JS.TypeError
  | Some n =>
      modify (with_nodes (alter (with_classList (add_token c)) n)) ;;
      log (ClassListAdd n c)
  end.

Definition dataset_set (n : nat) (k v : string) : M unit :=
  modify (with_nodes (alter (with_dataset (insert k v)) n)) ;;
  log (DatasetSet n k v).

(** The nodes of parsed elements, allocated from [first] on. *)
Definition parsedNodes (first : nat) (es : list element) : list node :=
  imap (fun i e =>
          blankNode (e_tag e) (e_classes e)
            (seq (first + i + 1) (Nat.min (e_span e) (length es - i - 1))))
       es.

Definition setInnerHTML_state (n : nat) (markup : string) (es : list element) (s : state) : state :=
  let first := length (nodes s) in
  with_nodes (fun ns =>
    alter (with_content markup (seq first (length es))) n ns ++ parsedNodes first es) s.

(** [node.innerHTML = markup] *)
Definition set_innerHTML (h : host) (n : nat) (markup : string) : M unit :=
  modify (setInnerHTML_state n markup (parseHTML h markup)) ;;
  log (SetInnerHTML n markup).

Definition hasClass (s : state) (c : string) (n : nat) : bool :=
  match nodes s !! n with
  | Some nd => bool_decide (c ∈ classList nd)
  | None => false
  end.

Definition descendantsOf (s : state) (n : nat) : list nat :=
  match nodes s !! n with
  | Some nd => descendants nd
  | None => []
  end.

(** The first element below [n] that carries class [c]. *)
Definition firstWithClass (s : state) (n : nat) (c : string) : option nat :=
  List.find (hasClass s c) (descendantsOf s n).

(** [node.querySelector('.' + c)]; [null.querySelector] throws. *)
Definition querySelector (n : option nat) (c : string) : M (option nat) :=
  match n with
  | None => throw JS.TypeError
  | Some n =>
      r <- gets (fun s => firstWithClass s n c) ;;
      log (QuerySelector n c r) ;;
      ret r
  end.

Definition set_backgroundImage (n : nat) (v : string) : M unit :=
  modify (with_nodes (alter (with_backgroundImage v) n)) ;;
  log (SetBackgroundImage n v).

Definition addLoadListener (n : nat) (l : listener) : M unit :=
  modify (with_nodes (alter (with_loadListeners (fun ls => ls ++ [l])) n)) ;;
  log (AddLoadListener n l).

Definition removeLoadListener (n : nat) (l : listener) : M unit :=
  modify (with_nodes
            (alter (with_loadListeners
                      (List.filter (fun l' => negb (bool_decide (l' = l))))) n)) ;;
  log (RemoveLoadListener n l).

(** [iframe.contentDocument] *)
Definition get_contentDocument (n : nat) : M (option document) :=
  gets (fun s => nd ← nodes s !! n; contentDocument nd).

(** [document.body]: the first body element below the document element. *)
Definition bodyOf (s : state) (doc : document) : option nat :=
  List.find (fun n => match nodes s !! n with
                      | Some nd => String.eqb (localName nd) "body"
                      | None => false
                      end)
            (descendantsOf s (documentElement doc)).

(** ** Template and localisation *)

Definition Template_interpolate (h : host) (templateId : string)
    (fields : list (string * string)) (safe : list string) : M string :=
  log (Interpolate templateId fields safe) ;;
  match interpolate h templateId fields safe with
  | inl e => throw e
  | inr markup => ret markup
  end.

Definition mozL10n_translateFragment (h : host) (n : nat) : M unit :=
  log (TranslateFragment n) ;;
  markup <- gets (fun s => default "" (innerHTML <$> nodes s !! n)) ;;
  match translateFragment h markup with
  | Some e => throw e
  | None => ret tt
  end.

(** ** RENDERERS *)

(** The promise returned by [renderTo]: already settled, or that of a
    deferred settled later by a load event. *)
Inductive promiseRef :=
| Settled (p : promise (option nat))
| OfDeferred (d : nat).

Definition promiseState (q : promiseRef) : M (promise (option nat)) :=
  match q with
  | Settled p => ret p
  | OfDeferred d => deferred_promise d
  end.

Definition createAttachmentContainer (how : strategy) : M nat :=
  log (CreateAttachmentContainer how) ;;
  match how with
  | draft =>
      container <- createElement "iframe" ;;
      setAttribute container "sandbox" "allow-same-origin" ;;
      ret container
  | base => createElement "div"
  end.

(** [contentDocument.addEventListener('click', this.click.bind(this))] *)
Definition addClickListener (h : host) (iframe : nat) : M unit :=
  log (AddClickListener iframe) ;;
  match clickListenerFault h with
  | Some e => throw e
  | None =>
      modify (with_nodes (alter (fun nd =>
        with_contentDocument
          ((fun doc => {| documentElement := documentElement doc;
                          clickListeners := clickListeners doc ++ [iframe] |})
             <$> contentDocument nd) nd) iframe))
  end.

(** The fields of the draft template: the base URL of the page and the
    markup of the attachment. *)
Definition draftFields (h : host) (baseMarkup : string) : list (string * string) :=
  [("baseURL", location_protocol h +:+ "//" +:+ location_host h +:+ "/");
   ("baseHTML", baseMarkup)].

(** The load listener registered by the draft renderer, run with the
    iframe as [this]. *)
Definition onload (h : host) (this : nat) (l : listener) : M unit :=
  match l with
  | OnLoad baseMarkup deferred =>
      try_catch
        (removeLoadListener this l ;;
         doc <- get_contentDocument this ;;
         match doc with
         | None => throw JS.TypeError
         | Some doc =>
             html <- Template_interpolate h "attachment-draft-tmpl"
                       (draftFields h baseMarkup) ["baseHTML"] ;;
             set_innerHTML h (documentElement doc) html ;;
             mozL10n_translateFragment h (documentElement doc) ;;
             addClickListener h this ;;
             body <- gets (fun s => bodyOf s doc) ;;
             deferred_resolve deferred body
         end)
        (fun e => deferred_reject deferred e)
  end.

Definition draft_renderTo (baseMarkup : string) (attachmentContainer : nat) : M promiseRef :=
  deferred <- defer ;;
  addLoadListener attachmentContainer (OnLoad baseMarkup deferred) ;;
  setAttribute attachmentContainer "src" "about:blank" ;;
  ret (OfDeferred deferred).

Definition base_renderTo (h : host) (baseMarkup : string) (attachmentContainer : nat) : M promiseRef :=
  set_innerHTML h attachmentContainer baseMarkup ;;
  ret (Settled (Fulfilled (Some attachmentContainer))).

Definition renderTo (h : host) (how : strategy) (baseMarkup : string) (attachmentContainer : nat)
  : M promiseRef :=
  match how with
  | draft => draft_renderTo baseMarkup attachmentContainer
  | base => base_renderTo h baseMarkup attachmentContainer
  end.

(** ** The embedding page *)

Fixpoint runLoadListeners (h : host) (this : nat) (ls : list listener) : M unit :=
  match ls with
  | [] => ret tt
  | l :: ls' => onload h this l ;; runLoadListeners h this ls'
  end.

(** One load event on [n]: the listeners registered at that time run in
    order. *)
Definition loadListenersOf (s : state) (n : nat) : list listener :=
  match nodes s !! n with
  | Some nd => loadListeners nd
  | None => []
  end.

Definition dispatchLoad (h : host) (n : nat) : M unit :=
  ls <- gets (fun s => loadListenersOf s n) ;;
  runLoadListeners h n ls.

Definition blankDocument (n : nat) (s : state) : state :=
  let html := length (nodes s) in
  with_nodes (fun ns =>
    alter (with_contentDocument
             (Some {| documentElement := html; clickListeners := [] |})) n ns
    ++ [blankNode "html" [] [html + 1; html + 2];
        blankNode "head" [] [];
        blankNode "body" [] []]) s.

(** An iframe whose [src] is set and that has no document yet is given a
    blank one. *)
Definition navigate (n : nat) : M unit :=
  nd <- gets (fun s => nodes s !! n) ;;
  match nd with
  | Some nd =>
      match attributes nd !! "src", contentDocument nd with
      | Some _, None => modify (blankDocument n)
      | _, _ => ret tt
      end
  | None => ret tt
  end.

Fixpoint dispatchLoads (h : host) (k : nat) (n : nat) : M unit :=
  match k with
  | O => ret tt
  | S k' => dispatchLoad h n ;; dispatchLoads h k' n
  end.

(** What the embedding page does to the container once [renderTo] has
    returned: it navigates it and delivers its load events. *)
Definition hostEvents (h : host) (n : nat) : M unit :=
  navigate n ;;
  dispatchLoads h (loadEvents h) n.

(** ** AttachmentRenderer *)

Definition MAX_THUMBNAIL_GENERATION_SIZE : Q := 1.5 * 1024 * 1024.

Definition THUMBNAIL_SIZE (h : host) : Q := JS.mul 100 (devicePixelRatio h).

Definition AttachmentRenderer_for (attachment : Attachment.t) : M nat :=
  rid <- gets (fun s => length (renderers s)) ;;
  modify (with_renderers (fun rs => rs ++
    [{| _attachment := attachment;
        _renderer := if Attachment.isDraft attachment then draft else base;
        _attachmentContainer := None |}])) ;;
  ret rid.

Definition this (rid : nat) : M renderer :=
  r <- gets (fun s => renderers s !! rid) ;;
  match r with
  | Some r => ret r
  | None => throw JS.TypeError
  end.

Definition with_attachmentContainer (c : option nat) (r : renderer) : renderer :=
  {| _attachment := _attachment r; _renderer := _renderer r;
     _attachmentContainer := c |}.

Definition _createAttachmentContainer (rid : nat) : M nat :=
  r <- this rid ;;
  attachmentContainer <- createAttachmentContainer (_renderer r) ;;
  classList_add (Some attachmentContainer) "attachment-container" ;;
  dataset_set attachmentContainer "attachmentType" (Attachment.type (_attachment r)) ;;
  ret attachmentContainer.

Definition getAttachmentContainer (rid : nat) : M nat :=
  r <- this rid ;;
  match _attachmentContainer r with
  | None =>
      c <- _createAttachmentContainer rid ;;
      modify (with_renderers (alter (with_attachmentContainer (Some c)) rid)) ;;
      ret c
  | Some c => ret c
  end.

(** The fields [_getBaseMarkup] hands to the template. *)
Definition baseMarkupFields (a : Attachment.t) (hasError : JS.value) : list (string * string) :=
  let sizeL10n := getSizeForL10n (JS.ofN (blob_size (Attachment.blob a))) in
  [("type", Attachment.type a);
   ("errorClass", if JS.ToBoolean hasError then "corrupted" else "");
   ("fileName", fileName (Attachment.name a));
   ("sizeL10nId", l10nId sizeL10n);
   ("sizeL10nArgs", JS.stringify_n (l10nArgs_n sizeL10n))].

Definition _getBaseMarkup (h : host) (rid : nat) (templateId : string) (hasError : JS.value)
  : M string :=
  r <- this rid ;;
  Template_interpolate h templateId (baseMarkupFields (_attachment r) hasError) [].

(** The scale handed to [sizeNoMoreThan]:
    [THUMBNAIL_SIZE / Math.min(data.width, data.height)]. *)
Definition thumbnailScale (h : host) (data : imageInfo) : Q :=
  JS.div (THUMBNAIL_SIZE h) (inject_Z (Z.pos (Pos.min (width data) (height data)))).

Definition getThumbnail (h : host) (rid : nat) : M (promise string) :=
  r <- this rid ;;
  let blob := Attachment.blob (_attachment r) in
  log (GetSizeAndType blob) ;;
  pthen (getSizeAndType h blob) (fun data =>
    let scale := thumbnailScale h data in
    log (SizeNoMoreThan scale) ;;
    match sizeNoMoreThan h scale with
    | inl e => throw e
    | inr fragment =>
        log (CreateObjectURL blob) ;;
        ret (Fulfilled (createObjectURL h blob +:+ fragment))
    end).

(** [type === 'img' && size < MAX_THUMBNAIL_GENERATION_SIZE]; an absent
    [size] converts to NaN, which is below nothing. *)
Definition thumbnailable (a : Attachment.t) : bool :=
  String.eqb (Attachment.type a) "img" &&
  match Attachment.size a with
  | Some size => JS.ltb size MAX_THUMBNAIL_GENERATION_SIZE
  | None => false
  end.

Record renderData := { markup : string; cssClass : string; url : option string }.

(** ['url("' + data.url + '")']; an absent [url] reads as "undefined". *)
Definition backgroundImageOf (url : option string) : string :=
  "url(" +:+ JS.dquote +:+ default "undefined" url +:+ JS.dquote +:+ ")".

(** The reactions of [render], in source order. *)

Definition onThumbnail (h : host) (rid : nat) (url : string) : M (promise renderData) :=
  markup <- _getBaseMarkup h rid "attachment-preview-tmpl" JS.VUndefined ;;
  ret (Fulfilled {| markup := markup; cssClass := "preview"; url := Some url |}).

Definition onNoThumbnail (h : host) (rid : nat) (error : JS.value) : M (promise renderData) :=
  markup <- _getBaseMarkup h rid "attachment-nopreview-tmpl"
              (JS.VBool (JS.ToBoolean error)) ;;
  ret (Fulfilled {| markup := markup; cssClass := "nopreview"; url := None |}).

Definition onContent (data : renderData) (contentContainer : option nat) : M (promise unit) :=
  classList_add contentContainer (cssClass data) ;;
  thumbnailNode <- querySelector contentContainer "thumbnail" ;;
  match thumbnailNode with
  | Some thumbnailNode =>
      set_backgroundImage thumbnailNode (backgroundImageOf (url data))
  | None => ret tt
  end ;;
  ret (Fulfilled tt).

Definition onMarkup (h : host) (how : strategy) (attachmentContainer : nat) (data : renderData)
  : M (promise unit) :=
  classList_add (Some attachmentContainer) (cssClass data) ;;
  content <- renderTo h how (markup data) attachmentContainer ;;
  hostEvents h attachmentContainer ;;
  contentPromise <- promiseState content ;;
  pthen contentPromise (onContent data).

(** The markup stage: the thumbnail promise, then the two reactions that
    build the markup. *)
Definition markupPromise (h : host) (rid : nat) : M (promise renderData) :=
  r <- this rid ;;
  thumbnailPromise <-
    (if thumbnailable (_attachment r) then getThumbnail h rid
     else ret (Rejected JS.VUndefined)) ;;
  previewed <- pthen thumbnailPromise (onThumbnail h rid) ;;
  pcatch previewed (onNoThumbnail h rid).

Definition render (h : host) (rid : nat) : M (promise unit) :=
  attachmentContainer <- getAttachmentContainer rid ;;
  r <- this rid ;;
  recovered <- markupPromise h rid ;;
  pthen recovered (onMarkup h (_renderer r) attachmentContainer).

(** ** Vocabulary of the specifications *)

(** A rendering with one digit after the point: [d] counts tenths. *)
Definition oneDecimal (d : N) : string :=
  pretty (d / 10)%N +:+ "." +:+ pretty (d mod 10)%N.

(** [s] holds no path separator. *)
Definition noSeparator (s : string) : Prop :=
  forall p q : string, s <> p +:+ String "/" q.

(** Every event a computation appends to the trace satisfies [P]. *)
Definition emits {A} (P : event -> Prop) (m : M A) : Prop :=
  forall s, exists d, trace (m s).2 = trace s ++ d /\ Forall P d.

(** Events of the page side of the pipeline: the DOM calls and the work of
    the draft renderer.  The thumbnail derivation and the two attachment
    templates are not among them. *)
Definition pageEvent (e : event) : bool :=
  match e with
  | GetSizeAndType _ | SizeNoMoreThan _ | CreateObjectURL _ => false
  | Interpolate templateId _ _ => String.eqb templateId "attachment-draft-tmpl"
  | _ => true
  end.

(** The computation only emits page events. *)
Definition pageOnly {A} (m : M A) : Prop := emits (fun e => pageEvent e = true) m.

(** A container as [_createAttachmentContainer] leaves it: in the store,
    without load listener, source or document. *)
Definition pristine (s : state) (c : nat) : Prop :=
  exists nd, nodes s !! c = Some nd /\ loadListeners nd = [] /\
             attributes nd !! "src" = None /\ contentDocument nd = None.

(** The renderer [rid] is [r] and has not rendered yet. *)
Definition unrendered (s : state) (rid : nat) (r : renderer) : Prop :=
  renderers s !! rid = Some r /\
  match _attachmentContainer r with
  | Some c => pristine s c
  | None => True
  end.

(** What the markup stage settles with, from the outcome of the template. *)
Definition markupResult (cls : string) (u : option string) (r : JS.value + string)
  : promise renderData :=
  match r with
  | inl e => Rejected e
  | inr m => Fulfilled {| markup := m; cssClass := cls; url := u |}
  end.

(** The fallback markup requested for a failure [error], and the call
    that requests it; likewise for the preview markup. *)
Definition fallbackMarkup (h : host) (a : Attachment.t) (error : JS.value) : JS.value + string :=
  interpolate h "attachment-nopreview-tmpl"
    (baseMarkupFields a (JS.VBool (JS.ToBoolean error))) [].

Definition fallbackEvent (a : Attachment.t) (error : JS.value) : event :=
  Interpolate "attachment-nopreview-tmpl"
    (baseMarkupFields a (JS.VBool (JS.ToBoolean error))) [].

Definition previewMarkup (h : host) (a : Attachment.t) : JS.value + string :=
  interpolate h "attachment-preview-tmpl" (baseMarkupFields a JS.VUndefined) [].

Definition previewEvent (a : Attachment.t) : event :=
  Interpolate "attachment-preview-tmpl" (baseMarkupFields a JS.VUndefined) [].

(** What the load listener of the draft renderer throws inside its [try],
    if anything, once the iframe has a document: the fault of the template,
    of the localisation or of the click listener, in that order. *)
Definition draftFault (h : host) (baseMarkup : string) : option JS.value :=
  match interpolate h "attachment-draft-tmpl" (draftFields h baseMarkup) ["baseHTML"] with
  | inl e => Some e
  | inr html =>
      match translateFragment h html with
      | Some e => Some e
      | None => clickListenerFault h
      end
  end.

(** The calls of that listener, on the iframe [c] with document element [root]. *)
Definition draftEvents (h : host) (c root : nat) (baseMarkup : string) (d : nat) : list event :=
  RemoveLoadListener c (OnLoad baseMarkup d) ::
  Interpolate "attachment-draft-tmpl" (draftFields h baseMarkup) ["baseHTML"] ::
  match interpolate h "attachment-draft-tmpl" (draftFields h baseMarkup) ["baseHTML"] with
  | inl _ => []
  | inr html =>
      SetInnerHTML root html :: TranslateFragment root ::
      match translateFragment h html with
      | Some _ => []
      | None => [AddClickListener c]
      end
  end.

(** The write of the background image, if a thumbnail node was found. *)
Definition backgroundEvents (t : option nat) (u : option string) : list event :=
  match t with
  | Some n => [SetBackgroundImage n (backgroundImageOf u)]
  | None => []
  end.

(** The calls that create the container of a renderer. *)
Definition containerEvents (how : strategy) (c : nat) (type : string) : list event :=
  CreateAttachmentContainer how ::
  match how with
  | draft => [CreateElement "iframe" c; SetAttribute c "sandbox" "allow-same-origin"]
  | base => [CreateElement "div" c]
  end ++
  [ClassListAdd c "attachment-container"; DatasetSet c "attachmentType" type].

(** The document of an iframe in a state. *)
Definition contentDocumentOf (s : state) (n : nat) : option document :=
  nd ← nodes s !! n; contentDocument nd.

(** The content hosting node: the container itself, or the body of the
    container's document. *)
Definition contentContainerOf (s : state) (how : strategy) (c : nat) : option nat :=
  match how with
  | base => Some c
  | draft => doc ← contentDocumentOf s c; bodyOf s doc
  end.

(** What the shape of the tree is made of. *)
Definition skeleton (nd : node) : string * list nat * option document :=
  (localName nd, descendants nd, contentDocument nd).

(** Events of the delegation to a strategy: [renderTo] and the load listener. *)
Definition delegationEvent (e : event) : bool :=
  match e with
  | SetInnerHTML _ _ | AddLoadListener _ _ | RemoveLoadListener _ _ | SetAttribute _ _ _
  | Interpolate _ _ _ | TranslateFragment _ | AddClickListener _ => true
  | _ => false
  end.

(** The decoration that ends a successful run in state [s'], after the
    calls [before]: the class of [data] on the container [c], the
    delegation, the class on the content hosting node [cc], the search of the
    thumbnail node below [cc], and the write of its background image when it
    is found. *)
Definition decorated (before : list event) (s' : state) (how : strategy) (c : nat)
    (data : renderData) : Prop :=
  exists cc t mid,
    contentContainerOf s' how c = Some cc /\
    trace s' = before ++ ClassListAdd c (cssClass data) :: mid
                      ++ [ClassListAdd cc (cssClass data); QuerySelector cc "thumbnail" t]
                      ++ backgroundEvents t (url data) /\
    Forall (fun e => delegationEvent e = true) mid /\
    hasClass s' (cssClass data) c = true /\
    hasClass s' (cssClass data) cc = true /\
    t = firstWithClass s' cc "thumbnail" /\
    (forall n, t = Some n ->
       backgroundImage <$> nodes s' !! n = Some (Some (backgroundImageOf (url data)))).

(** What the promise of the draft renderer and the content reaction settle
    with, from the load events of the page, the faults of the listener and
    the body found in the final state. *)
Definition draftResult (h : host) (baseMarkup : string) (body : option nat) : promise unit :=
  match loadEvents h with
  | O => Pending
  | S _ =>
      match draftFault h baseMarkup with
      | Some e => Rejected e
      | None =>
          match body with
          | Some _ => Fulfilled tt
          | None => Rejected JS.TypeError
          end
      end
  end.

(** The markup stage by cases on the answers of the collaborators: what
    it settles with and the calls it makes. *)
Inductive markupStage (h : host) (a : Attachment.t) : promise renderData -> list event -> Prop :=
| stage_skip :
    thumbnailable a = false ->
    markupStage h a
      (markupResult "nopreview" None (fallbackMarkup h a JS.VUndefined))
      [fallbackEvent a JS.VUndefined]
| stage_rejected (e : JS.value) :
    thumbnailable a = true ->
    getSizeAndType h (Attachment.blob a) = Rejected e ->
    markupStage h a
      (markupResult "nopreview" None (fallbackMarkup h a e))
      [GetSizeAndType (Attachment.blob a); fallbackEvent a e]
| stage_pending :
    thumbnailable a = true ->
    getSizeAndType h (Attachment.blob a) = Pending ->
    markupStage h a Pending [GetSizeAndType (Attachment.blob a)]
| stage_hint_failed (data : imageInfo) (e : JS.value) :
    thumbnailable a = true ->
    getSizeAndType h (Attachment.blob a) = Fulfilled data ->
    sizeNoMoreThan h (thumbnailScale h data) = inl e ->
    markupStage h a
      (markupResult "nopreview" None (fallbackMarkup h a e))
      [GetSizeAndType (Attachment.blob a); SizeNoMoreThan (thumbnailScale h data);
       fallbackEvent a e]
| stage_preview (data : imageInfo) (fragment m : string) :
    thumbnailable a = true ->
    getSizeAndType h (Attachment.blob a) = Fulfilled data ->
    sizeNoMoreThan h (thumbnailScale h data) = inr fragment ->
    previewMarkup h a = inr m ->
    markupStage h a
      (Fulfilled {| markup := m; cssClass := "preview";
                    url := Some (createObjectURL h (Attachment.blob a) +:+ fragment) |})
      [GetSizeAndType (Attachment.blob a); SizeNoMoreThan (thumbnailScale h data);
       CreateObjectURL (Attachment.blob a); previewEvent a]
| stage_preview_failed (data : imageInfo) (fragment : string) (x : JS.value) :
    thumbnailable a = true ->
    getSizeAndType h (Attachment.blob a) = Fulfilled data ->
    sizeNoMoreThan h (thumbnailScale h data) = inr fragment ->
    previewMarkup h a = inl x ->
    markupStage h a
      (markupResult "nopreview" None (fallbackMarkup h a x))
      [GetSizeAndType (Attachment.blob a); SizeNoMoreThan (thumbnailScale h data);
       CreateObjectURL (Attachment.blob a); previewEvent a; fallbackEvent a x].

(** What the delegation and the content reaction settle with. *)
Definition delegationResult (h : host) (how : strategy) (baseMarkup : string)
    (content : option nat) : promise unit :=
  match how with
  | base => Fulfilled tt
  | draft => draftResult h baseMarkup content
  end.

(** What [render] settles with once the markup stage has settled with [p]. *)
Definition renderResult (h : host) (how : strategy) (p : promise renderData)
    (content : option nat) : promise unit :=
  match p with
  | Fulfilled data => delegationResult h how (markup data) content
  | Rejected e => Rejected e
  | Pending => Pending
  end.

(** The metadata probe was called. *)
Definition probed (t : list event) : bool :=
  existsb (fun e => match e with GetSizeAndType _ => true | _ => false end) t.

(** Events of the markup stage for the attachment [a]: the thumbnail
    derivation and the requests for the two attachment templates. *)
Definition markupEvent (a : Attachment.t) (e : event) : Prop :=
  (exists b, e = GetSizeAndType b) \/ (exists q, e = SizeNoMoreThan q) \/
  (exists b, e = CreateObjectURL b) \/ e = previewEvent a \/
  (exists error, e = fallbackEvent a error).

#[global] Instance Q_eq_dec : EqDecision Q.
Proof. solve_decision. Defined.

#[global] Instance Blob_eq_dec : EqDecision Blob.
Proof. solve_decision. Defined.

#[global] Instance strategy_eq_dec : EqDecision strategy.
Proof. solve_decision. Defined.

#[global] Instance event_eq_dec : EqDecision event.
Proof. solve_decision. Defined.

(** How many times an event occurs in a trace. *)
Definition occurrences (e : event) (t : list event) : nat :=
  count_occ event_eq_dec t e.

(** [k] successive calls of [getAttachmentContainer]. *)
Fixpoint getAttachmentContainer_times (k : nat) (rid : nat) : M (list nat) :=
  match k with
  | O => ret []
  | S k' =>
      c <- getAttachmentContainer rid ;;
      cs <- getAttachmentContainer_times k' rid ;;
      ret (c :: cs)
  end.

(** ** Sample attachments and collaborators *)


Definition with_size (size : option Q) (a : Attachment.t) : Attachment.t :=
  {| Attachment.type := Attachment.type a; Attachment.size := size;
     Attachment.blob := Attachment.blob a; Attachment.name := Attachment.name a;
     Attachment.isDraft := Attachment.isDraft a |}.

(** An image of 1000 bytes shown inline. *)
Definition sampleImage : Attachment.t :=
  {| Attachment.type := "img"; Attachment.size := Some 1000%Q;
     Attachment.blob := {| blob_id := 1; blob_size := 1000 |};
     Attachment.name := "DCIM/100MZLLA/IMG_0001.png"; Attachment.isDraft := false |}.

(** The same image in a draft. *)
Definition sampleDraft : Attachment.t :=
  {| Attachment.type := "img"; Attachment.size := Some 1000%Q;
     Attachment.blob := {| blob_id := 1; blob_size := 1000 |};
     Attachment.name := "DCIM/100MZLLA/IMG_0001.png"; Attachment.isDraft := true |}.

(** An image object without a [size] of its own. *)
Definition sampleUnsized : Attachment.t := with_size None sampleImage.


(** An audio attachment. *)
Definition sampleAudio : Attachment.t :=
  {| Attachment.type := "audio"; Attachment.size := Some 52000%Q;
     Attachment.blob := {| blob_id := 2; blob_size := 52000 |};
     Attachment.name := "ringtone.ogg"; Attachment.isDraft := false |}.

(** A parser for the markup of the sample templates: the preview markup
    holds a thumbnail node, the other attachment markup holds a placeholder,
    and the draft document wraps either in a body. *)
Definition sampleParse (thumbnailInFallback : bool) (markup : string) : list element :=
  let attachment (m : string) :=
    [{| e_tag := "div"; e_classes := ["attachment"]; e_span := 1 |};
     {| e_tag := "div";
        e_classes := if String.eqb m "attachment-preview-tmpl" || thumbnailInFallback
                     then ["thumbnail"] else ["placeholder"];
        e_span := 0 |}] in
  if String.prefix "attachment-draft-tmpl:" markup then
    {| e_tag := "head"; e_classes := []; e_span := 0 |} ::
    {| e_tag := "body"; e_classes := ["attachment-draft"]; e_span := 2 |} ::
    attachment (JS.drop 22 markup)
  else attachment markup.

(** Templates that answer with their identifier, the draft template followed
    by the markup it wraps; [previewFault] is what the preview template
    throws, if anything. *)
Definition sampleInterpolate (previewFault : option JS.value)
    (templateId : string) (fields : list (string * string)) (safe : list string)
  : JS.value + string :=
  if String.eqb templateId "attachment-draft-tmpl" then
    inr (templateId +:+ ":" +:+ default "" (snd <$> last fields))
  else if String.eqb templateId "attachment-preview-tmpl" then
    match previewFault with
    | Some e => inl e
    | None => inr templateId
    end
  else inr templateId.

Definition sampleHostWith (probe : promise imageInfo) (previewFault : option JS.value)
    (thumbnailInFallback : bool) : host :=
  {| devicePixelRatio := 1;
     location_protocol := "app:";
     location_host := "sms.gaiamobile.org";
     interpolate := sampleInterpolate previewFault;
     parseHTML := sampleParse thumbnailInFallback;
     translateFragment := fun _ => None;
     clickListenerFault := None;
     getSizeAndType := fun _ => probe;
     sizeNoMoreThan := fun _ => inr "#-moz-samplesize=2";
     createObjectURL := fun _ => "blob:1";
     loadEvents := 1 |}.

(** A landscape picture of 200 by 100 pixels. *)
Definition sampleInfo : imageInfo :=
  {| width := 200; height := 100; mimeType := "image/png" |}.

Definition sampleHost : host := sampleHostWith (Fulfilled sampleInfo) None false.

(** The state in which a renderer for [a] has just been constructed, and
    the renderer itself. *)
Definition constructed (a : Attachment.t) : state := (AttachmentRenderer_for a emptyState).2.

Definition constructedRenderer (a : Attachment.t) : renderer :=
  {| _attachment := a;
     _renderer := if Attachment.isDraft a then draft else base;
     _attachmentContainer := None |}.

(** ** Writes confined to a part of the store *)

(** What a write of the renderer keeps of a node: its name and its class
    tokens. *)
Definition nodeKept (nd nd' : node) : Prop :=
  localName nd' = localName nd /\ forall c, c ∈ classList nd -> c ∈ classList nd'.

(** The node only refers to nodes from [b] on: its descendants and the
    document element of its document. *)
Definition refersAbove (b : nat) (nd : node) : Prop :=
  Forall (fun m => b <= m) (descendants nd) /\
  forall doc, contentDocument nd = Some doc -> b <= documentElement doc.

(** The nodes from [b] on only refer to nodes from [b] on. *)
Definition closedAbove (b : nat) (s : state) : Prop :=
  forall n nd, b <= n -> nodes s !! n = Some nd -> refersAbove b nd.

Definition optAbove (b : nat) (n : option nat) : Prop :=
  match n with Some n => b <= n | None => True end.

Definition docAbove (b : nat) (doc : option document) : Prop :=
  match doc with Some doc => b <= documentElement doc | None => True end.

(** What a promise is fulfilled with satisfies [Q]. *)
Definition fulfilment {A} (Q : A -> Prop) (p : promise A) : Prop :=
  match p with Fulfilled a => Q a | _ => True end.

(** The deferreds from [db] on are only resolved with nodes from [b] on. *)
Definition resolvedAbove (b db : nat) (s : state) : Prop :=
  forall d n, db <= d -> deferreds s !! d = Some (Fulfilled (Some n)) -> b <= n.

(** [s] is [s0] after writes confined to the nodes from [b] on: the nodes
    below [b] are those of [s0], every node of [s0] is there with its name
    and its class tokens, and the renderers are those of [s0]. *)
Record within (s0 : state) (b db : nat) (s : state) : Prop := {
  within_length : b <= length (nodes s);
  within_take : take b (nodes s) = take b (nodes s0);
  within_closed : closedAbove b s;
  within_kept : forall n nd, nodes s0 !! n = Some nd ->
                  exists nd', nodes s !! n = Some nd' /\ nodeKept nd nd';
  within_renderers : renderers s = renderers s0;
  within_deferreds_length : db <= length (deferreds s);
  within_resolved : resolvedAbove b db s }.

(** The computation keeps [within s0 b db], and what it returns satisfies [Q]. *)
Definition preserves (s0 : state) (b db : nat) {A} (Q : A -> Prop) (m : M A) : Prop :=
  forall s, within s0 b db s ->
    within s0 b db (m s).2 /\
    match (m s).1 with Ok a => Q a | Throw _ => True end.

(** The promise of [renderTo] is that of a deferred from [db] on, or is
    fulfilled with a node from [b] on. *)
Definition refAbove (b db : nat) (q : promiseRef) : Prop :=
  match q with
  | Settled p => fulfilment (optAbove b) p
  | OfDeferred d => db <= d
  end.

(** What stays of a renderer: the attachment, the strategy, and the
    container once there is one. *)
Definition rendererKept (r r' : renderer) : Prop :=
  _attachment r' = _attachment r /\ _renderer r' = _renderer r /\
  forall c, _attachmentContainer r = Some c -> _attachmentContainer r' = Some c.

(** The state after successive runs of [render] on one renderer, each with
    the collaborators of its time. *)
Fixpoint render_each (hs : list host) (rid : nat) (s : state) : state :=
  match hs with
  | [] => s
  | h :: hs' => render_each hs' rid (render h rid s).2
  end.

(** The container as [_createAttachmentContainer] leaves it: an iframe
    sandboxed with [allow-same-origin] for a draft, a plain div otherwise,
    with the class of the containers and the type of the attachment. *)
Definition containerNode (how : strategy) (type : string) : node :=
  {| localName := match how with draft => "iframe" | base => "div" end;
     attributes := match how with
                   | draft => <["sandbox" := "allow-same-origin"]> ∅
                   | base => ∅
                   end;
     classList := ["attachment-container"];
     dataset := <["attachmentType" := type]> ∅;
     innerHTML := "";
     descendants := [];
     backgroundImage := None;
     loadListeners := [];
     contentDocument := None |}.

(** The blobs for which an object URL was created, in order. *)
Definition createdURLs (t : list event) : list Blob :=
  omap (fun e => match e with CreateObjectURL b => Some b | _ => None end) t.

(** The thumbnail is derived down to the hint: the attachment is
    eligible, the probe answers and the downsampler gives a fragment. *)
Definition hinted (h : host) (a : Attachment.t) : bool :=
  thumbnailable a &&
  match getSizeAndType h (Attachment.blob a) with
  | Fulfilled data =>
      match sizeNoMoreThan h (thumbnailScale h data) with
      | inr _ => true
      | inl _ => false
      end
  | _ => false
  end.

(** The collaborators [h], on a page that delivers [k] load events. *)
Definition with_loadEvents (k : nat) (h : host) : host :=
  {| devicePixelRatio := devicePixelRatio h;
     location_protocol := location_protocol h;
     location_host := location_host h;
     interpolate := interpolate h;
     parseHTML := parseHTML h;
     translateFragment := translateFragment h;
     clickListenerFault := clickListenerFault h;
     getSizeAndType := getSizeAndType h;
     sizeNoMoreThan := sizeNoMoreThan h;
     createObjectURL := createObjectURL h;
     loadEvents := k |}.

(** A call of the page side of the pipeline that requests a template
    requests the draft template, with the markup as its only safe field. *)
Definition draftRequest (h : host) (e : event) : Prop :=
  match e with
  | Interpolate templateId fields safe =>
      templateId = "attachment-draft-tmpl" /\ safe = ["baseHTML"] /\
      exists m, fields = draftFields h m
  | _ => True
  end.

(** * Properties *)

(** ** Numbers *)

Lemma ltb_spec (a b : Q) : JS.ltb a b = true <-> (a < b)%Q.
Proof.
  unfold JS.ltb. rewrite negb_true_iff. split.
  - intros H. apply Qnot_le_lt. intros H2. apply Qle_bool_iff in H2. congruence.
  - intros H. destruct (Qle_bool b a) eqn:E; auto.
    apply Qle_bool_iff in E. exfalso. eapply Qlt_not_le; eauto.
Qed.

Lemma ltb_false (a b : Q) : JS.ltb a b = false <-> (b <= a)%Q.
Proof. unfold JS.ltb. rewrite negb_false_iff. apply Qle_bool_iff. Qed.

Lemma MAX_THUMBNAIL_GENERATION_SIZE_bytes :
  (MAX_THUMBNAIL_GENERATION_SIZE == 1572864)%Q.
Proof. reflexivity. Qed.

(** The integer nearest to ten times a non-negative fraction [z / b]. *)
Lemma tenths (x : Q) (z : Z) (b : positive) :
  (x == z # b)%Q -> (0 <= z)%Z ->
  Qfloor (Qabs x * 10 + (1 # 2)) = ((20 * z + Z.pos b) / (2 * Z.pos b))%Z.
Proof.
  intros Hx Hz.
  assert (E : (Qabs x * 10 + (1 # 2) == (20 * z + Z.pos b) # (2 * b))%Q).
  { rewrite Hx, Qabs_pos.
    - unfold Qeq, Qmult, Qplus. simpl. lia.
    - unfold Qle. simpl. lia. }
  rewrite (Qfloor_comp _ _ E). reflexivity.
Qed.

Lemma toFixed1_nonneg (x : Q) (z : Z) (b : positive) :
  (x == z # b)%Q -> (0 <= z)%Z ->
  JS.toFixed1 x = oneDecimal (Z.to_N ((20 * z + Z.pos b) / (2 * Z.pos b))).
Proof.
  intros Hx Hz. unfold JS.toFixed1.
  rewrite (tenths x z b Hx Hz).
  assert (Hs : JS.ltb x 0 = false).
  { apply ltb_false. rewrite Hx. unfold Qle. simpl. lia. }
  rewrite Hs. reflexivity.
Qed.

Lemma sizeKB_frac (size : N) : (JS.ofN size / 1024 == Z.of_N size # 1024)%Q.
Proof. unfold JS.ofN, Qeq, Qdiv, Qmult, Qinv, inject_Z. simpl. lia. Qed.

Lemma sizeMB_frac (size : N) : (JS.ofN size / 1024 / 1024 == Z.of_N size # 1048576)%Q.
Proof. unfold JS.ofN, Qeq, Qdiv, Qmult, Qinv, inject_Z. simpl. lia. Qed.

Lemma sizeKB_lt (size : N) :
  JS.ltb (JS.ofN size / 1024) 1000 = true <-> (size < 1024000)%N.
Proof. rewrite ltb_spec, sizeKB_frac. unfold Qlt. simpl. lia. Qed.

(** Below 2^64 bytes the kilobyte count stays under the 10^21 limit of
    [toFixed], so [JS.toFixed1] is the path taken. *)
Lemma sizeKB_toFixed_path (size : N) :
  (size < 2 ^ 64)%N -> (JS.ofN size / 1024 < 1000000000000000000000)%Q.
Proof.
  intros H. rewrite sizeKB_frac. unfold Qlt. simpl.
  change (2 ^ 64)%N with 18446744073709551616%N in H. lia.
Qed.

(** Rounding half up to a multiple of [1 / b]. *)
Lemma half_up (size : N) (b : positive) :
  Z.to_N ((20 * Z.of_N size + Z.pos (2 * b)) / (2 * Z.pos (2 * b)))
  = ((10 * size + N.pos b) / N.pos (2 * b))%N.
Proof.
  replace (20 * Z.of_N size + Z.pos (2 * b))%Z
    with ((10 * Z.of_N size + Z.pos b) * 2)%Z by lia.
  replace (2 * Z.pos (2 * b))%Z with (Z.pos (2 * b) * 2)%Z by lia.
  rewrite Z.div_mul_cancel_r by lia.
  apply N2Z.inj. rewrite Z2N.id by (apply Z.div_pos; lia).
  rewrite N2Z.inj_div, N2Z.inj_add, N2Z.inj_mul. reflexivity.
Qed.

Lemma half_up_near (size : N) (b : positive) :
  (Z.abs (Z.pos (2 * b) * Z.of_N ((10 * size + N.pos b) / N.pos (2 * b))
          - 10 * Z.of_N size) <= Z.pos b)%Z.
Proof.
  rewrite N2Z.inj_div, N2Z.inj_add, N2Z.inj_mul.
  change (Z.of_N 10) with 10%Z.
  change (Z.of_N (N.pos b)) with (Z.pos b).
  change (Z.of_N (N.pos (2 * b))) with (Z.pos (2 * b)).
  pose proof (Z.div_mod (10 * Z.of_N size + Z.pos b) (Z.pos (2 * b)) ltac:(lia)).
  pose proof (Z.mod_pos_bound (10 * Z.of_N size + Z.pos b) (Z.pos (2 * b)) ltac:(lia)).
  lia.
Qed.

(** ** The arithmetic of doubles *)

Lemma nearestEven_near (n d : Z) :
  (0 < d)%Z -> (2 * Z.abs (JS.nearestEven n d * d - n) <= d)%Z.
Proof.
  intros Hd. unfold JS.nearestEven.
  pose proof (Z.div_mod n d ltac:(lia)) as E.
  pose proof (Z.mod_pos_bound n d Hd) as B.
  destruct (Z.compare_spec (2 * (n mod d)) d) as [C|C|C];
    [destruct (Z.even (n / d))| |]; nia.
Qed.

Lemma nearestEven_nonneg (n d : Z) :
  (0 <= n)%Z -> (0 < d)%Z -> (0 <= JS.nearestEven n d)%Z.
Proof.
  intros Hn Hd. unfold JS.nearestEven.
  pose proof (Z.div_pos n d Hn Hd).
  destruct (2 * (n mod d) ?= d)%Z; [destruct (Z.even (n / d))| |]; lia.
Qed.

(** Lowering the exponent by one doubles the scaled value. *)
Lemma scaled_step (n d e : Z) :
  (JS.scaledNum n (e - 1) * JS.scaledDen d e
   = 2 * JS.scaledNum n e * JS.scaledDen d (e - 1))%Z.
Proof.
  unfold JS.scaledNum, JS.scaledDen.
  destruct (Z.le_gt_cases e 0) as [H|H].
  - rewrite (Z.max_l 0 e), (Z.max_l 0 (e - 1)) by lia.
    rewrite (Z.max_r 0 (- e)), (Z.max_r 0 (- (e - 1))) by lia.
    replace (- (e - 1))%Z with (Z.succ (- e)) by lia.
    rewrite Z.pow_succ_r by lia. ring.
  - rewrite (Z.max_r 0 e), (Z.max_r 0 (e - 1)) by lia.
    rewrite (Z.max_l 0 (- e)), (Z.max_l 0 (- (e - 1))) by lia.
    replace e with (Z.succ (e - 1)) at 1 by lia.
    rewrite Z.pow_succ_r by lia. ring.
Qed.

Lemma scaledDen_pos (d e : Z) : (0 < d)%Z -> (0 < JS.scaledDen d e)%Z.
Proof.
  intros H. unfold JS.scaledDen. apply Z.mul_pos_pos; [exact H|].
  apply Z.pow_pos_nonneg; lia.
Qed.

Lemma scaledNum_pos (n e : Z) : (0 < n)%Z -> (0 < JS.scaledNum n e)%Z.
Proof.
  intros H. unfold JS.scaledNum. apply Z.mul_pos_pos; [exact H|].
  apply Z.pow_pos_nonneg; lia.
Qed.

(** With the first guess of the exponent the scaled value lies between
    2^51 and 2^53. *)
Lemma first_guess (n d : Z) :
  (0 < n)%Z -> (0 < d)%Z ->
  let e0 := (Z.log2 n - Z.log2 d - 52)%Z in
  (2 ^ 51 * JS.scaledDen d e0 < JS.scaledNum n e0 < 2 ^ 53 * JS.scaledDen d e0)%Z.
Proof.
  intros Hn Hd. cbv zeta.
  destruct (Z.log2_spec n Hn) as [Ha1 Ha2]. destruct (Z.log2_spec d Hd) as [Hb1 Hb2].
  pose proof (Z.log2_nonneg n) as Ha. pose proof (Z.log2_nonneg d) as Hb.
  set (a := Z.log2 n) in *. set (b := Z.log2 d) in *.
  rewrite Z.pow_succ_r in Ha2, Hb2 by lia.
  unfold JS.scaledNum, JS.scaledDen.
  destruct (Z.le_gt_cases 0 (a - b - 52)) as [H|H].
  - rewrite (Z.max_r 0 (a - b - 52)), (Z.max_l 0 (- (a - b - 52))) by lia.
    assert (E : (2 ^ a = 2 ^ b * 2 ^ 52 * 2 ^ (a - b - 52))%Z).
    { rewrite <- !Z.pow_add_r by lia. f_equal. lia. }
    pose proof (Z.pow_pos_nonneg 2 (a - b - 52) ltac:(lia) H).
    pose proof (Z.pow_pos_nonneg 2 b ltac:(lia) Hb).
    change (2 ^ 0)%Z with 1%Z. change (2 ^ 51)%Z with 2251799813685248%Z.
    change (2 ^ 52)%Z with 4503599627370496%Z in E.
    change (2 ^ 53)%Z with 9007199254740992%Z.
    nia.
  - rewrite (Z.max_l 0 (a - b - 52)), (Z.max_r 0 (- (a - b - 52))) by lia.
    assert (E : (2 ^ a * 2 ^ (- (a - b - 52)) = 2 ^ b * 2 ^ 52)%Z).
    { rewrite <- !Z.pow_add_r by lia. f_equal. lia. }
    pose proof (Z.pow_pos_nonneg 2 (- (a - b - 52)) ltac:(lia) ltac:(lia)).
    pose proof (Z.pow_pos_nonneg 2 b ltac:(lia) Hb).
    change (2 ^ 0)%Z with 1%Z. change (2 ^ 51)%Z with 2251799813685248%Z.
    change (2 ^ 52)%Z with 4503599627370496%Z in E.
    change (2 ^ 53)%Z with 9007199254740992%Z.
    nia.
Qed.

(** In the normal range, from 2^-1022 on, the scaled value lies between
    2^52 and 2^53: the significand has 53 bits. *)
Lemma exponentOf_normal (n d : Z) :
  (0 < n)%Z -> (0 < d)%Z -> (d <= n * 2 ^ 1022)%Z ->
  let e := JS.exponentOf n d in
  (2 ^ 52 * JS.scaledDen d e <= JS.scaledNum n e < 2 ^ 53 * JS.scaledDen d e)%Z.
Proof.
  intros Hn Hd Hnormal. cbv zeta. unfold JS.exponentOf.
  pose proof (first_guess n d Hn Hd) as G. cbv zeta in G.
  set (e0 := (Z.log2 n - Z.log2 d - 52)%Z) in *.
  set (e1 := if (JS.scaledNum n e0 <? 2 ^ 52 * JS.scaledDen d e0)%Z then (e0 - 1)%Z else e0).
  assert (H1 : (2 ^ 52 * JS.scaledDen d e1 <= JS.scaledNum n e1
                < 2 ^ 53 * JS.scaledDen d e1)%Z).
  { unfold e1.
    destruct (Z.ltb_spec (JS.scaledNum n e0) (2 ^ 52 * JS.scaledDen d e0)) as [C|C].
    - pose proof (scaled_step n d e0) as S.
      pose proof (scaledDen_pos d e0 Hd). pose proof (scaledDen_pos d (e0 - 1) Hd).
      pose proof (scaledNum_pos n e0 Hn). pose proof (scaledNum_pos n (e0 - 1) Hn).
      change (2 ^ 51)%Z with 2251799813685248%Z in G.
      change (2 ^ 52)%Z with 4503599627370496%Z in *.
      change (2 ^ 53)%Z with 9007199254740992%Z in *.
      nia.
    - lia. }
  assert (He : (-1074 <= e1)%Z).
  { destruct (Z.le_gt_cases (-1074) e1) as [?|C]; [assumption | exfalso].
    destruct H1 as [_ H1]. unfold JS.scaledNum, JS.scaledDen in H1.
    rewrite (Z.max_l 0 e1), (Z.max_r 0 (- e1)) in H1 by lia.
    change (2 ^ 0)%Z with 1%Z in H1.
    assert (P : (2 ^ 1075 <= 2 ^ (- e1))%Z) by (apply Z.pow_le_mono_r; lia).
    assert (E : (2 ^ 1075 = 2 ^ 53 * 2 ^ 1022)%Z)
      by (rewrite <- Z.pow_add_r by lia; reflexivity).
    pose proof (Z.pow_pos_nonneg 2 1022 ltac:(lia) ltac:(lia)) as P1.
    pose proof (Z.pow_pos_nonneg 2 53 ltac:(lia) ltac:(lia)) as P2.
    set (p1022 := (2 ^ 1022)%Z) in *. set (p53 := (2 ^ 53)%Z) in *.
    set (pe := (2 ^ (- e1))%Z) in *. set (p1075 := (2 ^ 1075)%Z) in *. nia. }
  rewrite Z.max_l by exact He. exact H1.
Qed.

Lemma roundDouble_nonneg (x : Q) : (0 <= x)%Q -> (0 <= JS.roundDouble x)%Q.
Proof.
  intros Hx. unfold JS.roundDouble.
  destruct (Z.eqb_spec (Z.abs (Qnum x)) 0) as [E|E]; [apply Qle_refl|].
  rewrite Qred_correct. unfold Qle in *. cbn [Qnum Qden] in *.
  rewrite Z.mul_1_r in *.
  assert (Hn : (0 < Qnum x)%Z) by lia.
  rewrite (Z.sgn_pos _ Hn), Z.abs_eq by lia.
  pose proof (scaledNum_pos (Qnum x) (JS.exponentOf (Qnum x) (Z.pos (Qden x))) Hn) as HN.
  pose proof (nearestEven_nonneg _ _ (Z.lt_le_incl _ _ HN)
                (scaledDen_pos (Z.pos (Qden x)) (JS.exponentOf (Qnum x) (Z.pos (Qden x)))
                   (Pos2Z.is_pos _))).
  pose proof (Z.pow_pos_nonneg 2 (Z.max 0 (JS.exponentOf (Qnum x) (Z.pos (Qden x))))
                ltac:(lia) ltac:(lia)).
  nia.
Qed.

(** In the normal range the nearest double is within 2^-53 of the value,
    relatively. *)
Lemma roundDouble_near (x : Q) :
  (1 # 2 ^ 1022 <= x)%Q ->
  (Qabs (JS.roundDouble x - x) <= x * (1 # 2 ^ 53))%Q.
Proof.
  intros Hx. destruct x as [n d].
  assert (Hn : (0 < n)%Z).
  { unfold Qle in Hx. cbn [Qnum Qden] in Hx. lia. }
  assert (Hnormal : (Z.pos d <= n * 2 ^ 1022)%Z).
  { unfold Qle in Hx. cbn [Qnum Qden] in Hx.
    change (Z.pos (2 ^ 1022)) with (2 ^ 1022)%Z in Hx. lia. }
  unfold JS.roundDouble. cbn [Qnum Qden]. rewrite (Z.abs_eq n) by lia.
  destruct (Z.eqb_spec n 0) as [E|_]; [lia|].
  rewrite Qred_correct, (Z.sgn_pos _ Hn), Z.mul_1_l.
  pose proof (exponentOf_normal n (Z.pos d) Hn (Pos2Z.is_pos d) Hnormal) as B.
  cbv zeta in B.
  set (e := JS.exponentOf n (Z.pos d)) in *.
  pose proof (nearestEven_near (JS.scaledNum n e) (JS.scaledDen (Z.pos d) e)
                (scaledDen_pos _ _ (Pos2Z.is_pos _))) as R.
  set (m := JS.nearestEven (JS.scaledNum n e) (JS.scaledDen (Z.pos d) e)) in *.
  unfold JS.scaledNum, JS.scaledDen in *.
  pose proof (Z.pow_pos_nonneg 2 (Z.max 0 e) ltac:(lia) ltac:(lia)) as HP.
  pose proof (Z.pow_pos_nonneg 2 (Z.max 0 (- e)) ltac:(lia) ltac:(lia)) as HQ.
  set (P := (2 ^ Z.max 0 e)%Z) in *. set (Q' := (2 ^ Z.max 0 (- e))%Z) in *.
  unfold Qle, Qabs, Qminus, Qplus, Qopp, Qmult. cbn [Qnum Qden].
  rewrite !Pos2Z.inj_mul, Z2Pos.id by exact HQ.
  change (Z.pos (2 ^ 53)) with 9007199254740992%Z.
  change (2 ^ 52)%Z with 4503599627370496%Z in B.
  change (2 ^ 53)%Z with 9007199254740992%Z in B.
  replace (m * P * Z.pos d + - n * Q')%Z with (m * (Z.pos d * P) - n * Q')%Z by ring.
  set (D := (Z.pos d * P)%Z) in *. set (N := (n * Q')%Z) in *.
  assert (HD : (0 < D)%Z) by (unfold D; lia).
  assert (K : (Z.abs (m * D - N) * 9007199254740992 <= N)%Z) by lia.
  replace (n * 1 * (Q' * Z.pos d))%Z with (N * Z.pos d)%Z by (unfold N; ring).
  replace (Z.abs (m * D - N) * (Z.pos d * 9007199254740992))%Z
    with (Z.abs (m * D - N) * 9007199254740992 * Z.pos d)%Z by ring.
  apply Z.mul_le_mono_nonneg_r; lia.
Qed.

(** ** Strings *)

Lemma append_nil_l (s : string) : "" +:+ s = s.
Proof. reflexivity. Qed.

Lemma append_cons (a : ascii) (p q : string) : String a p +:+ q = String a (p +:+ q).
Proof. reflexivity. Qed.

Lemma length_append (p q : string) :
  String.length (p +:+ q) = (String.length p + String.length q)%nat.
Proof.
  induction p as [|a p IH]; [reflexivity|].
  rewrite append_cons. cbn [String.length]. now rewrite IH.
Qed.

Lemma noSeparator_cons (a : ascii) (s : string) :
  noSeparator (String a s) <-> a <> "/"%char /\ noSeparator s.
Proof.
  split.
  - intros H. split.
    + intros ->. apply (H "" s). reflexivity.
    + intros p q ->. apply (H (String a p) q). reflexivity.
  - intros [Ha Hs] p q E. destruct p as [|a' p].
    + rewrite append_nil_l in E. congruence.
    + rewrite append_cons in E. injection E as _ E. exact (Hs p q E).
Qed.

Lemma noSeparator_empty : noSeparator "".
Proof. intros [|a p] q E; [rewrite append_nil_l in E | rewrite append_cons in E]; discriminate. Qed.

(** A string has no separator, or splits at its last one. *)
Lemma last_separator (s : string) :
  noSeparator s \/
  exists pre post, s = pre +:+ String "/" post /\ noSeparator post.
Proof.
  induction s as [|a s [IH | (pre & post & -> & Hpost)]].
  - left. apply noSeparator_empty.
  - destruct (Ascii.eqb_spec a "/") as [->|Ha].
    + right. exists "", s. split; [reflexivity | assumption].
    + left. apply noSeparator_cons. split; assumption.
  - right. exists (String a pre), post. split; [reflexivity | assumption].
Qed.

Lemma lastIndexOf_from_none (s : string) : forall i last,
  noSeparator s -> JS.lastIndexOf_from s "/" i last = last.
Proof.
  induction s as [|a s IH]; intros i last H; [reflexivity|].
  apply noSeparator_cons in H as [Ha Hs]. cbn [JS.lastIndexOf_from].
  destruct (Ascii.eqb_spec a "/"); [contradiction|]. apply IH, Hs.
Qed.

Lemma lastIndexOf_from_last (pre post : string) : forall i last,
  noSeparator post ->
  JS.lastIndexOf_from (pre +:+ String "/" post) "/" i last
  = (i + Z.of_nat (String.length pre))%Z.
Proof.
  induction pre as [|a pre IH]; intros i last H.
  - rewrite append_nil_l. cbn [JS.lastIndexOf_from String.length].
    rewrite Ascii.eqb_refl, lastIndexOf_from_none by assumption. lia.
  - rewrite append_cons. cbn [JS.lastIndexOf_from String.length].
    rewrite IH by assumption. lia.
Qed.

Lemma drop_separator (pre post : string) (c : ascii) :
  JS.drop (S (String.length pre)) (pre +:+ String c post) = post.
Proof.
  induction pre as [|a pre IH]; [destruct post; reflexivity|].
  rewrite append_cons. exact IH.
Qed.

Lemma fileName_after_last (pre post : string) :
  noSeparator post -> fileName (pre +:+ String "/" post) = post.
Proof.
  intros Hpost. unfold fileName, JS.lastIndexOf, JS.slice.
  rewrite lastIndexOf_from_last by assumption.
  rewrite length_append. cbn [String.length].
  destruct (Z.ltb_spec (0 + Z.of_nat (String.length pre) + 1) 0); [lia|].
  rewrite Z.min_l by lia.
  replace (Z.to_nat (0 + Z.of_nat (String.length pre) + 1))
    with (S (String.length pre)) by lia.
  apply drop_separator.
Qed.

Lemma fileName_whole (name : string) : noSeparator name -> fileName name = name.
Proof.
  intros H. unfold fileName, JS.lastIndexOf, JS.slice.
  rewrite lastIndexOf_from_none by assumption. cbn.
  destruct name; reflexivity.
Qed.

(** ** The file-size label and the displayed name *)

(** C6: for every byte size (of a blob, hence below 2^64) the label divides
    the bytes by 1024; under 1000 KB it uses the kilobyte key with the KB
    value rounded to one decimal, otherwise the megabyte key with the MB
    value (KB / 1024) rounded to one decimal; 1024000 bytes already select
    the megabyte key, and so do sizes under 1048576 bytes from there on. *)
Theorem getSizeForL10n_label (size : N) :
  (size < 2 ^ 64)%N ->
  let label := getSizeForL10n (JS.ofN size) in
  ((size < 1024000)%N ->
     l10nId label = "attachmentSize" /\
     l10nArgs_n label = JS.toFixed1 (JS.ofN size / 1024) /\
     exists d : N,
       l10nArgs_n label = oneDecimal d /\
       d = ((10 * size + 512) / 1024)%N /\
       (Z.abs (1024 * Z.of_N d - 10 * Z.of_N size) <= 512)%Z) /\
  ((1024000 <= size)%N ->
     l10nId label = "attachmentSizeMB" /\
     l10nArgs_n label = JS.toFixed1 (JS.ofN size / 1024 / 1024) /\
     exists d : N,
       l10nArgs_n label = oneDecimal d /\
       d = ((10 * size + 524288) / 1048576)%N /\
       (Z.abs (1048576 * Z.of_N d - 10 * Z.of_N size) <= 524288)%Z) /\
  l10nId (getSizeForL10n (JS.ofN 1024000)) = "attachmentSizeMB" /\
  l10nId (getSizeForL10n (JS.ofN 1048575)) = "attachmentSizeMB".
Proof.
  intros _. cbv zeta. unfold getSizeForL10n. repeat split.
  - apply sizeKB_lt in H as ->. reflexivity.
  - apply sizeKB_lt in H as ->. reflexivity.
  - apply sizeKB_lt in H as ->. cbn [l10nArgs_n].
    exists ((10 * size + 512) / 1024)%N. split; [|split; [reflexivity|]].
    + rewrite (toFixed1_nonneg _ (Z.of_N size) 1024 (sizeKB_frac size)) by lia.
      f_equal. apply (half_up size 512).
    + apply (half_up_near size 512).
  - destruct (JS.ltb (JS.ofN size / 1024) 1000) eqn:E; [|reflexivity].
    apply sizeKB_lt in E. lia.
  - destruct (JS.ltb (JS.ofN size / 1024) 1000) eqn:E; [|reflexivity].
    apply sizeKB_lt in E. lia.
  - destruct (JS.ltb (JS.ofN size / 1024) 1000) eqn:E.
    { apply sizeKB_lt in E. lia. }
    cbn [l10nArgs_n].
    exists ((10 * size + 524288) / 1048576)%N. split; [|split; [reflexivity|]].
    + rewrite (toFixed1_nonneg _ (Z.of_N size) 1048576 (sizeMB_frac size)) by lia.
      f_equal. apply (half_up size 524288).
    + apply (half_up_near size 524288).
Qed.

Lemma getSizeForL10n_label_witness :
  (1500000 < 2 ^ 64)%N /\
  l10nId (getSizeForL10n (JS.ofN 1500000)) = "attachmentSizeMB" /\
  l10nArgs_n (getSizeForL10n (JS.ofN 1500000)) = oneDecimal 14.
Proof.
  split; [reflexivity|].
  destruct (getSizeForL10n_label 1500000 eq_refl) as (_ & HMB & _).
  destruct (HMB ltac:(discriminate)) as (Hid & _ & d & Hd & Hdv & _).
  split; [exact Hid|]. rewrite Hd, Hdv. reflexivity.
Defined.

Example getSizeForL10n_500 :
  getSizeForL10n (JS.ofN 500)
  = {| l10nId := "attachmentSize"; l10nArgs_n := "0.5" |}.
Proof. vm_compute. reflexivity. Qed.

Example getSizeForL10n_1500000 :
  getSizeForL10n (JS.ofN 1500000)
  = {| l10nId := "attachmentSizeMB"; l10nArgs_n := "1.4" |}.
Proof. vm_compute. reflexivity. Qed.

Example getSizeForL10n_1023999 :
  getSizeForL10n (JS.ofN 1023999)
  = {| l10nId := "attachmentSize"; l10nArgs_n := "1000.0" |}.
Proof. vm_compute. reflexivity. Qed.


Example fileName_path : fileName "a/b/c.png" = "c.png".
Proof. reflexivity. Qed.

Example fileName_plain : fileName "c.png" = "c.png".
Proof. reflexivity. Qed.

(** ** The effect monad *)

Lemma bind_Ok {A B} (m : M A) (f : A -> M B) s a s1 :
  m s = (Ok a, s1) -> bind m f s = f a s1.
Proof. intros H. unfold bind. rewrite H. reflexivity. Qed.

Lemma bind_Throw {A B} (m : M A) (f : A -> M B) s e s1 :
  m s = (Throw e, s1) -> bind m f s = (Throw e, s1).
Proof. intros H. unfold bind. rewrite H. reflexivity. Qed.

Section Emits.
Context (P : event -> Prop).

Lemma emits_ret {A} (a : A) : emits P (ret a).
Proof. intros s. exists []. rewrite app_nil_r. split; [reflexivity | constructor]. Qed.

Lemma emits_throw {A} (e : JS.value) : emits P (@throw A e).
Proof. intros s. exists []. rewrite app_nil_r. split; [reflexivity | constructor]. Qed.

Lemma emits_gets {A} (f : state -> A) : emits P (gets f).
Proof. intros s. exists []. rewrite app_nil_r. split; [reflexivity | constructor]. Qed.

Lemma emits_modify (f : state -> state) :
  (forall s, trace (f s) = trace s) -> emits P (modify f).
Proof.
  intros H s. exists []. rewrite app_nil_r. split; [apply H | constructor].
Qed.

Lemma emits_log (e : event) : P e -> emits P (log e).
Proof. intros H s. exists [e]. split; [reflexivity | repeat constructor; exact H]. Qed.

Lemma emits_bind {A B} (m : M A) (f : A -> M B) :
  emits P m -> (forall a, emits P (f a)) -> emits P (bind m f).
Proof.
  intros Hm Hf s. destruct (Hm s) as (d1 & E1 & F1). unfold bind.
  destruct (m s) as [[a|e] s1]; cbn [snd] in *.
  - destruct (Hf a s1) as (d2 & E2 & F2). exists (d1 ++ d2).
    rewrite E2, E1, app_assoc. split; [reflexivity | apply Forall_app; split; assumption].
  - exists d1. split; assumption.
Qed.

Lemma emits_try_catch {A} (m : M A) (handler : JS.value -> M A) :
  emits P m -> (forall e, emits P (handler e)) -> emits P (try_catch m handler).
Proof.
  intros Hm Hf s. destruct (Hm s) as (d1 & E1 & F1). unfold try_catch.
  destruct (m s) as [[a|e] s1]; cbn [snd] in *.
  - exists d1. split; assumption.
  - destruct (Hf e s1) as (d2 & E2 & F2). exists (d1 ++ d2).
    rewrite E2, E1, app_assoc. split; [reflexivity | apply Forall_app; split; assumption].
Qed.

Lemma emits_settle {A} (m : M (promise A)) : emits P m -> emits P (settle m).
Proof.
  intros Hm s. destruct (Hm s) as (d & E & F). unfold settle.
  destruct (m s) as [[a|e] s1]; exists d; split; assumption.
Qed.

Lemma emits_pthen {A B} (p : promise A) (f : A -> M (promise B)) :
  (forall a, emits P (f a)) -> emits P (pthen p f).
Proof.
  intros Hf. destruct p; cbn [pthen]; [apply emits_settle, Hf | apply emits_ret ..].
Qed.

Lemma emits_pcatch {A} (p : promise A) (g : JS.value -> M (promise A)) :
  (forall e, emits P (g e)) -> emits P (pcatch p g).
Proof.
  intros Hg. destruct p; cbn [pcatch]; [apply emits_ret | apply emits_settle, Hg | apply emits_ret].
Qed.
End Emits.

Lemma emits_weaken {A} (P Q : event -> Prop) (m : M A) :
  (forall e, P e -> Q e) -> emits P m -> emits Q m.
Proof.
  intros H Hm s. destruct (Hm s) as (d & E & F). exists d. split; [exact E|].
  eapply Forall_impl; eassumption.
Qed.

(** One step of the proof that a computation only emits events of a kind:
    through the combinators, by cases on what the code inspects. *)
Ltac emits_step :=
  first
    [ apply emits_ret | apply emits_throw | apply emits_gets
    | apply emits_log; reflexivity
    | apply emits_modify; reflexivity
    | apply emits_bind; [|intros ?]
    | apply emits_try_catch; [|intros ?]
    | apply emits_settle
    | apply emits_pthen; intros ?
    | apply emits_pcatch; intros ?
    | match goal with
      | |- emits _ (match ?x with _ => _ end) => destruct x
      | |- emits _ (if ?x then _ else _) => destruct x
      end ].

Lemma pageOnly_createElement tag : pageOnly (createElement tag).
Proof. unfold pageOnly in *. unfold createElement. repeat emits_step. Qed.

Lemma pageOnly_setAttribute n k v : pageOnly (setAttribute n k v).
Proof. unfold pageOnly in *. unfold setAttribute. repeat emits_step. Qed.

Lemma pageOnly_classList_add n c : pageOnly (classList_add n c).
Proof. unfold pageOnly in *. unfold classList_add. repeat emits_step. Qed.

Lemma pageOnly_set_innerHTML h n m : pageOnly (set_innerHTML h n m).
Proof. unfold pageOnly in *. unfold set_innerHTML. repeat emits_step. Qed.

Lemma pageOnly_this rid : pageOnly (this rid).
Proof. unfold pageOnly in *. unfold this. repeat emits_step. Qed.

Lemma pageOnly_getAttachmentContainer rid : pageOnly (getAttachmentContainer rid).
Proof. unfold pageOnly in *.
  unfold getAttachmentContainer, _createAttachmentContainer, createAttachmentContainer,
    dataset_set.
  repeat first [apply (pageOnly_this) | apply pageOnly_createElement
               | apply pageOnly_setAttribute | apply pageOnly_classList_add | emits_step].
Qed.

Lemma pageOnly_settleDeferred d p : pageOnly (settleDeferred d p).
Proof. unfold pageOnly in *. unfold settleDeferred. repeat emits_step. Qed.

Lemma pageOnly_onload h n l : pageOnly (onload h n l).
Proof. unfold pageOnly in *.
  unfold onload, removeLoadListener, get_contentDocument, Template_interpolate,
    mozL10n_translateFragment, addClickListener, deferred_resolve, deferred_reject.
  repeat first [apply pageOnly_set_innerHTML | apply pageOnly_settleDeferred | emits_step].
Qed.

Lemma pageOnly_runLoadListeners h n ls : pageOnly (runLoadListeners h n ls).
Proof. unfold pageOnly in *.
  induction ls as [|l ls IH]; cbn [runLoadListeners]; [apply emits_ret|].
  apply emits_bind; [apply pageOnly_onload | intros _; exact IH].
Qed.

Lemma pageOnly_dispatchLoads h k n : pageOnly (dispatchLoads h k n).
Proof. unfold pageOnly in *.
  induction k as [|k IH]; cbn [dispatchLoads]; [apply emits_ret|].
  apply emits_bind; [|intros _; exact IH].
  unfold dispatchLoad. apply emits_bind; [apply emits_gets|].
  intros ls. apply pageOnly_runLoadListeners.
Qed.

Lemma pageOnly_hostEvents h n : pageOnly (hostEvents h n).
Proof. unfold pageOnly in *.
  unfold hostEvents, navigate.
  repeat first [apply pageOnly_dispatchLoads | emits_step].
Qed.

Lemma pageOnly_onContent data cc : pageOnly (onContent data cc).
Proof. unfold pageOnly in *.
  unfold onContent, querySelector, set_backgroundImage.
  repeat first [apply pageOnly_classList_add | emits_step].
Qed.

Lemma pageOnly_onMarkup h how c data : pageOnly (onMarkup h how c data).
Proof. unfold pageOnly in *.
  unfold onMarkup, renderTo, draft_renderTo, base_renderTo, defer, addLoadListener,
    promiseState, deferred_promise.
  repeat first [apply pageOnly_classList_add | apply pageOnly_set_innerHTML
               | apply pageOnly_setAttribute | apply pageOnly_hostEvents
               | apply pageOnly_onContent | emits_step].
Qed.

(** ** The DOM store *)

Lemma lookup_alter_Some {A} (f : A -> A) (l : list A) i x :
  l !! i = Some x -> alter f i l !! i = Some (f x).
Proof. intros H. rewrite list_lookup_alter_eq, H. reflexivity. Qed.

Lemma lookup_alter_other {A} (f : A -> A) (l : list A) i j x :
  i <> j -> l !! j = Some x -> alter f i l !! j = Some x.
Proof. intros Hne H. rewrite list_lookup_alter_ne; assumption. Qed.

Lemma alter_last {A} (f : A -> A) (l : list A) x :
  alter f (length l) (l ++ [x]) = l ++ [f x].
Proof.
  rewrite alter_app_r_alt by lia. rewrite Nat.sub_diag. reflexivity.
Qed.

Lemma find_ext {A} (f g : A -> bool) (l : list A) :
  (forall x, f x = g x) -> List.find f l = List.find g l.
Proof.
  intros H. induction l as [|x l IH]; cbn; [reflexivity|]. rewrite H, IH. reflexivity.
Qed.

Lemma lookup_alter_fmap {A B} (g : A -> B) (f : A -> A) (l : list A) i j :
  (forall x, g (f x) = g x) -> g <$> alter f i l !! j = g <$> l !! j.
Proof.
  intros H. destruct (decide (i = j)) as [->|Hne].
  - rewrite list_lookup_alter_eq. destruct (l !! j); cbn; [rewrite H|]; reflexivity.
  - rewrite list_lookup_alter_ne by assumption. reflexivity.
Qed.

Lemma hasClass_eq s s' c n :
  classList <$> nodes s' !! n = classList <$> nodes s !! n ->
  hasClass s' c n = hasClass s c n.
Proof.
  unfold hasClass.
  destruct (nodes s' !! n) as [a|], (nodes s !! n) as [b|]; cbn; intros H;
    try discriminate; [injection H as ->|]; reflexivity.
Qed.

Lemma descendantsOf_eq s s' n :
  skeleton <$> nodes s' !! n = skeleton <$> nodes s !! n ->
  descendantsOf s' n = descendantsOf s n.
Proof.
  unfold descendantsOf, skeleton.
  destruct (nodes s' !! n) as [a|], (nodes s !! n) as [b|]; cbn; intros H;
    try discriminate; [injection H as _ -> _|]; reflexivity.
Qed.

Lemma firstWithClass_eq s s' n c :
  (forall m, classList <$> nodes s' !! m = classList <$> nodes s !! m) ->
  (forall m, skeleton <$> nodes s' !! m = skeleton <$> nodes s !! m) ->
  firstWithClass s' n c = firstWithClass s n c.
Proof.
  intros H1 H2. unfold firstWithClass. rewrite (descendantsOf_eq s s') by apply H2.
  apply find_ext. intros x. apply hasClass_eq, H1.
Qed.

Lemma bodyOf_eq s s' doc :
  (forall m, skeleton <$> nodes s' !! m = skeleton <$> nodes s !! m) ->
  bodyOf s' doc = bodyOf s doc.
Proof.
  intros H. unfold bodyOf. rewrite (descendantsOf_eq s s') by apply H.
  apply find_ext. intros x. specialize (H x). unfold skeleton in H.
  destruct (nodes s' !! x) as [a|], (nodes s !! x) as [b|]; cbn in *;
    try discriminate; [injection H as -> _ _|]; reflexivity.
Qed.

Lemma contentContainerOf_eq s s' how c :
  (forall m, skeleton <$> nodes s' !! m = skeleton <$> nodes s !! m) ->
  contentContainerOf s' how c = contentContainerOf s how c.
Proof.
  intros H. destruct how; [|reflexivity]. unfold contentContainerOf, contentDocumentOf.
  pose proof (H c) as Hc. unfold skeleton in Hc.
  destruct (nodes s' !! c) as [nd'|], (nodes s !! c) as [nd|]; cbn in *;
    try discriminate; [|reflexivity].
  injection Hc as _ _ ->. destruct (contentDocument nd); cbn; [|reflexivity].
  apply bodyOf_eq, H.
Qed.

Lemma add_token_elem (c : string) (l : list string) : c ∈ add_token c l.
Proof.
  unfold add_token. case_bool_decide; [assumption|].
  apply elem_of_app. right. constructor.
Qed.

Lemma add_token_mono (c c' : string) (l : list string) : c' ∈ l -> c' ∈ add_token c l.
Proof.
  intros H. unfold add_token. case_bool_decide; [assumption|].
  apply elem_of_app. left. assumption.
Qed.

Lemma hasClass_Some s c n : hasClass s c n = true -> exists nd, nodes s !! n = Some nd.
Proof. unfold hasClass. destruct (nodes s !! n); [eauto | discriminate]. Qed.

Lemma firstWithClass_Some s n c t :
  firstWithClass s n c = Some t -> hasClass s c t = true.
Proof. unfold firstWithClass. intros H. apply List.find_some in H. apply H. Qed.

(** Adding a class keeps the classes that are there. *)
Lemma hasClass_add_token s c n c' n' :
  hasClass s c' n' = true ->
  hasClass (with_nodes (alter (with_classList (add_token c)) n) s) c' n' = true.
Proof.
  unfold hasClass. cbn [nodes with_nodes]. intros H.
  destruct (decide (n = n')) as [->|Hne].
  - rewrite list_lookup_alter_eq. destruct (nodes s !! n'); [|discriminate]. cbn.
    apply bool_decide_eq_true. apply bool_decide_eq_true in H. apply add_token_mono, H.
  - rewrite list_lookup_alter_ne by assumption. exact H.
Qed.

Lemma hasClass_added s c n nd :
  nodes s !! n = Some nd ->
  hasClass (with_nodes (alter (with_classList (add_token c)) n) s) c n = true.
Proof.
  intros H. unfold hasClass. cbn [nodes with_nodes].
  rewrite (lookup_alter_Some _ _ _ _ H). cbn. apply bool_decide_eq_true, add_token_elem.
Qed.

(** Two states built from the same record by the same updates are equal up
    to the grouping of the trace. *)
Ltac state_eq :=
  unfold with_trace, with_nodes, with_renderers, with_deferreds, setInnerHTML_state,
    blankDocument;
  cbn [nodes renderers deferreds trace];
  rewrite <- ?app_assoc; reflexivity.

(** ** The content reaction *)

Lemma onContent_null data s :
  onContent data None s = (Throw JS.TypeError, s).
Proof. reflexivity. Qed.

Lemma onContent_run data cc s nd :
  nodes s !! cc = Some nd ->
  exists s' t,
    onContent data (Some cc) s = (Ok (Fulfilled tt), s') /\
    t = firstWithClass s' cc "thumbnail" /\
    trace s' = trace s ++ [ClassListAdd cc (cssClass data); QuerySelector cc "thumbnail" t]
                       ++ backgroundEvents t (url data) /\
    hasClass s' (cssClass data) cc = true /\
    (forall c n, hasClass s c n = true -> hasClass s' c n = true) /\
    (forall n, t = Some n ->
       backgroundImage <$> nodes s' !! n = Some (Some (backgroundImageOf (url data)))) /\
    (forall m, skeleton <$> nodes s' !! m = skeleton <$> nodes s !! m) /\
    renderers s' = renderers s /\ deferreds s' = deferreds s.
Proof.
  intros Hn.
  set (sA := with_nodes (alter (with_classList (add_token (cssClass data))) cc) s).
  assert (HskA : forall m, skeleton <$> nodes sA !! m = skeleton <$> nodes s !! m).
  { intros m. apply lookup_alter_fmap. reflexivity. }
  destruct (firstWithClass sA cc "thumbnail") as [t|] eqn:Et.
  - exists (with_trace (fun tr => tr ++ [ClassListAdd cc (cssClass data);
                                         QuerySelector cc "thumbnail" (Some t);
                                         SetBackgroundImage t (backgroundImageOf (url data))])
              (with_nodes (alter (with_backgroundImage (backgroundImageOf (url data))) t) sA)),
           (Some t).
    assert (Ht : firstWithClass
                   (with_nodes (alter (with_backgroundImage (backgroundImageOf (url data))) t) sA)
                   cc "thumbnail" = Some t).
    { rewrite <- Et. apply firstWithClass_eq; intros m; apply lookup_alter_fmap; reflexivity. }
    repeat split.
    + cbv [onContent classList_add querySelector set_backgroundImage bind gets ret modify log].
      cbn [with_trace with_nodes nodes trace renderers deferreds].
      change (firstWithClass _ cc "thumbnail") with (firstWithClass sA cc "thumbnail").
      rewrite Et. subst sA. clear. destruct s. state_eq.
    + symmetry. exact Ht.
    + erewrite (hasClass_eq sA); [apply (hasClass_added s _ _ _ Hn)|].
      apply lookup_alter_fmap. reflexivity.
    + intros c n H. erewrite (hasClass_eq sA); [apply hasClass_add_token, H|].
      apply lookup_alter_fmap. reflexivity.
    + intros n [= <-]. cbn [nodes with_trace with_nodes].
      apply firstWithClass_Some, hasClass_Some in Et as [ndt Hndt].
      rewrite (lookup_alter_Some _ _ _ _ Hndt). reflexivity.
    + intros m. cbn [nodes with_trace]. rewrite <- HskA.
      apply lookup_alter_fmap. reflexivity.
  - exists (with_trace (fun tr => tr ++ [ClassListAdd cc (cssClass data);
                                         QuerySelector cc "thumbnail" None]) sA), None.
    repeat split.
    + cbv [onContent classList_add querySelector set_backgroundImage bind gets ret modify log].
      cbn [with_trace with_nodes nodes trace renderers deferreds].
      change (firstWithClass _ cc "thumbnail") with (firstWithClass sA cc "thumbnail").
      rewrite Et. subst sA. clear. destruct s. state_eq.
    + symmetry. exact Et.
    + apply (hasClass_added s _ _ _ Hn).
    + intros c n H. apply (hasClass_add_token s), H.
    + intros n [=].
    + exact HskA.
Qed.

(** ** The container *)

Lemma this_run rid s r : renderers s !! rid = Some r -> this rid s = (Ok r, s).
Proof. intros H. unfold this, bind, gets. rewrite H. reflexivity. Qed.

Lemma getAttachmentContainer_cached rid s r c :
  renderers s !! rid = Some r -> _attachmentContainer r = Some c ->
  getAttachmentContainer rid s = (Ok c, s).
Proof.
  intros Hr Hc. unfold getAttachmentContainer.
  rewrite (bind_Ok _ _ _ _ _ (this_run _ _ _ Hr)), Hc. reflexivity.
Qed.

(** The node of a new container. *)
Lemma getAttachmentContainer_fresh rid s r :
  renderers s !! rid = Some r -> _attachmentContainer r = None ->
  exists s1 nd,
    getAttachmentContainer rid s = (Ok (length (nodes s)), s1) /\
    nodes s1 = nodes s ++ [nd] /\
    localName nd = match _renderer r with draft => "iframe" | base => "div" end /\
    classList nd = ["attachment-container"] /\
    dataset nd = {[ "attachmentType" := Attachment.type (_attachment r) ]} /\
    loadListeners nd = [] /\ attributes nd !! "src" = None /\ contentDocument nd = None /\
    descendants nd = [] /\ backgroundImage nd = None /\
    renderers s1 = alter (with_attachmentContainer (Some (length (nodes s)))) rid (renderers s) /\
    deferreds s1 = deferreds s /\
    trace s1 = trace s ++ containerEvents (_renderer r) (length (nodes s))
                            (Attachment.type (_attachment r)).
Proof.
  intros Hr Hc.
  unfold getAttachmentContainer, _createAttachmentContainer.
  rewrite (bind_Ok _ _ _ _ _ (this_run _ _ _ Hr)), Hc. cbv beta iota.
  unfold bind at 1. rewrite (bind_Ok _ _ _ _ _ (this_run _ _ _ Hr)).
  clear Hr. destruct s as [ns rs ds tr]. cbn [nodes renderers deferreds trace] in *.
  destruct (_renderer r);
    cbv [createAttachmentContainer createElement setAttribute classList_add dataset_set
         bind gets ret modify log with_nodes with_trace with_renderers];
    cbn [nodes renderers deferreds trace];
    rewrite !alter_last; cbn [with_attributes with_classList with_dataset blankNode
                              localName attributes classList dataset innerHTML descendants
                              backgroundImage loadListeners contentDocument];
    eexists; eexists; (split; [reflexivity|]);
    cbn [nodes renderers deferreds trace localName attributes classList dataset innerHTML
         descendants backgroundImage loadListeners contentDocument];
    repeat split; rewrite <- ?app_assoc; try reflexivity.
Qed.

Ltac splits := repeat match goal with |- _ /\ _ => split end.

Lemma lookup_last {A} (l : list A) (x : A) : (l ++ [x]) !! length l = Some x.
Proof. apply list_lookup_middle. reflexivity. Qed.

Lemma containerEvents_page how c type :
  Forall (fun e => pageEvent e = true) (containerEvents how c type).
Proof. destruct how; repeat constructor. Qed.

(** Fetching the container: the renderer keeps its attachment and its
    strategy, and the container of an unrendered renderer is pristine. *)
Lemma getAttachmentContainer_run rid s r :
  renderers s !! rid = Some r ->
  exists c s1 r1 d,
    getAttachmentContainer rid s = (Ok c, s1) /\
    renderers s1 !! rid = Some r1 /\
    _attachment r1 = _attachment r /\ _renderer r1 = _renderer r /\
    _attachmentContainer r1 = Some c /\
    (unrendered s rid r -> pristine s1 c) /\
    deferreds s1 = deferreds s /\
    trace s1 = trace s ++ d /\ Forall (fun e => pageEvent e = true) d.
Proof.
  intros Hr. destruct (_attachmentContainer r) as [c|] eqn:Ec.
  - exists c, s, r, []. rewrite app_nil_r.
    rewrite (getAttachmentContainer_cached _ _ _ _ Hr Ec). splits; auto.
    intros [_ Hc]. rewrite Ec in Hc. exact Hc.
  - destruct (getAttachmentContainer_fresh _ _ _ Hr Ec)
      as (s1 & nd & Hrun & Hns & _ & _ & _ & Hl & Hsrc & Hdoc & _ & _ & Hrs & Hds & Htr).
    exists (length (nodes s)), s1, (with_attachmentContainer (Some (length (nodes s))) r),
           (containerEvents (_renderer r) (length (nodes s)) (Attachment.type (_attachment r))).
    splits; auto.
    + rewrite Hrs. apply lookup_alter_Some, Hr.
    + intros _. exists nd. rewrite Hns. splits; auto. apply lookup_last.
    + apply containerEvents_page.
Qed.

(** ** The markup stage *)

Ltac run_markup :=
  cbv [markupPromise this bind gets ret throw modify log settle pthen pcatch
       onThumbnail onNoThumbnail _getBaseMarkup Template_interpolate getThumbnail
       with_trace with_nodes with_renderers with_deferreds];
  cbn [renderers nodes trace deferreds].

Ltac settle_markup :=
  unfold fallbackMarkup, fallbackEvent, previewMarkup, previewEvent;
  destruct (interpolate _ "attachment-nopreview-tmpl" _ _);
  match goal with |- context [trace ?s] => destruct s end; state_eq.

Section MarkupStage.
Context (h : host) (rid : nat) (s : state) (r : renderer).
Context (Hr : renderers s !! rid = Some r).

Lemma markupPromise_skip :
  thumbnailable (_attachment r) = false ->
  markupPromise h rid s =
    (Ok (markupResult "nopreview" None (fallbackMarkup h (_attachment r) JS.VUndefined)),
     with_trace (fun t => t ++ [fallbackEvent (_attachment r) JS.VUndefined]) s).
Proof.
  intros Hn. run_markup. rewrite Hr, Hn. run_markup. rewrite Hr. settle_markup.
Qed.

Lemma markupPromise_rejected (e : JS.value) :
  thumbnailable (_attachment r) = true ->
  getSizeAndType h (Attachment.blob (_attachment r)) = Rejected e ->
  markupPromise h rid s =
    (Ok (markupResult "nopreview" None (fallbackMarkup h (_attachment r) e)),
     with_trace (fun t => t ++ [GetSizeAndType (Attachment.blob (_attachment r));
                                fallbackEvent (_attachment r) e]) s).
Proof.
  intros Hn Hp. run_markup. rewrite Hr, Hn. run_markup. rewrite Hr, Hp.
  run_markup. rewrite Hr. settle_markup.
Qed.

Lemma markupPromise_pending :
  thumbnailable (_attachment r) = true ->
  getSizeAndType h (Attachment.blob (_attachment r)) = Pending ->
  markupPromise h rid s =
    (Ok Pending,
     with_trace (fun t => t ++ [GetSizeAndType (Attachment.blob (_attachment r))]) s).
Proof.
  intros Hn Hp. run_markup. rewrite Hr, Hn. run_markup. rewrite Hr, Hp.
  destruct s; state_eq.
Qed.

Lemma markupPromise_hint_failed (data : imageInfo) (e : JS.value) :
  thumbnailable (_attachment r) = true ->
  getSizeAndType h (Attachment.blob (_attachment r)) = Fulfilled data ->
  sizeNoMoreThan h (thumbnailScale h data) = inl e ->
  markupPromise h rid s =
    (Ok (markupResult "nopreview" None (fallbackMarkup h (_attachment r) e)),
     with_trace (fun t => t ++ [GetSizeAndType (Attachment.blob (_attachment r));
                                SizeNoMoreThan (thumbnailScale h data);
                                fallbackEvent (_attachment r) e]) s).
Proof.
  intros Hn Hp Hf. run_markup. rewrite Hr, Hn. run_markup. rewrite Hr, Hp.
  run_markup. rewrite Hf. run_markup. rewrite Hr. settle_markup.
Qed.

Lemma markupPromise_preview (data : imageInfo) (fragment m : string) :
  thumbnailable (_attachment r) = true ->
  getSizeAndType h (Attachment.blob (_attachment r)) = Fulfilled data ->
  sizeNoMoreThan h (thumbnailScale h data) = inr fragment ->
  previewMarkup h (_attachment r) = inr m ->
  markupPromise h rid s =
    (Ok (Fulfilled {| markup := m; cssClass := "preview";
                      url := Some (createObjectURL h (Attachment.blob (_attachment r))
                                   +:+ fragment) |}),
     with_trace (fun t => t ++ [GetSizeAndType (Attachment.blob (_attachment r));
                                SizeNoMoreThan (thumbnailScale h data);
                                CreateObjectURL (Attachment.blob (_attachment r));
                                previewEvent (_attachment r)]) s).
Proof.
  intros Hn Hp Hf Hm. unfold previewMarkup in Hm. run_markup. rewrite Hr, Hn. run_markup.
  rewrite Hr, Hp. run_markup. rewrite Hf. run_markup. rewrite Hr, Hm.
  unfold previewEvent. destruct s; state_eq.
Qed.

Lemma markupPromise_preview_failed (data : imageInfo) (fragment : string) (x : JS.value) :
  thumbnailable (_attachment r) = true ->
  getSizeAndType h (Attachment.blob (_attachment r)) = Fulfilled data ->
  sizeNoMoreThan h (thumbnailScale h data) = inr fragment ->
  previewMarkup h (_attachment r) = inl x ->
  markupPromise h rid s =
    (Ok (markupResult "nopreview" None (fallbackMarkup h (_attachment r) x)),
     with_trace (fun t => t ++ [GetSizeAndType (Attachment.blob (_attachment r));
                                SizeNoMoreThan (thumbnailScale h data);
                                CreateObjectURL (Attachment.blob (_attachment r));
                                previewEvent (_attachment r);
                                fallbackEvent (_attachment r) x]) s).
Proof.
  intros Hn Hp Hf Hm. unfold previewMarkup in Hm. run_markup. rewrite Hr, Hn. run_markup.
  rewrite Hr, Hp. run_markup. rewrite Hf. run_markup. rewrite Hr, Hm. run_markup. rewrite Hr.
  settle_markup.
Qed.
End MarkupStage.

(** ** The draft renderer *)

Ltac run_dom :=
  cbv [onload removeLoadListener get_contentDocument Template_interpolate set_innerHTML
       mozL10n_translateFragment addClickListener deferred_resolve deferred_reject
       settleDeferred try_catch bind gets ret throw modify log
       with_trace with_nodes with_renderers with_deferreds setInnerHTML_state];
  cbn [renderers nodes trace deferreds].

(** The classes of the nodes that were there are kept by a step that only
    alters other attributes of nodes or appends nodes. *)
Ltac keep_classes :=
  let cl := fresh "cl" in
  let n := fresh "n" in
  let H := fresh "H" in
  let x := fresh "x" in
  let E := fresh "E" in
  intros cl n; unfold hasClass; cbn [nodes]; intros H;
  match type of H with
  | match ?ns !! n with _ => _ end = true =>
      destruct (ns !! n) as [x|] eqn:E; [|discriminate];
      apply lookup_lt_Some in E as ?;
      match goal with
      | |- match ?ns' !! n with _ => _ end = true =>
          assert (classList <$> ns' !! n = classList <$> ns !! n) as Hcl
            by (repeat first [ rewrite lookup_alter_fmap by reflexivity
                             | rewrite lookup_app_l by (rewrite ?length_alter in *; lia) ];
                reflexivity);
          rewrite E in Hcl; destruct (ns' !! n); [|discriminate];
          cbn in Hcl; injection Hcl as ->; exact H
      end
  end.

Lemma onload_run h c m d s nd doc root_nd :
  nodes s !! c = Some nd -> contentDocument nd = Some doc ->
  nodes s !! documentElement doc = Some root_nd -> documentElement doc <> c ->
  deferreds s !! d = Some Pending ->
  exists s' nd' doc',
    onload h c (OnLoad m d) s = (Ok tt, s') /\
    nodes s' !! c = Some nd' /\
    loadListeners nd'
    = List.filter (fun l' => negb (bool_decide (l' = OnLoad m d))) (loadListeners nd) /\
    contentDocument nd' = Some doc' /\ documentElement doc' = documentElement doc /\
    deferreds s' !! d
    = Some (match draftFault h m with
            | Some e => Rejected e
            | None => Fulfilled (bodyOf s' doc')
            end) /\
    renderers s' = renderers s /\
    trace s' = trace s ++ draftEvents h c (documentElement doc) m d /\
    (forall cl n, hasClass s cl n = true -> hasClass s' cl n = true).
Proof.
  intros Hc Hdoc Hroot Hne Hd. destruct s as [ns rs ds tr].
  cbn [nodes renderers deferreds trace] in *.
  unfold draftFault, draftEvents. run_dom.
  rewrite (lookup_alter_Some _ _ _ _ Hc).
  cbn [mbind option_bind with_loadListeners contentDocument].
  rewrite Hdoc. cbn [mbind option_bind].
  destruct (interpolate h "attachment-draft-tmpl" (draftFields h m) ["baseHTML"]) as [e|html].
  - cbn [nodes renderers deferreds trace].
    eexists; eexists; eexists. split; [reflexivity|].
    cbn [nodes renderers deferreds trace].
    split; [apply lookup_alter_Some, Hc|].
    cbn [with_loadListeners loadListeners contentDocument].
    splits; try eassumption; try reflexivity.
    + rewrite (lookup_alter_Some _ _ _ _ Hd); reflexivity.
    + rewrite <- app_assoc. reflexivity.
    + keep_classes.
  - cbn [nodes renderers deferreds trace].
    rewrite (lookup_app_l_Some _ _ _ _
               (lookup_alter_Some _ _ _ _
                  (lookup_alter_other _ _ _ _ _ (not_eq_sym Hne) Hroot))).
    cbn [fmap option_fmap option_map default with_content innerHTML]. unfold id.
    destruct (translateFragment h html) as [e|].
    + cbn [nodes renderers deferreds trace].
      eexists; eexists; eexists. split; [reflexivity|].
      cbn [nodes renderers deferreds trace].
      split; [apply lookup_app_l_Some, lookup_alter_other, lookup_alter_Some, Hc; exact Hne|].
      cbn [with_loadListeners loadListeners contentDocument].
      splits; try eassumption; try reflexivity.
      * rewrite (lookup_alter_Some _ _ _ _ Hd); reflexivity.
      * rewrite <- !app_assoc. reflexivity.
      * keep_classes.
    + destruct (clickListenerFault h) as [e|].
      * cbn [nodes renderers deferreds trace].
        eexists; eexists; eexists. split; [reflexivity|].
        cbn [nodes renderers deferreds trace].
        split; [apply lookup_app_l_Some, lookup_alter_other, lookup_alter_Some, Hc; exact Hne|].
        cbn [with_loadListeners loadListeners contentDocument].
        splits; try eassumption; try reflexivity.
        -- rewrite (lookup_alter_Some _ _ _ _ Hd); reflexivity.
        -- rewrite <- !app_assoc. reflexivity.
        -- keep_classes.
      * cbn [nodes renderers deferreds trace].
        eexists; eexists; eexists. split; [reflexivity|].
        cbn [nodes renderers deferreds trace].
        split; [apply lookup_alter_Some, lookup_app_l_Some, lookup_alter_other,
                  lookup_alter_Some, Hc; exact Hne|].
        cbn [with_loadListeners with_contentDocument loadListeners contentDocument].
        rewrite Hdoc. cbn [fmap option_fmap option_map].
        splits; try eassumption; try reflexivity.
        -- rewrite (lookup_alter_Some _ _ _ _ Hd); reflexivity.
        -- rewrite <- !app_assoc. reflexivity.
        -- keep_classes.
Qed.

Lemma bodyOf_Some s doc b : bodyOf s doc = Some b -> exists nd, nodes s !! b = Some nd.
Proof.
  unfold bodyOf. intros H. apply List.find_some in H as [_ H].
  destruct (nodes s !! b); [eauto | discriminate].
Qed.

Lemma navigate_blank c s nd v :
  nodes s !! c = Some nd -> attributes nd !! "src" = Some v -> contentDocument nd = None ->
  navigate c s = (Ok tt, blankDocument c s).
Proof.
  intros Hc Hsrc Hdoc. unfold navigate, bind, gets. rewrite Hc, Hsrc, Hdoc. reflexivity.
Qed.

Lemma navigate_idle c s nd :
  nodes s !! c = Some nd -> attributes nd !! "src" = None -> navigate c s = (Ok tt, s).
Proof.
  intros Hc Hsrc. unfold navigate, bind, gets. rewrite Hc, Hsrc. reflexivity.
Qed.

Lemma dispatchLoad_idle h n s nd :
  nodes s !! n = Some nd -> loadListeners nd = [] -> dispatchLoad h n s = (Ok tt, s).
Proof.
  intros Hn Hl. unfold dispatchLoad, loadListenersOf, bind, gets. rewrite Hn, Hl. reflexivity.
Qed.

Lemma dispatchLoads_idle h k n s nd :
  nodes s !! n = Some nd -> loadListeners nd = [] -> dispatchLoads h k n s = (Ok tt, s).
Proof.
  intros Hn Hl. induction k as [|k IH]; [reflexivity|].
  cbn [dispatchLoads]. unfold bind. rewrite (dispatchLoad_idle h n s nd Hn Hl). exact IH.
Qed.

Lemma dispatchLoad_single h n s nd l s' :
  nodes s !! n = Some nd -> loadListeners nd = [l] ->
  onload h n l s = (Ok tt, s') -> dispatchLoad h n s = (Ok tt, s').
Proof.
  intros Hn Hl Hrun. unfold dispatchLoad, loadListenersOf, bind, gets. rewrite Hn, Hl.
  cbn [runLoadListeners]. unfold bind. rewrite Hrun. reflexivity.
Qed.

Lemma filter_self (l : listener) :
  List.filter (fun l' => negb (bool_decide (l' = l))) [l] = [].
Proof. cbn. rewrite bool_decide_eq_true_2 by reflexivity. reflexivity. Qed.

(** The draft renderer on a pristine container, up to the first load
    event: the promise is pending until the container, navigated to a blank
    document, gets its load event; the listener then runs once and is gone. *)
Lemma draft_first_load h c m s :
  pristine s c ->
  let d := length (deferreds s) in
  let root := length (nodes s) in
  exists s2 s3 s' nd2 nd' doc',
    draft_renderTo m c s = (Ok (OfDeferred d), s2) /\
    navigate c s2 = (Ok tt, s3) /\
    dispatchLoad h c s3 = (Ok tt, s') /\
    deferreds s2 !! d = Some Pending /\ deferreds s3 !! d = Some Pending /\
    nodes s2 !! c = Some nd2 /\ loadListeners nd2 = [OnLoad m d] /\
    trace s2 = trace s ++ [AddLoadListener c (OnLoad m d); SetAttribute c "src" "about:blank"] /\
    trace s3 = trace s2 /\
    nodes s' !! c = Some nd' /\ loadListeners nd' = [] /\
    contentDocument nd' = Some doc' /\ documentElement doc' = root /\
    deferreds s' !! d
    = Some (match draftFault h m with
            | Some e => Rejected e
            | None => Fulfilled (bodyOf s' doc')
            end) /\
    renderers s' = renderers s /\
    trace s' = trace s2 ++ draftEvents h c root m d /\
    (forall cl n, hasClass s cl n = true -> hasClass s' cl n = true).
Proof.
  intros (nd & Hc & Hl & Hsrc & Hdoc) d root. destruct s as [ns rs ds tr].
  cbn [nodes renderers deferreds trace] in *.
  set (nd2 := with_attributes (insert "src" "about:blank")
                (with_loadListeners (fun ls => ls ++ [OnLoad m d]) nd)).
  set (ns2 := alter (with_attributes (insert "src" "about:blank")) c
                (alter (with_loadListeners (fun ls => ls ++ [OnLoad m d])) c ns)).
  set (s2 := {| nodes := ns2; renderers := rs; deferreds := ds ++ [Pending];
                trace := (tr ++ [AddLoadListener c (OnLoad m d)])
                         ++ [SetAttribute c "src" "about:blank"] |}).
  assert (Hc2 : ns2 !! c = Some nd2).
  { apply lookup_alter_Some, lookup_alter_Some, Hc. }
  assert (Hlen : length ns2 = root).
  { subst ns2 root. rewrite !length_alter. reflexivity. }
  assert (Hlt : c < root) by (eapply lookup_lt_Some, Hc).
  set (doc3 := {| documentElement := root; clickListeners := [] |}).
  set (s3 := blankDocument c s2).
  assert (Hc3 : nodes s3 !! c = Some (with_contentDocument (Some doc3) nd2)).
  { subst s3 s2 doc3. unfold blankDocument, with_nodes. cbn [nodes]. rewrite Hlen.
    apply lookup_app_l_Some, lookup_alter_Some, Hc2. }
  assert (Hroot3 : nodes s3 !! root = Some (blankNode "html" [] [root + 1; root + 2])).
  { subst s3 s2. unfold blankDocument, with_nodes. cbn [nodes]. rewrite Hlen.
    rewrite lookup_app_r by (rewrite length_alter; lia).
    rewrite length_alter, Hlen, Nat.sub_diag. reflexivity. }
  assert (Hd3 : deferreds s3 !! d = Some Pending) by apply lookup_last.
  destruct (onload_run h c m d s3 _ doc3 _ Hc3 eq_refl Hroot3 ltac:(cbn; lia) Hd3)
    as (s' & nd' & doc' & Hrun & Hc' & Hl' & Hdoc' & Hroot' & Hd' & Hrs' & Htr' & Hcls').
  exists s2, s3, s', nd2, nd', doc'.
  splits; try reflexivity; try assumption.
  - apply (navigate_blank c s2 nd2 "about:blank" Hc2
             (lookup_insert_eq (attributes nd) "src" "about:blank") Hdoc).
  - apply (dispatchLoad_single h c s3 _ _ s' Hc3 ltac:(cbn; rewrite Hl; reflexivity) Hrun).
  - subst nd2. cbn. rewrite Hl. reflexivity.
  - cbn. rewrite <- app_assoc. reflexivity.
  - rewrite Hl'. cbn. rewrite Hl. apply filter_self.
  - intros cl n H. apply Hcls'. subst s3 s2 ns2.
    unfold blankDocument, with_nodes. cbn [nodes]. revert cl n H. keep_classes.
Qed.

Lemma pristine_classList_add s c cls :
  pristine s c ->
  exists s1,
    classList_add (Some c) cls s = (Ok tt, s1) /\
    pristine s1 c /\
    nodes s1 = alter (with_classList (add_token cls)) c (nodes s) /\
    renderers s1 = renderers s /\ deferreds s1 = deferreds s /\
    trace s1 = trace s ++ [ClassListAdd c cls] /\
    hasClass s1 cls c = true /\
    (forall cl n, hasClass s cl n = true -> hasClass s1 cl n = true).
Proof.
  intros (nd & Hc & Hl & Hsrc & Hdoc).
  exists (with_trace (fun t => t ++ [ClassListAdd c cls])
            (with_nodes (alter (with_classList (add_token cls)) c) s)).
  splits; try reflexivity.
  - exists (with_classList (add_token cls) nd). splits; try assumption.
    apply lookup_alter_Some, Hc.
  - apply (hasClass_added s cls c nd Hc).
  - intros cl n H. apply (hasClass_add_token s cls c cl n H).
Qed.

(** ** The markup reaction *)

Lemma draftEvents_delegation h c root m d :
  Forall (fun e => delegationEvent e = true) (draftEvents h c root m d).
Proof.
  unfold draftEvents.
  destruct (interpolate _ _ _ _); [repeat constructor|].
  destruct (translateFragment _ _); repeat constructor.
Qed.

Lemma hostEvents_idle h c s nd :
  nodes s !! c = Some nd -> loadListeners nd = [] -> attributes nd !! "src" = None ->
  hostEvents h c s = (Ok tt, s).
Proof.
  intros Hc Hl Hsrc. unfold hostEvents.
  rewrite (bind_Ok _ _ _ _ _ (navigate_idle c s nd Hc Hsrc)).
  apply (dispatchLoads_idle h _ c s nd Hc Hl).
Qed.

Lemma onMarkup_base h c data s :
  pristine s c ->
  exists s',
    onMarkup h base c data s = (Ok (Fulfilled tt), s') /\
    decorated (trace s) s' base c data.
Proof.
  intros (nd & Hc & Hl & Hsrc & Hdoc). destruct s as [ns rs ds tr].
  cbn [nodes renderers deferreds trace] in *.
  set (ns2 := alter (with_content (markup data)
                       (seq (length (alter (with_classList (add_token (cssClass data))) c ns))
                            (length (parseHTML h (markup data))))) c
                (alter (with_classList (add_token (cssClass data))) c ns)
              ++ parsedNodes (length (alter (with_classList (add_token (cssClass data))) c ns))
                   (parseHTML h (markup data))).
  set (s2 := {| nodes := ns2; renderers := rs; deferreds := ds;
                trace := (tr ++ [ClassListAdd c (cssClass data)])
                         ++ [SetInnerHTML c (markup data)] |}).
  assert (Hc2 : exists nd2, nodes s2 !! c = Some nd2 /\ loadListeners nd2 = [] /\
                            attributes nd2 !! "src" = None).
  { eexists. split; [apply lookup_app_l_Some, lookup_alter_Some, lookup_alter_Some, Hc|].
    split; assumption. }
  destruct Hc2 as (nd2 & Hc2 & Hl2 & Hsrc2).
  destruct (onContent_run data c s2 nd2 Hc2)
    as (s' & t & Hrun & Ht & Htr & Hcls & _ & Hbg & _ & _ & _).
  exists s'. splits.
  - change (onMarkup h base c data _)
      with ((hostEvents h c ;;
             contentPromise <- promiseState (Settled (Fulfilled (Some c))) ;;
             pthen contentPromise (onContent data)) s2).
    rewrite (bind_Ok _ _ _ _ _ (hostEvents_idle h c s2 nd2 Hc2 Hl2 Hsrc2)).
    cbv [promiseState bind ret pthen settle]. rewrite Hrun. reflexivity.
  - exists c, t, [SetInnerHTML c (markup data)]. splits; auto.
    rewrite Htr. cbn. rewrite <- !app_assoc. reflexivity.
Qed.

Lemma onMarkup_draft h c data s :
  pristine s c ->
  exists s',
    onMarkup h draft c data s
    = (Ok (draftResult h (markup data) (contentContainerOf s' draft c)), s') /\
    (draftResult h (markup data) (contentContainerOf s' draft c) = Fulfilled tt ->
     decorated (trace s) s' draft c data).
Proof.
  intros Hp.
  destruct (pristine_classList_add s c (cssClass data) Hp)
    as (s1 & H1 & Hp1 & _ & _ & Hds1 & Htr1 & Hcls1 & Hmono1).
  destruct (draft_first_load h c (markup data) s1 Hp1)
    as (s2 & s3 & s4 & nd2 & nd4 & doc4 & H2 & H3 & H4 & Hd2 & Hd3 & _ & _ & Htr2 & Htr3
        & Hc4 & Hl4 & Hdoc4 & Hroot4 & Hd4 & Hrs4 & Htr4 & Hmono4).
  unfold onMarkup, renderTo, hostEvents, draftResult.
  rewrite (bind_Ok _ _ _ _ _ H1), (bind_Ok _ _ _ _ _ H2).
  destruct (loadEvents h) as [|k] eqn:Ek.
  - (* the load event never comes *)
    exists s3. cbn [dispatchLoads].
    rewrite (bind_Ok _ _ _ _ _ (bind_Ok _ _ _ _ _ H3)).
    cbv [promiseState deferred_promise bind gets ret pthen]. rewrite Hd3.
    split; [reflexivity | discriminate].
  - cbn [dispatchLoads].
    assert (Hev : (navigate c ;; dispatchLoad h c ;; dispatchLoads h k c) s2 = (Ok tt, s4)).
    { rewrite (bind_Ok _ _ _ _ _ H3), (bind_Ok _ _ _ _ _ H4).
      apply (dispatchLoads_idle h k c s4 nd4 Hc4 Hl4). }
    rewrite (bind_Ok _ _ _ _ _ Hev).
    assert (Hcc : contentContainerOf s4 draft c = bodyOf s4 doc4).
    { unfold contentContainerOf, contentDocumentOf. rewrite Hc4. cbn. rewrite Hdoc4. reflexivity. }
    cbv [promiseState deferred_promise]. unfold bind at 1. unfold gets at 1.
    rewrite Hd4. cbn [default]. unfold id.
    destruct (draftFault h (markup data)) as [e|] eqn:Ef.
    + exists s4. split; [reflexivity | discriminate].
    + destruct (bodyOf s4 doc4) as [b|] eqn:Eb.
      * destruct (bodyOf_Some _ _ _ Eb) as [ndb Hb].
        destruct (onContent_run data b s4 ndb Hb)
          as (s' & t & Hrun & Ht & Htr & Hcls & Hmono & Hbg & Hsk & _ & _).
        assert (Hcc' : contentContainerOf s' draft c = Some b).
        { rewrite (contentContainerOf_eq s4 s') by exact Hsk. exact Hcc. }
        exists s'. rewrite Hcc'. split.
        -- cbv [pthen settle]. rewrite Hrun. reflexivity.
        -- intros _. exists b, t.
           exists ([AddLoadListener c (OnLoad (markup data) (length (deferreds s1)));
                    SetAttribute c "src" "about:blank"]
                   ++ draftEvents h c (length (nodes s1)) (markup data)
                        (length (deferreds s1))).
           splits; auto.
           ++ rewrite Htr, Htr4, Htr2, Htr1. cbn. rewrite <- !app_assoc. reflexivity.
           ++ cbn [app]. constructor; [reflexivity|]. constructor; [reflexivity|].
              apply draftEvents_delegation.
      * exists s4. rewrite Hcc. split; [reflexivity | discriminate].
Qed.

(** The markup reaction on a pristine container, for either strategy. *)
Lemma onMarkup_run h how c data s :
  pristine s c ->
  exists s',
    onMarkup h how c data s
    = (Ok (delegationResult h how (markup data) (contentContainerOf s' how c)), s') /\
    (delegationResult h how (markup data) (contentContainerOf s' how c) = Fulfilled tt ->
     decorated (trace s) s' how c data).
Proof.
  intros Hp. destruct how.
  - apply (onMarkup_draft h c data s Hp).
  - destruct (onMarkup_base h c data s Hp) as (s' & Hrun & Hdec).
    exists s'. split; [exact Hrun | intros _; exact Hdec].
Qed.

(** ** The pipeline *)

(** Whatever the collaborators answer, the markup stage settles; it only
    touches the trace. *)
Lemma markupPromise_stage h rid s r :
  renderers s !! rid = Some r ->
  exists p d,
    markupPromise h rid s = (Ok p, with_trace (fun t => t ++ d) s) /\
    markupStage h (_attachment r) p d.
Proof.
  intros Hr. destruct (thumbnailable (_attachment r)) eqn:Et.
  - destruct (getSizeAndType h (Attachment.blob (_attachment r))) as [data|e|] eqn:Ep.
    + destruct (sizeNoMoreThan h (thumbnailScale h data)) as [e|fragment] eqn:Ef.
      * eexists _, _. split; [apply (markupPromise_hint_failed h rid s r Hr data e Et Ep Ef)|].
        apply (stage_hint_failed h _ data e Et Ep Ef).
      * destruct (previewMarkup h (_attachment r)) as [x|m] eqn:Em.
        -- eexists _, _. split.
           ++ apply (markupPromise_preview_failed h rid s r Hr data fragment x Et Ep Ef Em).
           ++ apply (stage_preview_failed h _ data fragment x Et Ep Ef Em).
        -- eexists _, _. split.
           ++ apply (markupPromise_preview h rid s r Hr data fragment m Et Ep Ef Em).
           ++ apply (stage_preview h _ data fragment m Et Ep Ef Em).
    + eexists _, _. split; [apply (markupPromise_rejected h rid s r Hr e Et Ep)|].
      apply (stage_rejected h _ e Et Ep).
    + eexists _, _. split; [apply (markupPromise_pending h rid s r Hr Et Ep)|].
      apply (stage_pending h _ Et Ep).
  - eexists _, _. split; [apply (markupPromise_skip h rid s r Hr Et)|].
    apply (stage_skip h _ Et).
Qed.

Lemma pristine_trace f s c : pristine s c -> pristine (with_trace f s) c.
Proof. intros H. exact H. Qed.

(** [render] is the container, the markup stage, then the markup reaction
    on what the stage settled with. *)
Lemma render_run h rid s r :
  renderers s !! rid = Some r ->
  exists c s1 d0 p d1,
    getAttachmentContainer rid s = (Ok c, s1) /\
    trace s1 = trace s ++ d0 /\ Forall (fun e => pageEvent e = true) d0 /\
    (unrendered s rid r -> pristine s1 c) /\
    markupStage h (_attachment r) p d1 /\
    render h rid s
    = pthen p (onMarkup h (_renderer r) c) (with_trace (fun t => t ++ d1) s1).
Proof.
  intros Hr.
  destruct (getAttachmentContainer_run rid s r Hr)
    as (c & s1 & r1 & d0 & Hrun & Hr1 & Ha & Hhow & _ & Hp & _ & Htr & Hd0).
  destruct (markupPromise_stage h rid s1 r1 Hr1) as (p & d1 & Hm & Hstage).
  exists c, s1, d0, p, d1. splits; auto.
  - rewrite <- Ha. exact Hstage.
  - unfold render.
    rewrite (bind_Ok _ _ _ _ _ Hrun), (bind_Ok _ _ _ _ _ (this_run _ _ _ Hr1)).
    rewrite (bind_Ok _ _ _ _ _ Hm), Hhow. reflexivity.
Qed.

(** The trace of [render]: page events, the events of the markup stage,
    page events. *)
Lemma render_trace h rid s r :
  renderers s !! rid = Some r ->
  exists d0 p d1 d2,
    markupStage h (_attachment r) p d1 /\
    trace (render h rid s).2 = trace s ++ d0 ++ d1 ++ d2 /\
    Forall (fun e => pageEvent e = true) d0 /\
    Forall (fun e => pageEvent e = true) d2.
Proof.
  intros Hr.
  destruct (render_run h rid s r Hr) as (c & s1 & d0 & p & d1 & _ & Htr & Hd0 & _ & Hst & Hrun).
  destruct (emits_pthen _ p (onMarkup h (_renderer r) c)
              (fun data => pageOnly_onMarkup h (_renderer r) c data)
              (with_trace (fun t => t ++ d1) s1)) as (d2 & Htr2 & Hd2).
  exists d0, p, d1, d2. splits; auto.
  rewrite Hrun, Htr2. cbn [trace with_trace]. unfold with_trace. cbn [trace].
  rewrite Htr, <- !app_assoc. reflexivity.
Qed.

(** The result of [render] on an unrendered renderer. *)
Lemma render_result h rid s r :
  unrendered s rid r ->
  exists c s1 d0 p d1 s',
    getAttachmentContainer rid s = (Ok c, s1) /\
    trace s1 = trace s ++ d0 /\ Forall (fun e => pageEvent e = true) d0 /\
    markupStage h (_attachment r) p d1 /\
    render h rid s
    = (Ok (renderResult h (_renderer r) p (contentContainerOf s' (_renderer r) c)), s') /\
    (forall data, p = Fulfilled data ->
       delegationResult h (_renderer r) (markup data)
         (contentContainerOf s' (_renderer r) c) = Fulfilled tt ->
       decorated (trace s ++ d0 ++ d1) s' (_renderer r) c data).
Proof.
  intros Hu. pose proof Hu as [Hr _].
  destruct (render_run h rid s r Hr)
    as (c & s1 & d0 & p & d1 & Hc & Htr & Hd0 & Hp & Hst & Hrun).
  specialize (Hp Hu).
  destruct p as [data|e|].
  - destruct (onMarkup_run h (_renderer r) c data (with_trace (fun t => t ++ d1) s1)
                (pristine_trace _ _ _ Hp)) as (s' & Hm & Hdec).
    exists c, s1, d0, (Fulfilled data), d1, s'. splits; auto.
    + rewrite Hrun. cbv [pthen settle]. rewrite Hm. reflexivity.
    + intros data' [= <-] Hok. specialize (Hdec Hok).
      unfold with_trace in Hdec. cbn [trace] in Hdec.
      rewrite Htr, <- app_assoc in Hdec. exact Hdec.
  - exists c, s1, d0, (Rejected e), d1, (with_trace (fun t => t ++ d1) s1).
    splits; auto. discriminate.
  - exists c, s1, d0, Pending, d1, (with_trace (fun t => t ++ d1) s1).
    splits; auto. discriminate.
Qed.

(** ** Eligibility for a thumbnail *)

Lemma thumbnailable_spec (a : Attachment.t) :
  thumbnailable a = true <->
  Attachment.type a = "img" /\
  exists size, Attachment.size a = Some size /\ (size < 1572864)%Q.
Proof.
  unfold thumbnailable. rewrite andb_true_iff, String.eqb_eq. split.
  - intros [Ht Hs]. split; [exact Ht|]. destruct (Attachment.size a) as [size|]; [|discriminate].
    exists size. split; [reflexivity|]. apply ltb_spec in Hs.
    rewrite MAX_THUMBNAIL_GENERATION_SIZE_bytes in Hs. exact Hs.
  - intros [Ht (size & -> & Hs)]. split; [exact Ht|]. apply ltb_spec.
    rewrite MAX_THUMBNAIL_GENERATION_SIZE_bytes. exact Hs.
Qed.

Lemma ofN_lt (n m : N) : (JS.ofN n < JS.ofN m)%Q <-> (n < m)%N.
Proof. unfold JS.ofN, Qlt, inject_Z. simpl. lia. Qed.

Lemma probed_app (t1 t2 : list event) : probed (t1 ++ t2) = probed t1 || probed t2.
Proof. apply existsb_app. Qed.

Lemma probed_page (t : list event) :
  Forall (fun e => pageEvent e = true) t -> probed t = false.
Proof.
  induction 1 as [|e t He _ IH]; [reflexivity|].
  unfold probed in *. cbn [existsb]. rewrite IH.
  destruct e; try reflexivity; discriminate.
Qed.

Lemma markupStage_probed h a p d : markupStage h a p d -> probed d = thumbnailable a.
Proof. intros H. inversion H; subst; cbn; congruence. Qed.

Lemma markupStage_markupEvent h a p d : markupStage h a p d -> Forall (markupEvent a) d.
Proof.
  intros H. inversion H; subst;
    repeat (constructor; [unfold markupEvent; eauto 10|]); constructor.
Qed.

(** A page event is none of the requests for the attachment templates. *)
Lemma page_not_markup a e error :
  pageEvent e = true -> e <> fallbackEvent a error /\ e <> previewEvent a.
Proof. intros H; split; intros ->; discriminate. Qed.

(** C1 (amended): render() attempts the thumbnail derivation if and only if
    the type of the attachment is 'img' and the attachment's own [size] is a
    number strictly below 1.5 MiB = 1572864 bytes (which is the byte size of
    the blob whenever the attachment reports it as its size); otherwise the
    probe is never called and the first markup requested is the fallback
    one, without error. *)
Theorem render_thumbnail_attempt h rid s r :
  renderers s !! rid = Some r ->
  let a := _attachment r in
  (thumbnailable a = true <->
     Attachment.type a = "img" /\
     exists size, Attachment.size a = Some size /\ (size < 1572864)%Q) /\
  (Attachment.size a = Some (JS.ofN (blob_size (Attachment.blob a))) ->
     (thumbnailable a = true <->
        Attachment.type a = "img" /\ (blob_size (Attachment.blob a) < 1572864)%N)) /\
  exists d,
    trace (render h rid s).2 = trace s ++ d /\
    probed d = thumbnailable a /\
    (thumbnailable a = false ->
       Forall (fun e => pageEvent e = true \/ e = fallbackEvent a JS.VUndefined) d /\
       fallbackEvent a JS.VUndefined ∈ d).
Proof.
  intros Hr. cbv zeta. split; [apply thumbnailable_spec|]. split.
  - intros Hs. rewrite thumbnailable_spec, Hs. split.
    + intros [Ht (size & [= <-] & Hlt)]. split; [exact Ht|].
      apply (ofN_lt _ 1572864), Hlt.
    + intros [Ht Hlt]. split; [exact Ht|]. eexists. split; [reflexivity|].
      apply (ofN_lt _ 1572864), Hlt.
  - destruct (render_trace h rid s r Hr) as (d0 & p & d1 & d2 & Hst & Htr & Hd0 & Hd2).
    exists (d0 ++ d1 ++ d2). split; [exact Htr|]. split.
    + rewrite !probed_app, (probed_page d0 Hd0), (probed_page d2 Hd2).
      rewrite (markupStage_probed _ _ _ _ Hst). cbn. apply orb_false_r.
    + intros Hn. inversion Hst; subst; try congruence. split.
      * rewrite !Forall_app. split; [|split].
        -- eapply Forall_impl; [exact Hd0|]. intros e He. left. exact He.
        -- constructor; [right; reflexivity | constructor].
        -- eapply Forall_impl; [exact Hd2|]. intros e He. left. exact He.
      * apply elem_of_app. right. apply elem_of_app. left. constructor.
Qed.

Lemma render_thumbnail_attempt_witness :
  renderers (constructed sampleImage) !! 0 = Some (constructedRenderer sampleImage) /\
  exists d,
    trace (render sampleHost 0 (constructed sampleImage)).2
    = trace (constructed sampleImage) ++ d /\
    probed d = true.
Proof.
  split; [reflexivity|].
  destruct (render_thumbnail_attempt sampleHost 0 (constructed sampleImage)
              (constructedRenderer sampleImage) eq_refl) as (_ & _ & d & Htr & Hp & _).
  exists d. split; [exact Htr | exact Hp].
Defined.

(** C1 as stated fails: an image whose blob is small but which carries no
    [size] of its own is not probed. *)
Lemma render_blob_size_counterexample :
  Attachment.type sampleUnsized = "img" /\
  (blob_size (Attachment.blob sampleUnsized) < 1572864)%N /\
  probed (trace (render sampleHost 0 (constructed sampleUnsized)).2) = false.
Proof. vm_compute. auto. Qed.

(** ** Which size is read where *)


(** The requests for templates in a trace of [render]: the draft template,
    or an attachment template with the fields of the attachment. *)
Lemma render_templates h (r : renderer) d0 p d1 d2 templateId fields safe :
  markupStage h (_attachment r) p d1 ->
  Forall (fun e => pageEvent e = true) d0 ->
  Forall (fun e => pageEvent e = true) d2 ->
  Interpolate templateId fields safe ∈ d0 ++ d1 ++ d2 ->
  templateId = "attachment-draft-tmpl" \/
  Interpolate templateId fields safe ∈ d1.
Proof.
  intros Hst Hd0 Hd2 Hin.
  rewrite !elem_of_app in Hin. destruct Hin as [Hin | [Hin | Hin]].
  - left. rewrite Forall_forall in Hd0. apply Hd0 in Hin. apply String.eqb_eq, Hin.
  - right. exact Hin.
  - left. rewrite Forall_forall in Hd2. apply Hd2 in Hin. apply String.eqb_eq, Hin.
Qed.



(** ** The corrupted marker *)

Lemma errorClass_corrupted (a : Attachment.t) (error : JS.value) :
  ("errorClass", "corrupted") ∈ baseMarkupFields a (JS.VBool (JS.ToBoolean error))
  <-> JS.ToBoolean error = true.
Proof.
  unfold baseMarkupFields. cbn [JS.ToBoolean]. rewrite !elem_of_cons, elem_of_nil.
  destruct (JS.ToBoolean error); split; intros H; try reflexivity.
  - right. left. reflexivity.
  - destruct H as [H | [H | [H | [H | [H | []]]]]]; discriminate H.
  - discriminate.
Qed.

Lemma errorClass_none (a : Attachment.t) (error : JS.value) :
  ("errorClass", "") ∈ baseMarkupFields a (JS.VBool (JS.ToBoolean error))
  <-> JS.ToBoolean error = false.
Proof.
  unfold baseMarkupFields. cbn [JS.ToBoolean]. rewrite !elem_of_cons, elem_of_nil.
  destruct (JS.ToBoolean error); split; intros H; try reflexivity.
  - destruct H as [H | [H | [H | [H | [H | []]]]]]; discriminate H.
  - discriminate.
  - right. left. reflexivity.
Qed.

(** C3: in the fallback branch the markup carries the error class
    "corrupted" exactly when the failure is a truthy value ([!!error]): a
    rejection of the probe with an error object or a message yields it, the
    plain skip of an ineligible attachment (rejection with undefined) does
    not. *)
Theorem corrupted_marker h rid s r :
  renderers s !! rid = Some r ->
  let a := _attachment r in
  (forall name, JS.ToBoolean (JS.VObj name) = true) /\
  JS.ToBoolean JS.VUndefined = false /\
  exists d,
    trace (render h rid s).2 = trace s ++ d /\
    (thumbnailable a = false ->
       fallbackEvent a JS.VUndefined ∈ d /\
       forall fields safe,
         Interpolate "attachment-nopreview-tmpl" fields safe ∈ d ->
         ("errorClass", "") ∈ fields /\ ("errorClass", "corrupted") ∉ fields) /\
    (forall e,
       thumbnailable a = true ->
       getSizeAndType h (Attachment.blob a) = Rejected e ->
       fallbackEvent a e ∈ d /\
       forall fields safe,
         Interpolate "attachment-nopreview-tmpl" fields safe ∈ d ->
         (("errorClass", "corrupted") ∈ fields <-> JS.ToBoolean e = true) /\
         (("errorClass", "") ∈ fields <-> JS.ToBoolean e = false)).
Proof.
  intros Hr. cbv zeta. splits; try reflexivity.
  destruct (render_trace h rid s r Hr) as (d0 & p & d1 & d2 & Hst & Htr & Hd0 & Hd2).
  exists (d0 ++ d1 ++ d2). splits; [exact Htr | |].
  - intros Hn. inversion Hst; subst; try congruence. split.
    + apply elem_of_app. right. apply elem_of_app. left. constructor.
    + intros fields safe Hin.
      destruct (render_templates h r d0 _ _ d2 _ _ _ Hst Hd0 Hd2 Hin) as [?|Hin1];
        [discriminate|].
      apply list_elem_of_singleton in Hin1. injection Hin1 as -> ->. split.
      * apply (errorClass_none _ JS.VUndefined). reflexivity.
      * rewrite (errorClass_corrupted _ JS.VUndefined). discriminate.
  - intros e Ht Hp. inversion Hst; subst; try congruence.
    assert (e0 = e) as -> by congruence. split.
    + apply elem_of_app. right. apply elem_of_app. left.
      apply list_elem_of_further, list_elem_of_here.
    + intros fields safe Hin.
      destruct (render_templates h r d0 _ _ d2 _ _ _ Hst Hd0 Hd2 Hin) as [?|Hin1];
        [discriminate|].
      rewrite !elem_of_cons, elem_of_nil in Hin1.
      destruct Hin1 as [Hin1 | [Hin1 | []]]; [discriminate|].
      injection Hin1 as -> ->. split; [apply errorClass_corrupted | apply errorClass_none].
Qed.

Lemma corrupted_marker_witness :
  renderers (constructed sampleImage) !! 0 = Some (constructedRenderer sampleImage) /\
  exists d,
    trace (render (sampleHostWith (Rejected (JS.VStr "corrupt PNG image")) None false) 0
             (constructed sampleImage)).2
    = trace (constructed sampleImage) ++ d /\
    fallbackEvent sampleImage (JS.VStr "corrupt PNG image") ∈ d.
Proof.
  split; [reflexivity|].
  destruct (corrupted_marker (sampleHostWith (Rejected (JS.VStr "corrupt PNG image")) None false)
              0 (constructed sampleImage) (constructedRenderer sampleImage) eq_refl)
    as (_ & _ & d & Htr & _ & Hrej).
  exists d. split; [exact Htr|].
  apply (Hrej (JS.VStr "corrupt PNG image") eq_refl eq_refl).
Defined.

(** ** Failures *)

Lemma renderResult_markupResult h how cls u m content :
  renderResult h how (markupResult cls u m) content
  = match m with
    | inl x => Rejected x
    | inr markup => delegationResult h how markup content
    end.
Proof. destruct m; reflexivity. Qed.

Lemma draftFault_spec h m :
  (forall e,
     interpolate h "attachment-draft-tmpl" (draftFields h m) ["baseHTML"] = inl e ->
     draftFault h m = Some e) /\
  (forall html e,
     interpolate h "attachment-draft-tmpl" (draftFields h m) ["baseHTML"] = inr html ->
     translateFragment h html = Some e ->
     draftFault h m = Some e) /\
  (forall html,
     interpolate h "attachment-draft-tmpl" (draftFields h m) ["baseHTML"] = inr html ->
     translateFragment h html = None ->
     draftFault h m = clickListenerFault h).
Proof.
  unfold draftFault. splits.
  - intros e ->. reflexivity.
  - intros html e -> ->. reflexivity.
  - intros html -> ->. reflexivity.
Qed.

(** C2 (amended): a failure of the thumbnail derivation (the probe
    rejecting, the downsample hint throwing) is recovered into the fallback
    branch, and so is an exception thrown while building the preview markup;
    whether render() then fulfils only depends on the fallback markup and on
    the delegation.  An exception thrown while building the fallback markup,
    while the draft strategy injects, localises or wires the markup, or while
    decorating a missing content node is not recovered: render() rejects with
    it. *)
Theorem render_failures h rid s r :
  unrendered s rid r ->
  let a := _attachment r in
  let how := _renderer r in
  let blob := Attachment.blob a in
  exists c res s',
    render h rid s = (Ok res, s') /\
    let content := contentContainerOf s' how c in
    let afterFallback error :=
      match fallbackMarkup h a error with
      | inl x => Rejected x
      | inr m => delegationResult h how m content
      end in
    (thumbnailable a = false -> res = afterFallback JS.VUndefined) /\
    (forall e,
       thumbnailable a = true -> getSizeAndType h blob = Rejected e ->
       res = afterFallback e) /\
    (forall data e,
       thumbnailable a = true -> getSizeAndType h blob = Fulfilled data ->
       sizeNoMoreThan h (thumbnailScale h data) = inl e ->
       res = afterFallback e) /\
    (forall data fragment x,
       thumbnailable a = true -> getSizeAndType h blob = Fulfilled data ->
       sizeNoMoreThan h (thumbnailScale h data) = inr fragment ->
       previewMarkup h a = inl x ->
       res = afterFallback x) /\
    (forall data fragment m,
       thumbnailable a = true -> getSizeAndType h blob = Fulfilled data ->
       sizeNoMoreThan h (thumbnailScale h data) = inr fragment ->
       previewMarkup h a = inr m ->
       res = delegationResult h how m content) /\
    (forall m, delegationResult h base m content = Fulfilled tt) /\
    (forall m x,
       loadEvents h <> 0 -> draftFault h m = Some x ->
       delegationResult h draft m content = Rejected x) /\
    (forall m,
       loadEvents h <> 0 -> draftFault h m = None -> content = None ->
       delegationResult h draft m content = Rejected JS.TypeError) /\
    (forall m,
       loadEvents h <> 0 -> draftFault h m = None -> content <> None ->
       delegationResult h draft m content = Fulfilled tt) /\
    (forall m e,
       interpolate h "attachment-draft-tmpl" (draftFields h m) ["baseHTML"] = inl e ->
       draftFault h m = Some e) /\
    (forall m html e,
       interpolate h "attachment-draft-tmpl" (draftFields h m) ["baseHTML"] = inr html ->
       translateFragment h html = Some e ->
       draftFault h m = Some e) /\
    (forall m html,
       interpolate h "attachment-draft-tmpl" (draftFields h m) ["baseHTML"] = inr html ->
       translateFragment h html = None ->
       draftFault h m = clickListenerFault h).
Proof.
  intros Hu. cbv zeta.
  destruct (render_result h rid s r Hu)
    as (c & s1 & d0 & p & d1 & s' & _ & _ & _ & Hst & Hrun & _).
  exists c, (renderResult h (_renderer r) p (contentContainerOf s' (_renderer r) c)), s'.
  split; [exact Hrun|]. splits.
  - intros Hn. inversion Hst; subst; try congruence. apply renderResult_markupResult.
  - intros e Ht Hp. inversion Hst; subst; try congruence.
    assert (e0 = e) as -> by congruence. apply renderResult_markupResult.
  - intros data e Ht Hp Hf. inversion Hst; subst; try congruence.
    assert (data0 = data) as -> by congruence.
    assert (e0 = e) as -> by congruence. apply renderResult_markupResult.
  - intros data fragment x Ht Hp Hf Hm. inversion Hst; subst; try congruence.
    assert (x0 = x) as -> by congruence. apply renderResult_markupResult.
  - intros data fragment m Ht Hp Hf Hm. inversion Hst; subst; try congruence.
    assert (m0 = m) as -> by congruence. reflexivity.
  - reflexivity.
  - intros m x Hl Hf. cbn. unfold draftResult. rewrite Hf.
    destruct (loadEvents h); [contradiction | reflexivity].
  - intros m Hl Hf Hc. cbn. unfold draftResult. rewrite Hf, Hc.
    destruct (loadEvents h); [contradiction | reflexivity].
  - intros m Hl Hf Hc. cbn. unfold draftResult. rewrite Hf.
    destruct (loadEvents h); [contradiction|].
    destruct (contentContainerOf s' (_renderer r) c); [reflexivity | contradiction].
  - apply draftFault_spec.
  - apply draftFault_spec.
  - apply draftFault_spec.
Qed.

Lemma render_failures_witness :
  unrendered (constructed sampleImage) 0 (constructedRenderer sampleImage) /\
  exists res s',
    render (sampleHostWith (Rejected (JS.VStr "corrupt PNG image")) None false) 0
      (constructed sampleImage) = (Ok res, s') /\
    res = Fulfilled tt.
Proof.
  assert (Hu : unrendered (constructed sampleImage) 0 (constructedRenderer sampleImage))
    by (split; [reflexivity | exact I]).
  split; [exact Hu|].
  destruct (render_failures (sampleHostWith (Rejected (JS.VStr "corrupt PNG image")) None false)
              0 (constructed sampleImage) (constructedRenderer sampleImage) Hu)
    as (c & res & s' & Hrun & _ & Hrej & _).
  exists res, s'. split; [exact Hrun|].
  apply (Hrej (JS.VStr "corrupt PNG image") eq_refl eq_refl).
Defined.

(** C2 as stated fails: an exception thrown while the preview markup is
    built does not reject render(); it is caught like a failed thumbnail. *)
Lemma render_preview_fault_counterexample :
  let h := sampleHostWith (Fulfilled sampleInfo) (Some (JS.VObj "Error")) false in
  thumbnailable sampleImage = true /\
  previewMarkup h sampleImage = inl (JS.VObj "Error") /\
  previewEvent sampleImage ∈ trace (render h 0 (constructed sampleImage)).2 /\
  (render h 0 (constructed sampleImage)).1 = Ok (Fulfilled tt).
Proof.
  cbv zeta. splits; try reflexivity.
  vm_compute. do 7 apply list_elem_of_further. apply list_elem_of_here.
Qed.

(** ** Decoration *)

(** The data a fulfilled markup stage hands over: the preview markup with
    the derived URL, or the fallback markup without URL. *)
Lemma markupStage_data h a data d :
  markupStage h a (Fulfilled data) d ->
  (cssClass data = "preview" /\
   exists info fragment,
     getSizeAndType h (Attachment.blob a) = Fulfilled info /\
     sizeNoMoreThan h (thumbnailScale h info) = inr fragment /\
     url data = Some (createObjectURL h (Attachment.blob a) +:+ fragment)) \/
  (cssClass data = "nopreview" /\ url data = None).
Proof.
  intros H. inversion H as [Hn Hp | e Ht He Hp | | info e Ht Hi Hf Hp
                            | info fragment m Ht Hi Hf Hm | info fragment x Ht Hi Hf Hm Hp];
    subst.
  - right. destruct (fallbackMarkup h a JS.VUndefined); [discriminate|].
    injection Hp as <-. split; reflexivity.
  - right. destruct (fallbackMarkup h a e); [discriminate|].
    injection Hp as <-. split; reflexivity.
  - right. destruct (fallbackMarkup h a e); [discriminate|].
    injection Hp as <-. split; reflexivity.
  - left. split; [reflexivity|]. exists info, fragment. splits; auto.
  - right. destruct (fallbackMarkup h a x); [discriminate|].
    injection Hp as <-. split; reflexivity.
Qed.

(** C7 (amended): in every successful run of render() on an unrendered
    renderer, the decoration class (preview or nopreview) is added to the
    container and, after the delegation, to the content hosting node; then
    the first node with class thumbnail below that node is looked up, and
    its background image is written if and only if there is one.  The value
    written is the derived thumbnail URL in the preview branch; in the
    fallback branch no URL was derived and the value reads "undefined". *)
Theorem render_decorates h rid s r s' :
  unrendered s rid r ->
  render h rid s = (Ok (Fulfilled tt), s') ->
  let a := _attachment r in
  exists c pre data,
    (getAttachmentContainer rid s).1 = Ok c /\
    ((cssClass data = "preview" /\
      exists info fragment,
        getSizeAndType h (Attachment.blob a) = Fulfilled info /\
        sizeNoMoreThan h (thumbnailScale h info) = inr fragment /\
        url data = Some (createObjectURL h (Attachment.blob a) +:+ fragment)) \/
     (cssClass data = "nopreview" /\ url data = None)) /\
    decorated (trace s ++ pre) s' (_renderer r) c data.
Proof.
  intros Hu Hrun. cbv zeta.
  destruct (render_result h rid s r Hu)
    as (c & s1 & d0 & p & d1 & s'' & Hc & _ & _ & Hst & Hrun' & Hdec).
  rewrite Hrun in Hrun'. injection Hrun' as Hres <-.
  destruct p as [data|e|]; try discriminate Hres.
  exists c, (d0 ++ d1), data. splits.
  - rewrite Hc. reflexivity.
  - apply (markupStage_data h _ data d1 Hst).
  - apply (Hdec data eq_refl). symmetry. exact Hres.
Qed.

Lemma render_decorates_witness :
  unrendered (constructed sampleDraft) 0 (constructedRenderer sampleDraft) /\
  exists s' c pre data,
    render sampleHost 0 (constructed sampleDraft) = (Ok (Fulfilled tt), s') /\
    decorated (trace (constructed sampleDraft) ++ pre) s' draft c data.
Proof.
  assert (Hu : unrendered (constructed sampleDraft) 0 (constructedRenderer sampleDraft))
    by (split; [reflexivity | exact I]).
  split; [exact Hu|].
  assert (Hres : (render sampleHost 0 (constructed sampleDraft)).1 = Ok (Fulfilled tt))
    by (vm_compute; reflexivity).
  destruct (render sampleHost 0 (constructed sampleDraft)) as [res s'] eqn:E.
  cbn [fst] in Hres. subst res.
  destruct (render_decorates sampleHost 0 (constructed sampleDraft)
              (constructedRenderer sampleDraft) s' Hu E) as (c & pre & data & _ & _ & Hdec).
  exists s', c, pre, data. split; [reflexivity | exact Hdec].
Defined.

(** C7 as stated fails where the fallback markup holds a thumbnail node:
    the node exists and its background image is written, but not to a
    derived URL, since none was derived. *)
Lemma render_fallback_thumbnail_counterexample :
  let h := sampleHostWith (Fulfilled sampleInfo) None true in
  let run := render h 0 (constructed sampleAudio) in
  run.1 = Ok (Fulfilled tt) /\
  probed (trace run.2) = false /\
  firstWithClass run.2 0 "thumbnail" = Some 2 /\
  backgroundImage <$> nodes run.2 !! 2 = Some (Some (backgroundImageOf None)).
Proof. vm_compute. auto. Qed.

(** ** The draft renderer, one load event at a time *)

Lemma occurrences_cons_eq e t : occurrences e (e :: t) = S (occurrences e t).
Proof. unfold occurrences. apply count_occ_cons_eq. reflexivity. Qed.

Lemma occurrences_cons_ne e e' t : e' <> e -> occurrences e (e' :: t) = occurrences e t.
Proof. intros H. unfold occurrences. apply count_occ_cons_neq. exact H. Qed.

Lemma draftEvents_remove_once h c root m d :
  occurrences (RemoveLoadListener c (OnLoad m d)) (draftEvents h c root m d) = 1.
Proof.
  unfold draftEvents. rewrite occurrences_cons_eq. f_equal.
  rewrite occurrences_cons_ne by discriminate.
  destruct (interpolate _ _ _ _); [reflexivity|].
  rewrite !occurrences_cons_ne by discriminate.
  destruct (translateFragment _ _); [reflexivity|].
  rewrite occurrences_cons_ne by discriminate. reflexivity.
Qed.

(** C4: the promise returned by the draft renderTo is pending when the
    call returns and stays so until the load event of the container; the
    load listener removes itself first, so it is gone after one event
    whether it succeeds or fails, and a second load event does nothing; the
    promise is rejected with what the injection of the markup, the
    localisation or the attachment of the click listener throws, and is
    fulfilled with the body of the container's document otherwise. *)
Theorem draft_renderTo_one_shot h m c s :
  pristine s c ->
  let d := length (deferreds s) in
  let root := length (nodes s) in
  exists s2 s3 s4 doc,
    draft_renderTo m c s = (Ok (OfDeferred d), s2) /\
    promiseState (OfDeferred d) s2 = (Ok Pending, s2) /\
    loadListenersOf s2 c = [OnLoad m d] /\
    navigate c s2 = (Ok tt, s3) /\
    promiseState (OfDeferred d) s3 = (Ok Pending, s3) /\
    dispatchLoad h c s3 = (Ok tt, s4) /\
    contentDocumentOf s4 c = Some doc /\
    promiseState (OfDeferred d) s4
    = (Ok (match draftFault h m with
           | Some e => Rejected e
           | None => Fulfilled (bodyOf s4 doc)
           end), s4) /\
    loadListenersOf s4 c = [] /\
    trace s4 = trace s3 ++ draftEvents h c root m d /\
    occurrences (RemoveLoadListener c (OnLoad m d)) (draftEvents h c root m d) = 1 /\
    dispatchLoad h c s4 = (Ok tt, s4) /\
    (forall e,
       interpolate h "attachment-draft-tmpl" (draftFields h m) ["baseHTML"] = inl e ->
       draftFault h m = Some e) /\
    (forall html e,
       interpolate h "attachment-draft-tmpl" (draftFields h m) ["baseHTML"] = inr html ->
       translateFragment h html = Some e ->
       draftFault h m = Some e) /\
    (forall html,
       interpolate h "attachment-draft-tmpl" (draftFields h m) ["baseHTML"] = inr html ->
       translateFragment h html = None ->
       draftFault h m = clickListenerFault h).
Proof.
  intros Hp. cbv zeta.
  destruct (draft_first_load h c m s Hp)
    as (s2 & s3 & s4 & nd2 & nd4 & doc4 & H2 & H3 & H4 & Hd2 & Hd3 & Hc2 & Hl2 & Htr2 & Htr3
        & Hc4 & Hl4 & Hdoc4 & Hroot4 & Hd4 & Hrs4 & Htr4 & Hmono4).
  exists s2, s3, s4, doc4. splits; try assumption.
  - cbv [promiseState deferred_promise gets]. rewrite Hd2. reflexivity.
  - unfold loadListenersOf. rewrite Hc2. exact Hl2.
  - cbv [promiseState deferred_promise gets]. rewrite Hd3. reflexivity.
  - unfold contentDocumentOf. rewrite Hc4. exact Hdoc4.
  - cbv [promiseState deferred_promise gets]. rewrite Hd4. reflexivity.
  - unfold loadListenersOf. rewrite Hc4. exact Hl4.
  - rewrite Htr3. exact Htr4.
  - apply draftEvents_remove_once.
  - apply (dispatchLoad_idle h c s4 nd4 Hc4 Hl4).
  - apply draftFault_spec.
  - apply draftFault_spec.
  - apply draftFault_spec.
Qed.

Lemma draft_renderTo_one_shot_witness :
  let s := (getAttachmentContainer 0 (constructed sampleDraft)).2 in
  pristine s 0 /\
  exists s2 s3 s4,
    draft_renderTo "attachment-preview-tmpl" 0 s = (Ok (OfDeferred 0), s2) /\
    navigate 0 s2 = (Ok tt, s3) /\
    dispatchLoad sampleHost 0 s3 = (Ok tt, s4) /\
    loadListenersOf s4 0 = [] /\
    dispatchLoad sampleHost 0 s4 = (Ok tt, s4).
Proof.
  cbv zeta.
  assert (Hp : pristine (getAttachmentContainer 0 (constructed sampleDraft)).2 0).
  { eexists. split; [vm_compute; reflexivity|]. splits; reflexivity. }
  split; [exact Hp|].
  destruct (draft_renderTo_one_shot sampleHost "attachment-preview-tmpl" 0 _ Hp)
    as (s2 & s3 & s4 & doc & H2 & _ & _ & H3 & _ & H4 & _ & _ & Hl4 & _ & _ & H5 & _).
  exists s2, s3, s4. splits; assumption.
Defined.

(** ** The container, once *)

Lemma getAttachmentContainer_times_cached k rid s r c :
  renderers s !! rid = Some r -> _attachmentContainer r = Some c ->
  getAttachmentContainer_times k rid s = (Ok (replicate k c), s).
Proof.
  intros Hr Hc. induction k as [|k IH]; [reflexivity|].
  cbn [getAttachmentContainer_times replicate].
  rewrite (bind_Ok _ _ _ _ _ (getAttachmentContainer_cached rid s r c Hr Hc)).
  rewrite (bind_Ok _ _ _ _ _ IH). reflexivity.
Qed.

Lemma containerEvents_once how c type :
  occurrences (CreateAttachmentContainer how) (containerEvents how c type) = 1 /\
  occurrences (ClassListAdd c "attachment-container") (containerEvents how c type) = 1 /\
  occurrences (DatasetSet c "attachmentType" type) (containerEvents how c type) = 1.
Proof.
  unfold containerEvents. destruct how; cbn [app]; splits;
    repeat first [ rewrite occurrences_cons_eq
                 | rewrite occurrences_cons_ne by discriminate ];
    reflexivity.
Qed.

(** C5: on a renderer without container, the first call of
    getAttachmentContainer() creates the container through the strategy and
    decorates it with the class attachment-container and the data attribute
    of the attachment's type; every later call returns the same node and
    changes nothing, so that any number of calls runs the creation routine
    and each decoration exactly once. *)
Theorem getAttachmentContainer_idempotent rid s r k :
  renderers s !! rid = Some r -> _attachmentContainer r = None ->
  let how := _renderer r in
  let type := Attachment.type (_attachment r) in
  exists c s1 nd,
    getAttachmentContainer rid s = (Ok c, s1) /\
    getAttachmentContainer rid s1 = (Ok c, s1) /\
    getAttachmentContainer_times (S k) rid s = (Ok (replicate (S k) c), s1) /\
    nodes s1 = nodes s ++ [nd] /\ c = length (nodes s) /\
    classList nd = ["attachment-container"] /\
    dataset nd = {[ "attachmentType" := type ]} /\
    trace s1 = trace s ++ containerEvents how c type /\
    occurrences (CreateAttachmentContainer how) (containerEvents how c type) = 1 /\
    occurrences (ClassListAdd c "attachment-container") (containerEvents how c type) = 1 /\
    occurrences (DatasetSet c "attachmentType" type) (containerEvents how c type) = 1.
Proof.
  intros Hr Hc. cbv zeta.
  destruct (getAttachmentContainer_fresh rid s r Hr Hc)
    as (s1 & nd & Hrun & Hns & _ & Hcls & Hdata & _ & _ & _ & _ & _ & Hrs & _ & Htr).
  assert (Hr1 : renderers s1 !! rid
                = Some (with_attachmentContainer (Some (length (nodes s))) r)).
  { rewrite Hrs. apply lookup_alter_Some, Hr. }
  exists (length (nodes s)), s1, nd. splits; auto.
  - apply (getAttachmentContainer_cached rid s1 _ _ Hr1 eq_refl).
  - cbn [getAttachmentContainer_times replicate].
    rewrite (bind_Ok _ _ _ _ _ Hrun).
    rewrite (bind_Ok _ _ _ _ _
               (getAttachmentContainer_times_cached k rid s1 _ _ Hr1 eq_refl)).
    reflexivity.
  - apply containerEvents_once.
  - apply containerEvents_once.
  - apply containerEvents_once.
Qed.

Lemma getAttachmentContainer_idempotent_witness :
  renderers (constructed sampleDraft) !! 0 = Some (constructedRenderer sampleDraft) /\
  _attachmentContainer (constructedRenderer sampleDraft) = None /\
  exists c s1,
    getAttachmentContainer_times 3 0 (constructed sampleDraft) = (Ok [c; c; c], s1) /\
    trace s1 = containerEvents draft c "img".
Proof.
  split; [reflexivity|]. split; [reflexivity|].
  destruct (getAttachmentContainer_idempotent 0 (constructed sampleDraft)
              (constructedRenderer sampleDraft) 2 eq_refl eq_refl)
    as (c & s1 & nd & _ & _ & Htimes & _ & _ & _ & _ & Htr & _).
  exists c, s1. split; [exact Htimes | exact Htr].
Defined.

(** ** The downsample hint *)

(** The unrounded quotient of the thumbnail size by the smaller side. *)
Lemma quotient_min h data :
  (THUMBNAIL_SIZE h / inject_Z (Z.pos (Pos.min (width data) (height data)))
   * inject_Z (Z.pos (Pos.min (width data) (height data)))
   == THUMBNAIL_SIZE h)%Q.
Proof. field. discriminate. Qed.

Lemma THUMBNAIL_SIZE_nonneg h : (0 < devicePixelRatio h)%Q -> (0 <= THUMBNAIL_SIZE h)%Q.
Proof.
  intros H. apply roundDouble_nonneg.
  apply Qmult_le_0_compat; [discriminate | apply Qlt_le_weak, H].
Qed.

Lemma getThumbnail_run h rid s r data :
  renderers s !! rid = Some r ->
  getSizeAndType h (Attachment.blob (_attachment r)) = Fulfilled data ->
  getThumbnail h rid s
  = (Ok (match sizeNoMoreThan h (thumbnailScale h data) with
         | inl e => Rejected e
         | inr fragment =>
             Fulfilled (createObjectURL h (Attachment.blob (_attachment r)) +:+ fragment)
         end),
     with_trace (fun t => t ++ GetSizeAndType (Attachment.blob (_attachment r)) ::
                               SizeNoMoreThan (thumbnailScale h data) ::
                               match sizeNoMoreThan h (thumbnailScale h data) with
                               | inl _ => []
                               | inr _ => [CreateObjectURL (Attachment.blob (_attachment r))]
                               end) s).
Proof.
  intros Hr Hp. run_markup. rewrite Hr, Hp. run_markup.
  destruct (sizeNoMoreThan h (thumbnailScale h data)); destruct s; state_eq.
Qed.

(** C8 (amended): for an image whose probe resolves, getThumbnail() asks
    for a downsample hint with scale factor equal to the thumbnail edge size
    (100 times the pixel density, a product of doubles) divided by the
    smaller of the natural width and height (a quotient of doubles), and
    resolves with the object URL of the blob followed by that hint.  The
    exact quotient maps the smaller dimension onto the thumbnail edge
    size, and the larger dimension to at least the edge size, to more when
    the picture is not square; the factor passed is the double nearest to
    that quotient, within 2^-53 of it relatively in the normal range, so it
    maps the smaller dimension onto the edge size up to that rounding. *)
Theorem getThumbnail_hint h rid s r data :
  renderers s !! rid = Some r ->
  getSizeAndType h (Attachment.blob (_attachment r)) = Fulfilled data ->
  (0 < devicePixelRatio h)%Q ->
  (100 * devicePixelRatio h < inject_Z (2 ^ 1023))%Q ->
  let blob := Attachment.blob (_attachment r) in
  let scale := thumbnailScale h data in
  let smaller := inject_Z (Z.pos (Pos.min (width data) (height data))) in
  let larger := inject_Z (Z.pos (Pos.max (width data) (height data))) in
  let quotient := (THUMBNAIL_SIZE h / smaller)%Q in
  getThumbnail h rid s
  = (Ok (match sizeNoMoreThan h scale with
         | inl e => Rejected e
         | inr fragment => Fulfilled (createObjectURL h blob +:+ fragment)
         end),
     with_trace (fun t => t ++ GetSizeAndType blob :: SizeNoMoreThan scale ::
                               match sizeNoMoreThan h scale with
                               | inl _ => []
                               | inr _ => [CreateObjectURL blob]
                               end) s) /\
  THUMBNAIL_SIZE h = JS.roundDouble (100 * devicePixelRatio h) /\
  scale = JS.roundDouble quotient /\
  (0 <= THUMBNAIL_SIZE h)%Q /\
  (quotient * smaller == THUMBNAIL_SIZE h)%Q /\
  (THUMBNAIL_SIZE h <= quotient * larger)%Q /\
  (0 < THUMBNAIL_SIZE h -> width data <> height data ->
   THUMBNAIL_SIZE h < quotient * larger)%Q /\
  (1 # 2 ^ 1022 <= quotient ->
   Qabs (scale - quotient) <= quotient * (1 # 2 ^ 53))%Q /\
  (1 # 2 ^ 1022 <= quotient ->
   Qabs (scale * smaller - THUMBNAIL_SIZE h) <= THUMBNAIL_SIZE h * (1 # 2 ^ 53))%Q.
Proof.
  intros Hr Hp Hdpr _. cbv zeta.
  pose proof (THUMBNAIL_SIZE_nonneg h Hdpr) as HT.
  pose proof (quotient_min h data) as Hmin.
  set (smaller := inject_Z (Z.pos (Pos.min (width data) (height data)))) in *.
  assert (Hs : (0 < smaller)%Q) by reflexivity.
  assert (Hq : (0 <= THUMBNAIL_SIZE h / smaller)%Q).
  { apply Qle_shift_div_l; [exact Hs|]. rewrite Qmult_0_l. exact HT. }
  splits.
  - apply (getThumbnail_run h rid s r data Hr Hp).
  - reflexivity.
  - reflexivity.
  - exact HT.
  - exact Hmin.
  - rewrite <- Hmin at 1.
    rewrite (Qmult_comm _ smaller), (Qmult_comm _ (inject_Z _)).
    apply Qmult_le_compat_r; [|exact Hq].
    unfold smaller. rewrite <- Zle_Qle. lia.
  - intros HT0 Hne. rewrite <- Hmin at 1. apply Qmult_lt_l.
    + apply Qlt_shift_div_l; [exact Hs|]. rewrite Qmult_0_l. exact HT0.
    + unfold smaller. rewrite <- Zlt_Qlt. lia.
  - intros Hn. apply roundDouble_near, Hn.
  - intros Hn. unfold thumbnailScale, JS.div. fold smaller.
    set (q := (THUMBNAIL_SIZE h / smaller)%Q) in *.
    assert (E : (JS.roundDouble q * smaller - THUMBNAIL_SIZE h
                 == (JS.roundDouble q - q) * smaller)%Q).
    { rewrite <- Hmin at 1. ring. }
    rewrite E, Qabs_Qmult, (Qabs_pos smaller) by (apply Qlt_le_weak, Hs).
    assert (E2 : (THUMBNAIL_SIZE h * (1 # 2 ^ 53) == q * (1 # 2 ^ 53) * smaller)%Q).
    { rewrite <- Hmin at 1. ring. }
    rewrite E2.
    apply Qmult_le_compat_r; [|apply Qlt_le_weak, Hs].
    apply roundDouble_near, Hn.
Qed.

Lemma getThumbnail_hint_witness :
  renderers (constructed sampleImage) !! 0 = Some (constructedRenderer sampleImage) /\
  getSizeAndType sampleHost (Attachment.blob sampleImage) = Fulfilled sampleInfo /\
  (0 < devicePixelRatio sampleHost)%Q /\
  (100 * devicePixelRatio sampleHost < inject_Z (2 ^ 1023))%Q /\
  (THUMBNAIL_SIZE sampleHost / 100 * 100 == THUMBNAIL_SIZE sampleHost)%Q /\
  (THUMBNAIL_SIZE sampleHost < THUMBNAIL_SIZE sampleHost / 100 * 200)%Q /\
  (Qabs (thumbnailScale sampleHost sampleInfo * 100 - THUMBNAIL_SIZE sampleHost)
   <= THUMBNAIL_SIZE sampleHost * (1 # 2 ^ 53))%Q.
Proof.
  destruct (getThumbnail_hint sampleHost 0 (constructed sampleImage)
              (constructedRenderer sampleImage) sampleInfo eq_refl eq_refl eq_refl eq_refl)
    as (_ & _ & _ & _ & Hmin & _ & Hlt & _ & Hnear).
  splits; [reflexivity | reflexivity | reflexivity | reflexivity | exact Hmin
          | apply Hlt; [reflexivity | discriminate] | apply Hnear; discriminate].
Defined.

(** C8 as stated fails: with the factor the code asks for, the larger
    dimension of a 200 by 100 picture maps to twice the thumbnail edge. *)
Lemma getThumbnail_larger_dimension_counterexample :
  (THUMBNAIL_SIZE sampleHost == 100)%Q /\
  (thumbnailScale sampleHost sampleInfo * 200 == 200)%Q /\
  ~ (thumbnailScale sampleHost sampleInfo
     * inject_Z (Z.pos (Pos.max (width sampleInfo) (height sampleInfo)))
     <= THUMBNAIL_SIZE sampleHost)%Q.
Proof.
  splits; [vm_compute; reflexivity | vm_compute; reflexivity
          | intros H; vm_compute in H; apply H; reflexivity].
Qed.

(** * Further properties of the renderer *)

(** ** The displayed name *)

Lemma fileName_noSeparator (name : string) : noSeparator (fileName name).
Proof.
  destruct (last_separator name) as [H | (pre & post & -> & H)].
  - rewrite fileName_whole; assumption.
  - rewrite fileName_after_last; assumption.
Qed.

(** X1: extracting the displayed name from a displayed name changes
    nothing: [fileName] is idempotent. *)
Theorem fileName_idempotent (name : string) :
  fileName (fileName name) = fileName name.
Proof. apply fileName_whole, fileName_noSeparator. Qed.


(** ** The size label at the change of unit *)

Lemma pretty_digit (x : N) :
  (x < 10)%N -> pretty x = String (pretty_N_char x) "".
Proof.
  intros H.
  assert (x = 0 \/ x = 1 \/ x = 2 \/ x = 3 \/ x = 4 \/ x = 5 \/ x = 6 \/ x = 7
          \/ x = 8 \/ x = 9)%N as C by lia.
  repeat destruct C as [-> | C]; try subst x; reflexivity.
Qed.

Lemma append_inj_tail (p q : string) (a b : ascii) (t u : string) :
  String.length t = String.length u ->
  p +:+ String a t = q +:+ String b u -> p = q /\ a = b /\ t = u.
Proof.
  intros Hlen. revert q. induction p as [|x p IH]; intros [|y q] E.
  - rewrite !append_nil_l in E. injection E as -> ->. auto.
  - rewrite append_nil_l, append_cons in E. injection E as -> E.
    apply (f_equal String.length) in E. rewrite length_append in E.
    cbn [String.length] in E. lia.
  - rewrite append_nil_l, append_cons in E. injection E as -> E.
    apply (f_equal String.length) in E. rewrite length_append in E.
    cbn [String.length] in E. lia.
  - rewrite !append_cons in E. injection E as -> E.
    destruct (IH q E) as (-> & -> & ->). auto.
Qed.

(** A label with one decimal determines its count of tenths. *)
Lemma oneDecimal_inj (d e : N) : oneDecimal d = oneDecimal e -> d = e.
Proof.
  unfold oneDecimal. intros E.
  rewrite (pretty_digit (d mod 10)), (pretty_digit (e mod 10)) in E
    by (apply N.mod_lt; discriminate).
  change ("." +:+ String ?c "") with (String "."%char (String c "")) in E.
  apply append_inj_tail in E as (E1 & _ & E2); [|reflexivity].
  apply (inj pretty) in E1. injection E2 as E2.
  apply pretty_N_char_inj in E2; try (apply N.mod_lt; discriminate).
  rewrite (N.div_mod d 10), (N.div_mod e 10) by discriminate. lia.
Qed.

Lemma kilobyte_label (size : N) :
  (size < 1024000)%N ->
  getSizeForL10n (JS.ofN size)
  = {| l10nId := "attachmentSize";
       l10nArgs_n := oneDecimal ((10 * size + 512) / 1024) |}.
Proof.
  intros H. unfold getSizeForL10n. apply sizeKB_lt in H as ->.
  rewrite (toFixed1_nonneg _ (Z.of_N size) 1024 (sizeKB_frac size)) by lia.
  do 2 f_equal. apply (half_up size 512).
Qed.

Lemma megabyte_label (size : N) :
  (1024000 <= size)%N ->
  getSizeForL10n (JS.ofN size)
  = {| l10nId := "attachmentSizeMB";
       l10nArgs_n := oneDecimal ((10 * size + 524288) / 1048576) |}.
Proof.
  intros H. unfold getSizeForL10n.
  destruct (JS.ltb (JS.ofN size / 1024) 1000) eqn:E.
  { apply sizeKB_lt in E. lia. }
  rewrite (toFixed1_nonneg _ (Z.of_N size) 1048576 (sizeMB_frac size)) by lia.
  do 2 f_equal. apply (half_up size 524288).
Qed.

(** X3: the unit changes at 1000 KB, but rounding comes after the choice
    of the unit: the sizes from 1023949 to 1023999 bytes, and no other,
    are labelled "1000.0" kilobytes; a kilobyte label never exceeds that,
    and a megabyte label is never below one megabyte. *)
Theorem getSizeForL10n_rollover (size : N) :
  (size < 2 ^ 64)%N ->
  let label := getSizeForL10n (JS.ofN size) in
  ((size < 1024000)%N ->
     l10nId label = "attachmentSize" /\
     (l10nArgs_n label = "1000.0" <-> (1023949 <= size)%N) /\
     exists d, l10nArgs_n label = oneDecimal d /\ (d <= 10000)%N) /\
  ((1024000 <= size)%N ->
     l10nId label = "attachmentSizeMB" /\
     exists d, l10nArgs_n label = oneDecimal d /\ (10 <= d)%N).
Proof.
  intros _. cbv zeta. split; intros H.
  - rewrite (kilobyte_label size H). cbn [l10nId l10nArgs_n].
    assert (Hd : ((10 * size + 512) / 1024 <= 10000)%N).
    { apply N.lt_succ_r, N.Div0.div_lt_upper_bound. lia. }
    split; [reflexivity|]. split; [|eauto].
    change "1000.0" with (oneDecimal 10000). split.
    + intros E. apply oneDecimal_inj in E.
      assert (10000 * 1024 <= 10 * size + 512)%N; [|lia].
      rewrite <- E at 1. rewrite N.mul_comm. apply N.Div0.mul_div_le.
    + intros Hs. f_equal. apply N.le_antisymm; [exact Hd|].
      apply N.div_le_lower_bound; lia.
  - rewrite (megabyte_label size H). cbn [l10nId l10nArgs_n].
    split; [reflexivity|]. eexists. split; [reflexivity|].
    apply N.div_le_lower_bound; lia.
Qed.

Lemma getSizeForL10n_rollover_witness :
  (1023999 < 2 ^ 64)%N /\ (1023999 < 1024000)%N /\
  l10nId (getSizeForL10n (JS.ofN 1023999)) = "attachmentSize" /\
  l10nArgs_n (getSizeForL10n (JS.ofN 1023999)) = "1000.0".
Proof.
  split; [reflexivity|]. split; [reflexivity|].
  destruct (getSizeForL10n_rollover 1023999 eq_refl) as (HKB & _).
  destruct (HKB eq_refl) as (Hid & Hlabel & _).
  split; [exact Hid|]. apply Hlabel. discriminate.
Defined.

(** ** Writes confined to a part of the store *)

Lemma nodeKept_refl nd : nodeKept nd nd.
Proof. split; auto. Qed.

Lemma nodeKept_trans nd1 nd2 nd3 : nodeKept nd1 nd2 -> nodeKept nd2 nd3 -> nodeKept nd1 nd3.
Proof. intros [E1 H1] [E2 H2]. split; [congruence | auto]. Qed.

Section Within.
Context (s0 : state) (b db : nat).


Lemma within_with_trace f s : within s0 b db s -> within s0 b db (with_trace f s).
Proof. intros [? ? ? ? ? ? ?]. constructor; assumption. Qed.

Lemma within_with_deferreds f s :
  within s0 b db s ->
  db <= length (f (deferreds s)) ->
  (forall d n, db <= d -> f (deferreds s) !! d = Some (Fulfilled (Some n)) -> b <= n) ->
  within s0 b db (with_deferreds f s).
Proof. intros [? ? ? ? ? ? ?] ? ?. constructor; assumption. Qed.

Lemma within_alter (f : node -> node) n s :
  within s0 b db s -> b <= n ->
  (forall nd, nodeKept nd (f nd)) ->
  (forall nd, refersAbove b nd -> refersAbove b (f nd)) ->
  within s0 b db (with_nodes (alter f n) s).
Proof.
  intros [Hlen Htake Hclosed Hkept Hr Hdl Hd] Hn Hf Hrefs.
  constructor; unfold with_nodes, closedAbove, resolvedAbove in *; cbn [nodes renderers deferreds]; try assumption.
  - rewrite length_alter. exact Hlen.
  - rewrite take_alter_ge by exact Hn. exact Htake.
  - intros m nd Hm E.
    destruct (decide (n = m)) as [<-|Hne].
    + rewrite list_lookup_alter_eq in E.
      destruct (nodes s !! n) as [nd0|] eqn:E0; [|discriminate].
      injection E as <-. apply Hrefs. exact (Hclosed n nd0 Hm E0).
    + rewrite list_lookup_alter_ne in E by exact Hne. exact (Hclosed m nd Hm E).
  - intros m nd E. destruct (Hkept m nd E) as (nd' & E' & K).
    destruct (decide (n = m)) as [<-|Hne].
    + exists (f nd'). rewrite list_lookup_alter_eq, E'. split; [reflexivity|].
      eapply nodeKept_trans; [exact K | apply Hf].
    + exists nd'. rewrite list_lookup_alter_ne by exact Hne. auto.
Qed.

Lemma within_append (extra : list node) s :
  within s0 b db s -> Forall (refersAbove b) extra ->
  within s0 b db (with_nodes (fun ns => ns ++ extra) s).
Proof.
  intros [Hlen Htake Hclosed Hkept Hr Hdl Hd] Hextra.
  constructor; unfold with_nodes, closedAbove, resolvedAbove in *; cbn [nodes renderers deferreds]; try assumption.
  - rewrite length_app. lia.
  - rewrite take_app_le by exact Hlen. exact Htake.
  - intros m nd Hm E. apply lookup_app_Some in E as [E | [_ E]].
    + exact (Hclosed m nd Hm E).
    + rewrite Forall_lookup in Hextra. exact (Hextra _ _ E).
  - intros m nd E. destruct (Hkept m nd E) as (nd' & E' & K).
    exists nd'. split; [|exact K]. apply lookup_app_l_Some, E'.
Qed.

(** *** Through the combinators *)

Lemma preserves_ret {A} (Q : A -> Prop) (a : A) : Q a -> preserves s0 b db Q (ret a).
Proof. intros H s Hs. split; assumption. Qed.

Lemma preserves_throw {A} (Q : A -> Prop) (e : JS.value) : preserves s0 b db Q (@throw A e).
Proof. intros s Hs. split; [assumption | exact I]. Qed.

Lemma preserves_gets {A} (Q : A -> Prop) (f : state -> A) :
  (forall s, within s0 b db s -> Q (f s)) -> preserves s0 b db Q (gets f).
Proof. intros H s Hs. split; [assumption | apply H, Hs]. Qed.

Lemma preserves_modify (Q : unit -> Prop) (f : state -> state) :
  (forall s, within s0 b db s -> within s0 b db (f s)) -> Q tt -> preserves s0 b db Q (modify f).
Proof. intros H HQ s Hs. split; [apply H, Hs | exact HQ]. Qed.

Lemma preserves_log (Q : unit -> Prop) (e : event) : Q tt -> preserves s0 b db Q (log e).
Proof. intros HQ. apply preserves_modify; [|exact HQ]. intros s. apply within_with_trace. Qed.

Lemma preserves_bind {A B} (Q : A -> Prop) (Q' : B -> Prop) (m : M A) (f : A -> M B) :
  preserves s0 b db Q m -> (forall a, Q a -> preserves s0 b db Q' (f a)) -> preserves s0 b db Q' (bind m f).
Proof.
  intros Hm Hf s Hs. unfold bind. specialize (Hm s Hs).
  destruct (m s) as [[a|e] s1]; cbn [fst snd] in *.
  - destruct Hm as [H1 HQ]. exact (Hf a HQ s1 H1).
  - split; [apply Hm | exact I].
Qed.

Lemma preserves_try_catch {A} (Q : A -> Prop) (m : M A) (handler : JS.value -> M A) :
  preserves s0 b db Q m -> (forall e, preserves s0 b db Q (handler e)) -> preserves s0 b db Q (try_catch m handler).
Proof.
  intros Hm Hh s Hs. unfold try_catch. specialize (Hm s Hs).
  destruct (m s) as [[a|e] s1]; cbn [fst snd] in *.
  - exact Hm.
  - exact (Hh e s1 (proj1 Hm)).
Qed.

Lemma preserves_settle {A} (Q : A -> Prop) (m : M (promise A)) :
  preserves s0 b db (fulfilment Q) m -> preserves s0 b db (fulfilment Q) (settle m).
Proof.
  intros Hm s Hs. unfold settle. specialize (Hm s Hs).
  destruct (m s) as [[a|e] s1]; cbn [fst snd] in *.
  - exact Hm.
  - split; [apply Hm | exact I].
Qed.

Lemma preserves_pthen {A B} (Q : A -> Prop) (Q' : B -> Prop)
    (p : promise A) (f : A -> M (promise B)) :
  fulfilment Q p -> (forall a, Q a -> preserves s0 b db (fulfilment Q') (f a)) ->
  preserves s0 b db (fulfilment Q') (pthen p f).
Proof.
  intros Hp Hf. destruct p as [a|e|]; cbn [pthen].
  - apply preserves_settle, Hf, Hp.
  - apply preserves_ret. exact I.
  - apply preserves_ret. exact I.
Qed.

Lemma preserves_pcatch {A} (Q : A -> Prop) (p : promise A) (g : JS.value -> M (promise A)) :
  fulfilment Q p -> (forall e, preserves s0 b db (fulfilment Q) (g e)) ->
  preserves s0 b db (fulfilment Q) (pcatch p g).
Proof.
  intros Hp Hg. destruct p as [a|e|]; cbn [pcatch].
  - apply preserves_ret, Hp.
  - apply preserves_settle, Hg.
  - apply preserves_ret. exact I.
Qed.

Lemma preserves_weaken {A} (Q Q' : A -> Prop) (m : M A) :
  (forall a, Q a -> Q' a) -> preserves s0 b db Q m -> preserves s0 b db Q' m.
Proof.
  intros H Hm s Hs. specialize (Hm s Hs). split; [apply Hm|].
  destruct ((m s).1); [apply H, Hm | exact I].
Qed.

(** *** Through the operations of the DOM *)

Ltac kept_node := intros ?; split; [reflexivity | exact (fun _ H => H)].
Ltac same_refs := exact (fun _ H => H).

Lemma refersAbove_blank tag classes below :
  Forall (fun m => b <= m) below -> refersAbove b (blankNode tag classes below).
Proof. intros H. split; [exact H | discriminate]. Qed.

Lemma preserves_createElement tag : preserves s0 b db (fun n => b <= n) (createElement tag).
Proof.
  intros s Hs. cbv [createElement bind gets modify log ret]. cbn [fst snd].
  split; [|apply Hs].
  apply within_with_trace, within_append; [exact Hs|].
  constructor; [|constructor]. apply refersAbove_blank. constructor.
Qed.

Lemma preserves_alter (f : node -> node) n e :
  b <= n ->
  (forall nd, nodeKept nd (f nd)) ->
  (forall nd, refersAbove b nd -> refersAbove b (f nd)) ->
  preserves s0 b db (fun _ => True) (modify (with_nodes (alter f n)) ;; log e).
Proof.
  intros Hn Hf Hrefs. eapply preserves_bind.
  - apply (preserves_modify (fun _ => True)); [|exact I].
    intros s Hs. apply within_alter; assumption.
  - intros _ _. apply preserves_log. exact I.
Qed.

Lemma preserves_setAttribute n k v : b <= n -> preserves s0 b db (fun _ => True) (setAttribute n k v).
Proof.
  intros Hn. apply preserves_alter; [exact Hn | kept_node | same_refs].
Qed.

Lemma preserves_classList_add n c :
  optAbove b n -> preserves s0 b db (fun _ => True) (classList_add n c).
Proof.
  intros Hn. destruct n as [n|]; [|apply preserves_throw].
  apply preserves_alter; [exact Hn | | same_refs].
  intros nd. split; [reflexivity|]. intros c'. apply add_token_mono.
Qed.

Lemma preserves_dataset_set n k v : b <= n -> preserves s0 b db (fun _ => True) (dataset_set n k v).
Proof.
  intros Hn. apply preserves_alter; [exact Hn | kept_node | same_refs].
Qed.

Lemma preserves_set_backgroundImage n v :
  b <= n -> preserves s0 b db (fun _ => True) (set_backgroundImage n v).
Proof.
  intros Hn. apply preserves_alter; [exact Hn | kept_node | same_refs].
Qed.

Lemma preserves_addLoadListener n l :
  b <= n -> preserves s0 b db (fun _ => True) (addLoadListener n l).
Proof.
  intros Hn. apply preserves_alter; [exact Hn | kept_node | same_refs].
Qed.

Lemma preserves_removeLoadListener n l :
  b <= n -> preserves s0 b db (fun _ => True) (removeLoadListener n l).
Proof.
  intros Hn. apply preserves_alter; [exact Hn | kept_node | same_refs].
Qed.

Lemma Forall_seq_above first len : b <= first -> Forall (fun m => b <= m) (seq first len).
Proof. intros H. apply Forall_forall. intros m Hm. apply elem_of_seq in Hm. lia. Qed.

Lemma parsedNodes_above first es :
  b <= first -> Forall (refersAbove b) (parsedNodes first es).
Proof.
  intros H. apply Forall_lookup. intros i nd E. unfold parsedNodes in E.
  rewrite list_lookup_imap in E. destruct (es !! i) as [e|]; [|discriminate].
  injection E as <-. apply refersAbove_blank, Forall_seq_above. lia.
Qed.

Lemma within_setInnerHTML n markup es s :
  within s0 b db s -> b <= n -> within s0 b db (setInnerHTML_state n markup es s).
Proof.
  intros Hs Hn.
  change (setInnerHTML_state n markup es s)
    with (with_nodes (fun ns => ns ++ parsedNodes (length (nodes s)) es)
            (with_nodes (alter (with_content markup (seq (length (nodes s)) (length es))) n) s)).
  apply within_append.
  - apply within_alter; [exact Hs | exact Hn | kept_node |].
    intros nd [_ Hdoc]. split; [|exact Hdoc].
    apply Forall_seq_above, Hs.
  - apply parsedNodes_above, Hs.
Qed.

Lemma preserves_set_innerHTML h n markup :
  b <= n -> preserves s0 b db (fun _ => True) (set_innerHTML h n markup).
Proof.
  intros Hn. eapply preserves_bind.
  - apply (preserves_modify (fun _ => True)); [|exact I].
    intros s Hs. apply within_setInnerHTML; assumption.
  - intros _ _. apply preserves_log. exact I.
Qed.

Lemma descendantsOf_above s n :
  within s0 b db s -> b <= n -> Forall (fun m => b <= m) (descendantsOf s n).
Proof.
  intros Hs Hn. unfold descendantsOf.
  destruct (nodes s !! n) as [nd|] eqn:E; [|constructor].
  exact (proj1 (within_closed _ _ _ _ Hs n nd Hn E)).
Qed.

Lemma find_above (f : nat -> bool) (l : list nat) :
  Forall (fun m => b <= m) l -> optAbove b (List.find f l).
Proof.
  intros H. destruct (List.find f l) as [m|] eqn:E; [|exact I].
  apply find_some in E as [E _]. rewrite Forall_forall in H. apply H, list_elem_of_In, E.
Qed.

Lemma preserves_querySelector n c :
  optAbove b n -> preserves s0 b db (optAbove b) (querySelector n c).
Proof.
  intros Hn. destruct n as [n|]; [|apply preserves_throw].
  cbn [querySelector optAbove] in *.
  eapply preserves_bind.
  - apply (preserves_gets (optAbove b)). intros s Hs.
    apply find_above, descendantsOf_above; assumption.
  - intros r Hr. eapply preserves_bind; [apply (preserves_log (fun _ => True)); exact I|].
    intros _ _. apply preserves_ret, Hr.
Qed.

Lemma preserves_get_contentDocument n :
  b <= n -> preserves s0 b db (docAbove b) (get_contentDocument n).
Proof.
  intros Hn. apply preserves_gets. intros s Hs.
  destruct (nodes s !! n) as [nd|] eqn:E; cbn; [|exact I].
  destruct (contentDocument nd) as [doc|] eqn:Ed; [|exact I].
  exact (proj2 (within_closed _ _ _ _ Hs n nd Hn E) doc Ed).
Qed.

Lemma preserves_Template_interpolate h templateId fields safe :
  preserves s0 b db (fun _ => True) (Template_interpolate h templateId fields safe).
Proof.
  eapply preserves_bind; [apply (preserves_log (fun _ => True)); exact I|].
  intros _ _. destruct (interpolate h templateId fields safe).
  - apply preserves_throw.
  - apply preserves_ret. exact I.
Qed.

Lemma preserves_translateFragment h n :
  preserves s0 b db (fun _ => True) (mozL10n_translateFragment h n).
Proof.
  eapply preserves_bind; [apply (preserves_log (fun _ => True)); exact I|].
  intros _ _. eapply preserves_bind.
  - apply (preserves_gets (fun _ => True)). auto.
  - intros markup _. destruct (translateFragment h markup).
    + apply preserves_throw.
    + apply preserves_ret. exact I.
Qed.

Lemma preserves_addClickListener h n :
  b <= n -> preserves s0 b db (fun _ => True) (addClickListener h n).
Proof.
  intros Hn. eapply preserves_bind; [apply (preserves_log (fun _ => True)); exact I|].
  intros _ _. destruct (clickListenerFault h); [apply preserves_throw|].
  apply (preserves_modify (fun _ => True)); [|exact I].
  intros s Hs. apply within_alter; [exact Hs | exact Hn | kept_node |].
  intros nd [Hd Hdoc]. split; [exact Hd|]. cbn [contentDocument with_contentDocument].
  intros doc E. destruct (contentDocument nd) as [doc0|]; [|discriminate].
  injection E as <-. cbn. apply Hdoc. reflexivity.
Qed.

(** *** Through the deferreds *)

Lemma preserves_defer : preserves s0 b db (fun d => db <= d) defer.
Proof.
  intros s Hs. cbv [defer bind gets modify ret]. cbn [fst snd].
  split; [|apply Hs].
  apply within_with_deferreds; [exact Hs | |].
  - rewrite length_app. pose proof (within_deferreds_length _ _ _ _ Hs). lia.
  - intros d n Hd E. apply lookup_app_Some in E as [E | [_ E]].
    + exact (within_resolved _ _ _ _ Hs d n Hd E).
    + destruct (d - length (deferreds s)) as [|k]; [discriminate|].
      destruct k; discriminate.
Qed.

Lemma preserves_settleDeferred d p :
  fulfilment (optAbove b) p -> preserves s0 b db (fun _ => True) (settleDeferred d p).
Proof.
  intros Hp. apply (preserves_modify (fun _ => True)); [|exact I].
  intros s Hs. apply within_with_deferreds; [exact Hs | |].
  - rewrite length_alter. apply Hs.
  - intros d' n Hd' E. destruct (decide (d = d')) as [<-|Hne].
    + rewrite list_lookup_alter_eq in E.
      destruct (deferreds s !! d) as [old|] eqn:E0; [|discriminate].
      cbn in E. destruct old as [v|e|].
      * injection E as ->. exact (within_resolved _ _ _ _ Hs d n Hd' E0).
      * discriminate.
      * injection E as ->. exact Hp.
    + rewrite list_lookup_alter_ne in E by exact Hne.
      exact (within_resolved _ _ _ _ Hs d' n Hd' E).
Qed.

Lemma preserves_deferred_promise d :
  db <= d -> preserves s0 b db (fulfilment (optAbove b)) (deferred_promise d).
Proof.
  intros Hd. apply preserves_gets. intros s Hs.
  destruct (deferreds s !! d) as [[[n|]|e|]|] eqn:E; cbn; try exact I.
  exact (within_resolved _ _ _ _ Hs d n Hd E).
Qed.

Lemma preserves_promiseState q :
  refAbove b db q -> preserves s0 b db (fulfilment (optAbove b)) (promiseState q).
Proof.
  intros Hq. destruct q as [p|d]; cbn [promiseState].
  - apply preserves_ret, Hq.
  - apply preserves_deferred_promise, Hq.
Qed.

(** *** Through the strategies and the page *)

Lemma bodyOf_above s doc :
  within s0 b db s -> b <= documentElement doc -> optAbove b (bodyOf s doc).
Proof. intros Hs Hd. apply find_above, descendantsOf_above; assumption. Qed.

Lemma preserves_onload h this l : b <= this -> preserves s0 b db (fun _ => True) (onload h this l).
Proof.
  intros Hn. destruct l as [baseMarkup deferred]. cbn [onload].
  apply preserves_try_catch.
  - eapply preserves_bind; [apply preserves_removeLoadListener, Hn|].
    intros _ _. eapply preserves_bind; [apply preserves_get_contentDocument, Hn|].
    intros [doc|] Hdoc; [|apply preserves_throw].
    eapply preserves_bind; [apply preserves_Template_interpolate|].
    intros html _. eapply preserves_bind; [apply preserves_set_innerHTML, Hdoc|].
    intros _ _. eapply preserves_bind; [apply preserves_translateFragment|].
    intros _ _. eapply preserves_bind; [apply preserves_addClickListener, Hn|].
    intros _ _. eapply preserves_bind.
    + apply (preserves_gets (optAbove b)). intros s Hs. apply bodyOf_above; assumption.
    + intros body Hbody. apply preserves_settleDeferred, Hbody.
  - intros e. apply preserves_settleDeferred. exact I.
Qed.

Lemma preserves_runLoadListeners h this ls :
  b <= this -> preserves s0 b db (fun _ => True) (runLoadListeners h this ls).
Proof.
  intros Hn. induction ls as [|l ls IH]; cbn [runLoadListeners].
  - apply preserves_ret. exact I.
  - eapply preserves_bind; [apply preserves_onload, Hn|]. intros _ _. exact IH.
Qed.

Lemma preserves_dispatchLoad h n : b <= n -> preserves s0 b db (fun _ => True) (dispatchLoad h n).
Proof.
  intros Hn. eapply preserves_bind; [apply (preserves_gets (fun _ => True)); auto|].
  intros ls _. apply preserves_runLoadListeners, Hn.
Qed.

Lemma preserves_dispatchLoads h k n :
  b <= n -> preserves s0 b db (fun _ => True) (dispatchLoads h k n).
Proof.
  intros Hn. induction k as [|k IH]; cbn [dispatchLoads].
  - apply preserves_ret. exact I.
  - eapply preserves_bind; [apply preserves_dispatchLoad, Hn|]. intros _ _. exact IH.
Qed.

Lemma within_blankDocument n s : within s0 b db s -> b <= n -> within s0 b db (blankDocument n s).
Proof.
  intros Hs Hn.
  change (blankDocument n s)
    with (with_nodes (fun ns => ns ++
            [blankNode "html" [] [length (nodes s) + 1; length (nodes s) + 2];
             blankNode "head" [] []; blankNode "body" [] []])
            (with_nodes (alter (with_contentDocument
               (Some {| documentElement := length (nodes s); clickListeners := [] |})) n) s)).
  pose proof (within_length _ _ _ _ Hs).
  apply within_append.
  - apply within_alter; [exact Hs | exact Hn | kept_node |].
    intros nd [Hd _]. split; [exact Hd|]. cbn. intros doc [= <-]. cbn. assumption.
  - repeat constructor; try discriminate; cbn; lia.
Qed.

Lemma preserves_navigate n : b <= n -> preserves s0 b db (fun _ => True) (navigate n).
Proof.
  intros Hn. eapply preserves_bind; [apply (preserves_gets (fun _ => True)); auto|].
  intros [nd|] _; [|apply preserves_ret; exact I].
  destruct (attributes nd !! "src"); [|apply preserves_ret; exact I].
  destruct (contentDocument nd); [apply preserves_ret; exact I|].
  apply (preserves_modify (fun _ => True)); [|exact I].
  intros ? ?. apply within_blankDocument; assumption.
Qed.

Lemma preserves_hostEvents h n : b <= n -> preserves s0 b db (fun _ => True) (hostEvents h n).
Proof.
  intros Hn. eapply preserves_bind; [apply preserves_navigate, Hn|].
  intros _ _. apply preserves_dispatchLoads, Hn.
Qed.

Lemma preserves_renderTo h how baseMarkup c :
  b <= c -> preserves s0 b db (refAbove b db) (renderTo h how baseMarkup c).
Proof.
  intros Hc. destruct how; cbn [renderTo].
  - eapply preserves_bind; [apply preserves_defer|].
    intros d Hd. eapply preserves_bind; [apply preserves_addLoadListener, Hc|].
    intros _ _. eapply preserves_bind; [apply preserves_setAttribute, Hc|].
    intros _ _. apply preserves_ret. exact Hd.
  - eapply preserves_bind; [apply preserves_set_innerHTML, Hc|].
    intros _ _. apply preserves_ret. exact Hc.
Qed.

Lemma preserves_onContent data cc :
  optAbove b cc -> preserves s0 b db (fulfilment (fun _ => True)) (onContent data cc).
Proof.
  intros Hcc. eapply preserves_bind; [apply preserves_classList_add, Hcc|].
  intros _ _. eapply preserves_bind; [apply preserves_querySelector, Hcc|].
  intros t Ht. eapply preserves_bind.
  - destruct t as [t|].
    + apply preserves_set_backgroundImage, Ht.
    + apply (preserves_ret (fun _ => True)). exact I.
  - intros _ _. apply preserves_ret. exact I.
Qed.

Lemma preserves_onMarkup h how c data :
  b <= c -> preserves s0 b db (fulfilment (fun _ => True)) (onMarkup h how c data).
Proof.
  intros Hc. eapply preserves_bind; [apply (preserves_classList_add (Some c)), Hc|].
  intros _ _. eapply preserves_bind; [apply preserves_renderTo, Hc|].
  intros content Hcontent. eapply preserves_bind; [apply preserves_hostEvents, Hc|].
  intros _ _. eapply preserves_bind; [apply preserves_promiseState, Hcontent|].
  intros p Hp. eapply preserves_pthen; [exact Hp|].
  intros cc Hcc. apply preserves_onContent, Hcc.
Qed.

(** *** Through the markup stage *)

Lemma preserves_this rid : preserves s0 b db (fun _ => True) (this rid).
Proof.
  eapply preserves_bind; [apply (preserves_gets (fun _ => True)); auto|].
  intros [r|] _; [apply preserves_ret; exact I | apply preserves_throw].
Qed.

Lemma preserves_getBaseMarkup h rid templateId hasError :
  preserves s0 b db (fun _ => True) (_getBaseMarkup h rid templateId hasError).
Proof.
  eapply preserves_bind; [apply preserves_this|].
  intros r _. apply preserves_Template_interpolate.
Qed.

Lemma preserves_getThumbnail h rid :
  preserves s0 b db (fulfilment (fun _ => True)) (getThumbnail h rid).
Proof.
  eapply preserves_bind; [apply preserves_this|].
  intros r _. eapply preserves_bind; [apply (preserves_log (fun _ => True)); exact I|].
  intros _ _. eapply (preserves_pthen (fun _ => True)).
  - destruct (getSizeAndType h _); exact I.
  - intros data _. eapply preserves_bind; [apply (preserves_log (fun _ => True)); exact I|].
    intros _ _. destruct (sizeNoMoreThan h _); [apply preserves_throw|].
    eapply preserves_bind; [apply (preserves_log (fun _ => True)); exact I|].
    intros _ _. apply preserves_ret. exact I.
Qed.

Lemma preserves_markupPromise h rid :
  preserves s0 b db (fulfilment (fun _ => True)) (markupPromise h rid).
Proof.
  eapply preserves_bind; [apply preserves_this|].
  intros r _. eapply preserves_bind.
  - destruct (thumbnailable (_attachment r)).
    + apply preserves_getThumbnail.
    + apply (preserves_ret (fulfilment (fun _ => True))). exact I.
  - intros p Hp. eapply preserves_bind.
    + eapply (preserves_pthen (fun _ => True) (fun _ => True)).
      * destruct p; exact I.
      * intros url _. eapply preserves_bind; [apply preserves_getBaseMarkup|].
        intros m _. apply preserves_ret. exact I.
    + intros q Hq. apply preserves_pcatch; [exact Hq|].
      intros e. eapply preserves_bind; [apply preserves_getBaseMarkup|].
      intros m _. apply preserves_ret. exact I.
Qed.

End Within.

(** ** What a run of [render] keeps *)

Lemma within_refl s b :
  b <= length (nodes s) -> closedAbove b s -> within s b (length (deferreds s)) s.
Proof.
  intros Hb Hc. constructor; auto.
  - intros n nd E. exists nd. split; [exact E | apply nodeKept_refl].
  - intros d n Hd E. apply lookup_lt_Some in E. lia.
Qed.

Lemma closedAbove_length s : closedAbove (length (nodes s)) s.
Proof. intros n nd Hn E. apply lookup_lt_Some in E. lia. Qed.

Lemma closedAbove_0 s : closedAbove 0 s.
Proof.
  intros n nd _ _. split; [|intros; lia].
  apply Forall_forall. intros; lia.
Qed.

Lemma alter_same {A} (f : A -> A) (l : list A) i x :
  l !! i = Some x -> f x = x -> alter f i l = l.
Proof.
  intros E Hf. apply list_eq. intros j. destruct (decide (i = j)) as [<-|Hne].
  - rewrite list_lookup_alter_eq, E. cbn. now rewrite Hf.
  - now rewrite list_lookup_alter_ne.
Qed.

Lemma render_missing h rid s :
  renderers s !! rid = None -> render h rid s = (Throw JS.TypeError, s).
Proof.
  intros E. cbv [render getAttachmentContainer this bind gets]. rewrite E. reflexivity.
Qed.

(** The container of a renderer lies where the renderer may write. *)
Lemma getAttachmentContainer_within rid s r b :
  renderers s !! rid = Some r -> b <= length (nodes s) ->
  (forall c, _attachmentContainer r = Some c -> b <= c) ->
  exists c s1 extra,
    getAttachmentContainer rid s = (Ok c, s1) /\ b <= c /\
    (forall c0, _attachmentContainer r = Some c0 -> c0 = c) /\
    nodes s1 = nodes s ++ extra /\ Forall (refersAbove b) extra /\
    renderers s1 = alter (with_attachmentContainer (Some c)) rid (renderers s) /\
    deferreds s1 = deferreds s.
Proof.
  intros Hr Hb Hc. destruct (_attachmentContainer r) as [c|] eqn:Ec.
  - exists c, s, []. rewrite (getAttachmentContainer_cached rid s r c Hr Ec).
    splits; auto.
    + intros c0 [= ->]. reflexivity.
    + now rewrite app_nil_r.
    + symmetry. apply (alter_same _ _ _ r Hr).
      destruct r; cbn in *. now subst.
  - destruct (getAttachmentContainer_fresh rid s r Hr Ec)
      as (s1 & nd & E & Hn & _ & _ & _ & _ & _ & Hdoc & Hdesc & _ & Hrs & Hds & _).
    exists (length (nodes s)), s1, [nd]. splits; auto.
    + discriminate.
    + constructor; [|constructor]. split.
      * rewrite Hdesc. constructor.
      * rewrite Hdoc. discriminate.
Qed.

Lemma preserves_rendering s0 b db h rid c :
  b <= c ->
  preserves s0 b db (fulfilment (fun _ => True))
    (r <- this rid ;;
     recovered <- markupPromise h rid ;;
     pthen recovered (onMarkup h (_renderer r) c)).
Proof.
  intros Hc. eapply preserves_bind; [apply preserves_this|].
  intros r _. eapply preserves_bind; [apply preserves_markupPromise|].
  intros p Hp. eapply (preserves_pthen _ _ _ (fun _ => True)).
  - destruct p; exact I.
  - intros data _. apply preserves_onMarkup, Hc.
Qed.

Lemma render_within h rid s r b :
  renderers s !! rid = Some r -> b <= length (nodes s) -> closedAbove b s ->
  (forall c, _attachmentContainer r = Some c -> b <= c) ->
  exists c,
    (getAttachmentContainer rid s).1 = Ok c /\ b <= c /\
    (forall c0, _attachmentContainer r = Some c0 -> c0 = c) /\
    let s' := (render h rid s).2 in
    b <= length (nodes s') /\
    take b (nodes s') = take b (nodes s) /\
    closedAbove b s' /\
    (forall n nd, nodes s !! n = Some nd ->
       exists nd', nodes s' !! n = Some nd' /\ nodeKept nd nd') /\
    renderers s' = alter (with_attachmentContainer (Some c)) rid (renderers s).
Proof.
  intros Hr Hb Hclosed Hc.
  destruct (getAttachmentContainer_within rid s r b Hr Hb Hc)
    as (c & s1 & extra & E & Hbc & Hsame & Hn & Hextra & Hrs & Hds).
  exists c. rewrite E. splits; auto. cbv zeta.
  unfold render. rewrite (bind_Ok _ _ _ _ _ E).
  assert (H1 : within s1 b (length (deferreds s1)) s1).
  { apply within_refl.
    - rewrite Hn, length_app. lia.
    - intros n nd Hbn En. rewrite Hn in En.
      apply lookup_app_Some in En as [En | [_ En]].
      + exact (Hclosed n nd Hbn En).
      + rewrite Forall_lookup in Hextra. exact (Hextra _ _ En). }
  destruct (preserves_rendering s1 b _ h rid c Hbc s1 H1) as [[Hlen Htake Hcl Hkept Hr' _ _] _].
  splits; auto.
  - rewrite Htake, Hn. apply take_app_le, Hb.
  - intros n nd En. apply Hkept. rewrite Hn. apply lookup_app_l_Some, En.
  - rewrite Hr'. exact Hrs.
Qed.

(** X4: whatever the state, a run of [render] takes no class token from
    any node and renames none: every node of the store is still in the
    store afterwards (the nodes that a write of the content replaces leave
    the tree, not the store), with its name and all the class tokens it
    had.  So the decoration class of an earlier outcome stays on the
    container when the renderer renders again. *)
Theorem render_keeps_nodes h rid s n nd :
  nodes s !! n = Some nd ->
  exists nd',
    nodes (render h rid s).2 !! n = Some nd' /\
    localName nd' = localName nd /\
    (forall c, c ∈ classList nd -> c ∈ classList nd').
Proof.
  intros E. destruct (renderers s !! rid) as [r|] eqn:Hr.
  - destruct (render_within h rid s r 0 Hr ltac:(lia) (closedAbove_0 s) ltac:(intros; lia))
      as (c & _ & _ & _ & _ & _ & _ & Hkept & _).
    exact (Hkept n nd E).
  - rewrite (render_missing h rid s Hr). exists nd. auto.
Qed.

Lemma render_keeps_nodes_witness :
  let s := (render sampleHost 0 (constructed sampleImage)).2 in
  let h := sampleHostWith (Rejected (JS.VStr "corrupt PNG image")) None false in
  exists nd nd',
    nodes s !! 0 = Some nd /\ "preview" ∈ classList nd /\
    nodes (render h 0 s).2 !! 0 = Some nd' /\ "preview" ∈ classList nd'.
Proof.
  cbv zeta.
  destruct (nodes (render sampleHost 0 (constructed sampleImage)).2 !! 0) as [nd|] eqn:E;
    [|vm_compute in E; discriminate].
  assert (Hc : "preview" ∈ classList nd).
  { vm_compute in E. injection E as <-. cbn. set_solver. }
  destruct (render_keeps_nodes
              (sampleHostWith (Rejected (JS.VStr "corrupt PNG image")) None false) 0
              (render sampleHost 0 (constructed sampleImage)).2 0 nd E)
    as (nd' & E' & _ & Hk).
  exists nd, nd'. auto.
Defined.

(** X5: whatever the state, a run of [render] creates and removes no
    renderer and leaves every other renderer as it is; of its own renderer
    it only sets the container, and never replaces a container that is
    there. *)
Theorem render_keeps_renderers h rid s :
  let s' := (render h rid s).2 in
  length (renderers s') = length (renderers s) /\
  (forall rid', rid' <> rid -> renderers s' !! rid' = renderers s !! rid') /\
  (forall r, renderers s !! rid = Some r ->
     exists c, renderers s' !! rid = Some (with_attachmentContainer (Some c) r) /\
               forall c0, _attachmentContainer r = Some c0 -> c0 = c).
Proof.
  cbv zeta. destruct (renderers s !! rid) as [r|] eqn:Hr.
  - destruct (render_within h rid s r 0 Hr ltac:(lia) (closedAbove_0 s) ltac:(intros; lia))
      as (c & _ & _ & Hsame & _ & _ & _ & _ & Hrs).
    cbv zeta in Hrs. rewrite Hrs. splits.
    + apply length_alter.
    + intros rid' Hne. apply list_lookup_alter_ne. auto.
    + intros r0 [= <-]. exists c. rewrite list_lookup_alter_eq, Hr. auto.
  - rewrite (render_missing h rid s Hr). splits; auto. discriminate.
Qed.

(** ** The nodes a renderer writes to *)

Lemma render_each_within hs rid b : forall s r,
  renderers s !! rid = Some r -> b <= length (nodes s) -> closedAbove b s ->
  (forall c, _attachmentContainer r = Some c -> b <= c) ->
  take b (nodes (render_each hs rid s)) = take b (nodes s) /\
  b <= length (nodes (render_each hs rid s)).
Proof.
  induction hs as [|h hs IH]; intros s r Hr Hb Hclosed Hc; cbn [render_each].
  - auto.
  - destruct (render_within h rid s r b Hr Hb Hclosed Hc)
      as (c & _ & Hbc & _ & Hlen & Htake & Hcl & _ & Hrs).
    cbv zeta in *.
    destruct (IH (render h rid s).2 (with_attachmentContainer (Some c) r)) as [IH1 IH2]; auto.
    + rewrite Hrs, list_lookup_alter_eq, Hr. reflexivity.
    + intros c0 [= <-]. exact Hbc.
    + split; [congruence | exact IH2].
Qed.

(** X6: a renderer without container only ever writes to nodes that it
    creates: after any number of runs of [render], whatever the
    collaborators answer each time, the nodes that were in the store before
    the first run are all there, unchanged, followed by the nodes created
    since. *)
Theorem render_confined hs rid s r :
  renderers s !! rid = Some r -> _attachmentContainer r = None ->
  exists created, nodes (render_each hs rid s) = nodes s ++ created.
Proof.
  intros Hr Hc.
  destruct (render_each_within hs rid (length (nodes s)) s r Hr (le_n _)
              (closedAbove_length s)) as [Htake Hlen].
  { rewrite Hc. discriminate. }
  exists (drop (length (nodes s)) (nodes (render_each hs rid s))).
  rewrite <- (take_drop (length (nodes s)) (nodes (render_each hs rid s))) at 1.
  rewrite Htake, firstn_all. reflexivity.
Qed.

Lemma render_confined_witness :
  let s := (AttachmentRenderer_for sampleDraft
              (render sampleHost 0 (constructed sampleImage)).2).2 in
  length (nodes s) = 3 /\
  exists created,
    nodes (render_each [sampleHost; with_loadEvents 0 sampleHost] 1 s) = nodes s ++ created.
Proof.
  cbv zeta. split; [vm_compute; reflexivity|].
  apply (render_confined [sampleHost; with_loadEvents 0 sampleHost] 1 _
           (constructedRenderer sampleDraft)).
  - vm_compute. reflexivity.
  - reflexivity.
Defined.

(** X7: the load listener of the draft renderer never lets an exception
    escape and always settles its promise: whatever the state, with or
    without a document in the iframe, it returns normally, the deferred it
    was created with is no longer pending afterwards, and no other
    deferred is touched. *)
Theorem onload_always_settles h this m d s :
  let s' := (onload h this (OnLoad m d) s).2 in
  (onload h this (OnLoad m d) s).1 = Ok tt /\
  (forall p, deferreds s !! d = Some p ->
     exists p', deferreds s' !! d = Some p' /\ p' <> Pending) /\
  (forall d', d' <> d -> deferreds s' !! d' = deferreds s !! d').
Proof.
  assert (H : exists s1 p,
    onload h this (OnLoad m d) s
    = (Ok tt, with_deferreds
                (alter (fun old => match old with Pending => p | _ => old end) d) s1) /\
    deferreds s1 = deferreds s /\ p <> Pending).
  { run_dom.
    repeat case_match; simplify_eq;
      eexists _, _; (split; [reflexivity | split; [reflexivity | discriminate]]). }
  destruct H as (s1 & p & -> & Hd & Hp). cbn [fst snd]. unfold with_deferreds.
  cbn [deferreds]. rewrite Hd. splits; auto.
  - intros p0 E. rewrite list_lookup_alter_eq, E. cbn.
    destruct p0; eexists; (split; [reflexivity|]); try discriminate. exact Hp.
  - intros d' Hne. apply list_lookup_alter_ne. auto.
Qed.

(** ** The container of a new renderer *)

Lemma getAttachmentContainer_exact rid s r :
  renderers s !! rid = Some r -> _attachmentContainer r = None ->
  getAttachmentContainer rid s
  = (Ok (length (nodes s)),
     {| nodes := nodes s ++ [containerNode (_renderer r) (Attachment.type (_attachment r))];
        renderers := alter (with_attachmentContainer (Some (length (nodes s)))) rid (renderers s);
        deferreds := deferreds s;
        trace := trace s ++ containerEvents (_renderer r) (length (nodes s))
                              (Attachment.type (_attachment r)) |}).
Proof.
  intros Hr Hc.
  unfold getAttachmentContainer, _createAttachmentContainer.
  rewrite (bind_Ok _ _ _ _ _ (this_run _ _ _ Hr)), Hc. cbv beta iota.
  unfold bind at 1. rewrite (bind_Ok _ _ _ _ _ (this_run _ _ _ Hr)).
  clear Hr. destruct s as [ns rs ds tr]. cbn [nodes renderers deferreds trace] in *.
  destruct (_renderer r);
    cbv [createAttachmentContainer createElement setAttribute classList_add dataset_set
         bind gets ret modify log with_nodes with_trace with_renderers];
    cbn [nodes renderers deferreds trace];
    rewrite !alter_last; cbn [with_attributes with_classList with_dataset blankNode
                              localName attributes classList dataset innerHTML descendants
                              backgroundImage loadListeners contentDocument];
    rewrite <- ?app_assoc; reflexivity.
Qed.

Lemma AttachmentRenderer_for_run a s :
  AttachmentRenderer_for a s
  = (Ok (length (renderers s)),
     with_renderers (fun rs => rs ++ [constructedRenderer a]) s).
Proof. reflexivity. Qed.

(** X8: constructing a renderer creates nothing in the page; its
    container is created by the first request for it, and is an iframe whose
    only attribute is [sandbox="allow-same-origin"] when the attachment is a
    draft, a div without attribute otherwise, both with the single class
    [attachment-container], the type of the attachment as data attribute,
    and no content. *)
Theorem container_of_new_renderer (a : Attachment.t) (s : state) :
  let rid := length (renderers s) in
  let how := if Attachment.isDraft a then draft else base in
  exists s1 s2,
    AttachmentRenderer_for a s = (Ok rid, s1) /\
    nodes s1 = nodes s /\ trace s1 = trace s /\
    getAttachmentContainer rid s1 = (Ok (length (nodes s)), s2) /\
    nodes s2 = nodes s ++ [containerNode how (Attachment.type a)] /\
    trace s2 = trace s ++ containerEvents how (length (nodes s)) (Attachment.type a).
Proof.
  cbv zeta. eexists _, _. rewrite AttachmentRenderer_for_run.
  split; [reflexivity|]. split; [reflexivity|]. split; [reflexivity|].
  rewrite (getAttachmentContainer_exact _ _ (constructedRenderer a)).
  - splits; reflexivity.
  - cbn [with_renderers renderers]. apply lookup_last.
  - reflexivity.
Qed.

(** X9: the container is kept by the instance: two renderers that have
    none yet get two different nodes, and each is handed its own node again
    on every later request. *)
Theorem renderers_own_containers rid1 rid2 s r1 r2 :
  rid1 <> rid2 ->
  renderers s !! rid1 = Some r1 -> _attachmentContainer r1 = None ->
  renderers s !! rid2 = Some r2 -> _attachmentContainer r2 = None ->
  exists c1 c2 s1 s2,
    getAttachmentContainer rid1 s = (Ok c1, s1) /\
    getAttachmentContainer rid2 s1 = (Ok c2, s2) /\
    c1 <> c2 /\
    getAttachmentContainer rid1 s2 = (Ok c1, s2) /\
    getAttachmentContainer rid2 s2 = (Ok c2, s2).
Proof.
  intros Hne H1 Hc1 H2 Hc2.
  pose proof (getAttachmentContainer_exact rid1 s r1 H1 Hc1) as E1.
  set (s1 := {| nodes := _ |}) in E1.
  assert (H2' : renderers s1 !! rid2 = Some r2).
  { cbn [s1 renderers]. rewrite list_lookup_alter_ne by exact Hne. exact H2. }
  pose proof (getAttachmentContainer_exact rid2 s1 r2 H2' Hc2) as E2.
  set (s2 := {| nodes := _ |}) in E2.
  exists (length (nodes s)), (length (nodes s1)), s1, s2. splits; auto.
  - cbn [s1 nodes]. rewrite length_app. cbn. lia.
  - apply (getAttachmentContainer_cached _ _
             (with_attachmentContainer (Some (length (nodes s))) r1)); [|reflexivity].
    cbn [s2 renderers]. rewrite list_lookup_alter_ne by auto.
    cbn [s1 renderers]. rewrite list_lookup_alter_eq, H1. reflexivity.
  - apply (getAttachmentContainer_cached _ _
             (with_attachmentContainer (Some (length (nodes s1))) r2)); [|reflexivity].
    cbn [s2 renderers]. rewrite list_lookup_alter_eq, H2'. reflexivity.
Qed.

Lemma renderers_own_containers_witness :
  let s := (AttachmentRenderer_for sampleImage (constructed sampleImage)).2 in
  exists c1 c2 s1 s2,
    getAttachmentContainer 0 s = (Ok c1, s1) /\
    getAttachmentContainer 1 s1 = (Ok c2, s2) /\
    c1 <> c2 /\
    getAttachmentContainer 0 s2 = (Ok c1, s2).
Proof.
  cbv zeta.
  destruct (renderers_own_containers 0 1
              (AttachmentRenderer_for sampleImage (constructed sampleImage)).2
              (constructedRenderer sampleImage) (constructedRenderer sampleImage))
    as (c1 & c2 & s1 & s2 & E1 & E2 & Hne & E3 & _);
    [discriminate | reflexivity | reflexivity | reflexivity | reflexivity |].
  exists c1, c2, s1, s2. auto.
Defined.

(** ** The base strategy *)

Lemma length_parsedNodes first es : length (parsedNodes first es) = length es.
Proof. apply length_imap. Qed.

Lemma base_renderTo_run h m c s :
  base_renderTo h m c s
  = (Ok (Settled (Fulfilled (Some c))),
     with_trace (fun t => t ++ [SetInnerHTML c m])
       (setInnerHTML_state c m (parseHTML h m) s)).
Proof. reflexivity. Qed.

Lemma setInnerHTML_lookup c m es s nd :
  nodes s !! c = Some nd ->
  nodes (setInnerHTML_state c m es s) !! c
  = Some (with_content m (seq (length (nodes s)) (length es)) nd).
Proof.
  intros E. unfold setInnerHTML_state, with_nodes. cbn [nodes].
  apply lookup_app_l_Some, lookup_alter_Some, E.
Qed.

Lemma setInnerHTML_length c m es s :
  length (nodes (setInnerHTML_state c m es s)) = length (nodes s) + length es.
Proof.
  unfold setInnerHTML_state, with_nodes. cbn [nodes].
  rewrite length_app, length_alter, length_parsedNodes. reflexivity.
Qed.

(** X10: the base strategy writes the markup into the container itself
    and answers at once with a promise fulfilled with that container.
    Writing replaces: after a second [renderTo] the container holds the
    second markup, its elements are the newly parsed ones and none of the
    first, and nothing else of the container has changed. *)
Theorem base_renderTo_replaces h m1 m2 c s nd :
  nodes s !! c = Some nd ->
  let run1 := base_renderTo h m1 c s in
  let run2 := base_renderTo h m2 c run1.2 in
  run1.1 = Ok (Settled (Fulfilled (Some c))) /\
  run2.1 = Ok (Settled (Fulfilled (Some c))) /\
  descendantsOf run1.2 c = seq (length (nodes s)) (length (parseHTML h m1)) /\
  nodes run2.2 !! c
  = Some (with_content m2 (seq (length (nodes run1.2)) (length (parseHTML h m2))) nd) /\
  (forall n, n ∈ descendantsOf run1.2 c -> n ∉ descendantsOf run2.2 c) /\
  trace run2.2 = trace s ++ [SetInnerHTML c m1; SetInnerHTML c m2].
Proof.
  intros E. cbv zeta. rewrite !base_renderTo_run. cbn [fst snd].
  set (s1 := with_trace _ (setInnerHTML_state c m1 _ s)).
  assert (E1 : nodes s1 !! c
               = Some (with_content m1 (seq (length (nodes s)) (length (parseHTML h m1))) nd)).
  { apply setInnerHTML_lookup, E. }
  assert (E2 : nodes (with_trace (fun t => t ++ [SetInnerHTML c m2])
                        (setInnerHTML_state c m2 (parseHTML h m2) s1)) !! c
               = Some (with_content m2 (seq (length (nodes s1)) (length (parseHTML h m2))) nd)).
  { cbn [with_trace nodes]. rewrite (setInnerHTML_lookup c m2 _ s1 _ E1). reflexivity. }
  assert (L1 : length (nodes s1) = length (nodes s) + length (parseHTML h m1)).
  { apply setInnerHTML_length. }
  splits; auto.
  - unfold descendantsOf. rewrite E1. reflexivity.
  - intros n. unfold descendantsOf. rewrite E1, E2. cbn [descendants with_content].
    rewrite !elem_of_seq. lia.
  - subst s1. destruct s as [ns rs ds tr]. unfold with_trace, setInnerHTML_state, with_nodes.
    cbn [trace nodes]. rewrite <- app_assoc. reflexivity.
Qed.

Lemma base_renderTo_replaces_witness :
  let s := (getAttachmentContainer 0 (constructed sampleImage)).2 in
  let run1 := base_renderTo sampleHost "attachment-preview-tmpl" 0 s in
  let run2 := base_renderTo sampleHost "attachment-nopreview-tmpl" 0 run1.2 in
  descendantsOf run1.2 0 = [1; 2] /\
  (innerHTML <$> nodes run2.2 !! 0) = Some "attachment-nopreview-tmpl" /\
  (classList <$> nodes run2.2 !! 0) = Some ["attachment-container"] /\
  descendantsOf run2.2 0 = [3; 4].
Proof.
  cbv zeta.
  destruct (base_renderTo_replaces sampleHost "attachment-preview-tmpl"
              "attachment-nopreview-tmpl" 0
              (getAttachmentContainer 0 (constructed sampleImage)).2
              (containerNode base "img") eq_refl)
    as (_ & _ & Hd & Hn & _ & _).
  split; [exact Hd|]. unfold descendantsOf. rewrite Hn. splits; reflexivity.
Defined.

(** *** A run of the base strategy under [render] *)

Lemma add_token_idem (c : string) (l : list string) :
  add_token c (add_token c l) = add_token c l.
Proof.
  unfold add_token at 1. rewrite bool_decide_eq_true_2; [reflexivity|].
  apply add_token_elem.
Qed.

Lemma onMarkup_base_exact h c data s nd :
  nodes s !! c = Some nd -> loadListeners nd = [] -> attributes nd !! "src" = None ->
  exists s' t,
    onMarkup h base c data s = (Ok (Fulfilled tt), s') /\
    nodes s' !! c
    = Some (with_content (markup data)
              (seq (length (nodes s)) (length (parseHTML h (markup data))))
              (with_classList (add_token (cssClass data)) nd)) /\
    length (nodes s') = length (nodes s) + length (parseHTML h (markup data)) /\
    renderers s' = renderers s /\ deferreds s' = deferreds s /\
    trace s' = trace s ++ [ClassListAdd c (cssClass data); SetInnerHTML c (markup data);
                           ClassListAdd c (cssClass data); QuerySelector c "thumbnail" t]
                       ++ backgroundEvents t (url data).
Proof.
  intros Hc Hl Hsrc.
  pose proof (lookup_lt_Some _ _ _ Hc) as Hlt.
  set (cls := cssClass data). set (m := markup data). set (es := parseHTML h m).
  set (s1 := with_trace (fun t => t ++ [ClassListAdd c cls])
               (with_nodes (alter (with_classList (add_token cls)) c) s)).
  assert (E1 : nodes s1 !! c = Some (with_classList (add_token cls) nd)).
  { apply lookup_alter_Some, Hc. }
  assert (L1 : length (nodes s1) = length (nodes s)).
  { apply length_alter. }
  set (s2 := with_trace (fun t => t ++ [SetInnerHTML c m]) (setInnerHTML_state c m es s1)).
  assert (E2 : nodes s2 !! c
               = Some (with_content m (seq (length (nodes s)) (length es))
                         (with_classList (add_token cls) nd))).
  { rewrite <- L1. apply setInnerHTML_lookup, E1. }
  assert (L2 : length (nodes s2) = length (nodes s) + length es).
  { rewrite <- L1. apply setInnerHTML_length. }
  set (sA := with_nodes (alter (with_classList (add_token cls)) c) s2).
  assert (EA : nodes sA !! c
               = Some (with_content m (seq (length (nodes s)) (length es))
                         (with_classList (add_token cls) nd))).
  { cbn [sA with_nodes nodes]. rewrite (lookup_alter_Some _ _ _ _ E2). f_equal.
    destruct nd. unfold with_content, with_classList. cbn. f_equal. apply add_token_idem. }
  assert (Hrun0 : onMarkup h base c data s
                  = (contentPromise <- promiseState (Settled (Fulfilled (Some c))) ;;
                     pthen contentPromise (onContent data)) s2).
  { change (onMarkup h base c data s)
      with ((hostEvents h c ;;
             contentPromise <- promiseState (Settled (Fulfilled (Some c))) ;;
             pthen contentPromise (onContent data)) s2).
    rewrite (bind_Ok _ _ _ _ _ (hostEvents_idle h c s2 _ E2 Hl Hsrc)). reflexivity. }
  destruct (firstWithClass sA c "thumbnail") as [tn|] eqn:Et.
  - assert (Hne : tn <> c).
    { unfold firstWithClass, descendantsOf in Et. rewrite EA in Et.
      apply find_some in Et as [Et _]. cbn in Et. apply in_seq in Et. lia. }
    exists (with_trace (fun tr => tr ++ [ClassListAdd c cls; QuerySelector c "thumbnail" (Some tn);
                                         SetBackgroundImage tn (backgroundImageOf (url data))])
              (with_nodes (alter (with_backgroundImage (backgroundImageOf (url data))) tn) sA)),
           (Some tn).
    splits.
    + rewrite Hrun0.
      cbv [promiseState onContent classList_add querySelector set_backgroundImage
           bind gets ret modify log pthen settle].
      cbn [with_trace with_nodes nodes trace renderers deferreds].
      change (firstWithClass _ c "thumbnail") with (firstWithClass sA c "thumbnail").
      rewrite Et. subst sA s2 s1 cls m es. clear. destruct s. state_eq.
    + cbn [with_trace with_nodes nodes]. rewrite list_lookup_alter_ne by exact Hne. exact EA.
    + cbn [with_trace with_nodes nodes sA]. rewrite !length_alter. exact L2.
    + reflexivity.
    + reflexivity.
    + subst sA s2 s1 cls m es. clear. destruct s as [ns rs ds tr]. cbn. rewrite <- !app_assoc. reflexivity.
  - exists (with_trace (fun tr => tr ++ [ClassListAdd c cls; QuerySelector c "thumbnail" None]) sA),
           None.
    splits.
    + rewrite Hrun0.
      cbv [promiseState onContent classList_add querySelector set_backgroundImage
           bind gets ret modify log pthen settle].
      cbn [with_trace with_nodes nodes trace renderers deferreds].
      change (firstWithClass _ c "thumbnail") with (firstWithClass sA c "thumbnail").
      rewrite Et. subst sA s2 s1 cls m es. clear. destruct s. state_eq.
    + exact EA.
    + cbn [with_trace with_nodes nodes sA]. rewrite !length_alter. exact L2.
    + reflexivity.
    + reflexivity.
    + subst sA s2 s1 cls m es. clear. destruct s as [ns rs ds tr]. cbn. rewrite <- !app_assoc. reflexivity.
Qed.

(** ** The markup stage does not depend on the store *)

Lemma markupPromise_anywhere h rid s s' r r' :
  renderers s !! rid = Some r -> renderers s' !! rid = Some r' ->
  _attachment r' = _attachment r ->
  exists p d,
    markupPromise h rid s = (Ok p, with_trace (fun t => t ++ d) s) /\
    markupPromise h rid s' = (Ok p, with_trace (fun t => t ++ d) s') /\
    markupStage h (_attachment r) p d.
Proof.
  intros Hr Hr' Ha. destruct (thumbnailable (_attachment r)) eqn:Et.
  - destruct (getSizeAndType h (Attachment.blob (_attachment r))) as [data|e|] eqn:Ep.
    + destruct (sizeNoMoreThan h (thumbnailScale h data)) as [e|fragment] eqn:Ef.
      * eexists _, _. split; [apply (markupPromise_hint_failed h rid s r Hr data e Et Ep Ef)|].
        split; [|apply (stage_hint_failed h _ data e Et Ep Ef)].
        rewrite <- Ha in *. apply (markupPromise_hint_failed h rid s' r' Hr' data e Et Ep Ef).
      * destruct (previewMarkup h (_attachment r)) as [x|m] eqn:Em.
        -- eexists _, _. split;
             [apply (markupPromise_preview_failed h rid s r Hr data fragment x Et Ep Ef Em)|].
           split; [|apply (stage_preview_failed h _ data fragment x Et Ep Ef Em)].
           rewrite <- Ha in *.
           apply (markupPromise_preview_failed h rid s' r' Hr' data fragment x Et Ep Ef Em).
        -- eexists _, _. split;
             [apply (markupPromise_preview h rid s r Hr data fragment m Et Ep Ef Em)|].
           split; [|apply (stage_preview h _ data fragment m Et Ep Ef Em)].
           rewrite <- Ha in *.
           apply (markupPromise_preview h rid s' r' Hr' data fragment m Et Ep Ef Em).
    + eexists _, _. split; [apply (markupPromise_rejected h rid s r Hr e Et Ep)|].
      split; [|apply (stage_rejected h _ e Et Ep)].
      rewrite <- Ha in *. apply (markupPromise_rejected h rid s' r' Hr' e Et Ep).
    + eexists _, _. split; [apply (markupPromise_pending h rid s r Hr Et Ep)|].
      split; [|apply (stage_pending h _ Et Ep)].
      rewrite <- Ha in *. apply (markupPromise_pending h rid s' r' Hr' Et Ep).
  - eexists _, _. split; [apply (markupPromise_skip h rid s r Hr Et)|].
    split; [|apply (stage_skip h _ Et)].
    rewrite <- Ha in *. apply (markupPromise_skip h rid s' r' Hr' Et).
Qed.

Lemma markupStage_class h a data d :
  markupStage h a (Fulfilled data) d ->
  cssClass data = "preview" \/ cssClass data = "nopreview".
Proof.
  intros H. destruct (markupStage_data h a data d H) as [[E _] | [E _]]; auto.
Qed.

(** [render] from the container on, once the container is there. *)
Lemma render_from_container h rid s r c s1 r1 :
  getAttachmentContainer rid s = (Ok c, s1) ->
  renderers s !! rid = Some r -> renderers s1 !! rid = Some r1 ->
  _attachment r1 = _attachment r -> _renderer r1 = _renderer r ->
  exists p d,
    markupPromise h rid s = (Ok p, with_trace (fun t => t ++ d) s) /\
    markupStage h (_attachment r) p d /\
    render h rid s = pthen p (onMarkup h (_renderer r) c) (with_trace (fun t => t ++ d) s1).
Proof.
  intros E Hr Hr1 Ha Hs.
  destruct (markupPromise_anywhere h rid s s1 r r1 Hr Hr1 Ha) as (p & d & Em & Em1 & Hst).
  exists p, d. splits; auto.
  unfold render. rewrite (bind_Ok _ _ _ _ _ E), (bind_Ok _ _ _ _ _ (this_run _ _ _ Hr1)).
  rewrite (bind_Ok _ _ _ _ _ Em1), Hs. reflexivity.
Qed.

Lemma add_token_new (c : string) (l : list string) : c ∉ l -> add_token c l = l ++ [c].
Proof. intros H. unfold add_token. rewrite bool_decide_eq_false_2 by exact H. reflexivity. Qed.

(** X11: for an attachment that is not a draft, [render] does not wait
    for the page: it settles as the markup stage does.  When that stage
    yields markup, the promise is fulfilled and the container is a div with
    exactly the classes [attachment-container] and the decoration class
    (added twice, held once), the markup as content and its parsed elements
    below; when the stage is rejected or never settles, so is [render], and
    the container stays as it was created. *)
Theorem render_base_outcome h rid s r :
  renderers s !! rid = Some r -> _attachmentContainer r = None -> _renderer r = base ->
  let c := length (nodes s) in
  let type := Attachment.type (_attachment r) in
  exists p s',
    (markupPromise h rid s).1 = Ok p /\
    (render h rid s).2 = s' /\
    match p with
    | Fulfilled data =>
        (render h rid s).1 = Ok (Fulfilled tt) /\
        (cssClass data = "preview" \/ cssClass data = "nopreview") /\
        nodes s' !! c
        = Some {| localName := "div"; attributes := ∅;
                  classList := ["attachment-container"; cssClass data];
                  dataset := <["attachmentType" := type]> ∅;
                  innerHTML := markup data;
                  descendants := seq (S c) (length (parseHTML h (markup data)));
                  backgroundImage := None; loadListeners := [];
                  contentDocument := None |}
    | Rejected e =>
        (render h rid s).1 = Ok (Rejected e) /\
        nodes s' = nodes s ++ [containerNode base type]
    | Pending =>
        (render h rid s).1 = Ok Pending /\
        nodes s' = nodes s ++ [containerNode base type]
    end.
Proof.
  intros Hr Hc Hb. cbv zeta.
  pose proof (getAttachmentContainer_exact rid s r Hr Hc) as E.
  set (s1 := {| nodes := _ |}) in E.
  assert (Hr1 : renderers s1 !! rid
                = Some (with_attachmentContainer (Some (length (nodes s))) r)).
  { cbn [s1 renderers]. rewrite list_lookup_alter_eq, Hr. reflexivity. }
  destruct (render_from_container h rid s r _ s1 _ E Hr Hr1 eq_refl eq_refl)
    as (p & d & Em & Hst & Hrun).
  exists p, (render h rid s).2. rewrite Em. split; [reflexivity|]. split; [reflexivity|].
  rewrite Hrun, Hb. destruct p as [data|e|]; cbn [pthen].
  - pose proof (markupStage_class h _ data d Hst) as Hcls.
    destruct (onMarkup_base_exact h (length (nodes s)) data
                (with_trace (fun t => t ++ d) s1)
                (containerNode base (Attachment.type (_attachment r))))
      as (s' & t & Hm & Hn & _); [| reflexivity | reflexivity |].
    { cbn [with_trace nodes s1]. rewrite Hb. apply lookup_last. }
    unfold settle. rewrite Hm. cbn [fst snd]. splits; auto.
    rewrite Hn. cbn [with_trace nodes s1]. rewrite length_app, Nat.add_1_r.
    unfold with_content, with_classList, containerNode.
    cbn [localName attributes classList dataset innerHTML descendants backgroundImage
         loadListeners contentDocument].
    rewrite add_token_new; [reflexivity|].
    rewrite list_elem_of_singleton. destruct Hcls as [-> | ->]; discriminate.
  - cbn [ret fst snd with_trace nodes s1]. rewrite Hb. auto.
  - cbn [ret fst snd with_trace nodes s1]. rewrite Hb. auto.
Qed.

Lemma render_base_outcome_witness :
  exists s',
    (markupPromise sampleHost 0 (constructed sampleImage)).1
    = Ok (Fulfilled {| markup := "attachment-preview-tmpl"; cssClass := "preview";
                       url := Some "blob:1#-moz-samplesize=2" |}) /\
    (render sampleHost 0 (constructed sampleImage)).2 = s' /\
    (render sampleHost 0 (constructed sampleImage)).1 = Ok (Fulfilled tt) /\
    (classList <$> nodes s' !! 0) = Some ["attachment-container"; "preview"].
Proof.
  destruct (render_base_outcome sampleHost 0 (constructed sampleImage)
              (constructedRenderer sampleImage) eq_refl eq_refl eq_refl)
    as (p & s' & Hp & Hs & H).
  assert (Ep : p = Fulfilled {| markup := "attachment-preview-tmpl"; cssClass := "preview";
                                url := Some "blob:1#-moz-samplesize=2" |}).
  { assert (E : (markupPromise sampleHost 0 (constructed sampleImage)).1
                = Ok (Fulfilled {| markup := "attachment-preview-tmpl"; cssClass := "preview";
                                   url := Some "blob:1#-moz-samplesize=2" |}))
      by (vm_compute; reflexivity).
    rewrite E in Hp. injection Hp as <-. reflexivity. }
  subst p. destruct H as (Hres & _ & Hn).
  exists s'. splits; auto.
  change (length (nodes (constructed sampleImage))) with 0 in Hn.
  rewrite Hn. reflexivity.
Defined.

(** X12: a later run of [render] on a renderer that is not a draft
    creates no container: it works on the one it has, replaces the content
    by the new markup, and adds the new decoration class to the classes
    that are there; the class of an earlier outcome is not taken away. *)
Theorem render_base_again h rid s r c nd data :
  renderers s !! rid = Some r -> _renderer r = base -> _attachmentContainer r = Some c ->
  nodes s !! c = Some nd -> loadListeners nd = [] -> attributes nd !! "src" = None ->
  (markupPromise h rid s).1 = Ok (Fulfilled data) ->
  exists s' d,
    render h rid s = (Ok (Fulfilled tt), s') /\
    nodes s' !! c
    = Some (with_content (markup data)
              (seq (length (nodes s)) (length (parseHTML h (markup data))))
              (with_classList (add_token (cssClass data)) nd)) /\
    length (nodes s') = length (nodes s) + length (parseHTML h (markup data)) /\
    renderers s' = renderers s /\
    trace s' = trace s ++ d /\
    (forall how, CreateAttachmentContainer how ∉ d) /\
    (forall tag n, CreateElement tag n ∉ d).
Proof.
  intros Hr Hb Hc Hn Hl Hsrc Hp.
  pose proof (getAttachmentContainer_cached rid s r c Hr Hc) as E.
  destruct (render_from_container h rid s r c s r E Hr Hr eq_refl eq_refl)
    as (p & dm & Em & Hst & Hrun).
  rewrite Em in Hp. injection Hp as ->.
  destruct (onMarkup_base_exact h c data (with_trace (fun t => t ++ dm) s) nd Hn Hl Hsrc)
    as (s' & t & Hm & Hn' & Hlen & Hrs & _ & Htr).
  exists s', (dm ++ [ClassListAdd c (cssClass data); SetInnerHTML c (markup data);
                     ClassListAdd c (cssClass data); QuerySelector c "thumbnail" t]
                 ++ backgroundEvents t (url data)).
  rewrite Hrun, Hb. cbn [pthen]. unfold settle. rewrite Hm.
  splits; auto.
  - rewrite Htr. cbn [with_trace trace]. rewrite <- !app_assoc. reflexivity.
  - intros how Hin. rewrite !elem_of_app in Hin. destruct Hin as [Hin | [Hin | Hin]].
    + pose proof (markupStage_markupEvent h _ _ _ Hst) as Hev.
      rewrite Forall_forall in Hev. specialize (Hev _ Hin).
      destruct Hev as [[? ?] | [[? ?] | [[? ?] | [? | [? ?]]]]]; discriminate.
    + repeat (apply elem_of_cons in Hin as [Hin | Hin]; [discriminate|]).
      apply elem_of_nil in Hin. exact Hin.
    + destruct t; cbn in Hin.
      * apply list_elem_of_singleton in Hin. discriminate.
      * apply elem_of_nil in Hin. exact Hin.
  - intros tag n Hin. rewrite !elem_of_app in Hin. destruct Hin as [Hin | [Hin | Hin]].
    + pose proof (markupStage_markupEvent h _ _ _ Hst) as Hev.
      rewrite Forall_forall in Hev. specialize (Hev _ Hin).
      destruct Hev as [[? ?] | [[? ?] | [[? ?] | [? | [? ?]]]]]; discriminate.
    + repeat (apply elem_of_cons in Hin as [Hin | Hin]; [discriminate|]).
      apply elem_of_nil in Hin. exact Hin.
    + destruct t; cbn in Hin.
      * apply list_elem_of_singleton in Hin. discriminate.
      * apply elem_of_nil in Hin. exact Hin.
Qed.

Lemma render_base_again_witness :
  let failing := sampleHostWith (Rejected (JS.VStr "corrupt PNG image")) None false in
  let s := (render failing 0 (constructed sampleImage)).2 in
  (classList <$> nodes s !! 0) = Some ["attachment-container"; "nopreview"] /\
  exists s',
    render sampleHost 0 s = (Ok (Fulfilled tt), s') /\
    (classList <$> nodes s' !! 0) = Some ["attachment-container"; "nopreview"; "preview"] /\
    (innerHTML <$> nodes s' !! 0) = Some "attachment-preview-tmpl" /\
    length (nodes s') = 5.
Proof.
  cbv zeta.
  set (s := (render (sampleHostWith (Rejected (JS.VStr "corrupt PNG image")) None false) 0
               (constructed sampleImage)).2).
  destruct (nodes s !! 0) as [nd|] eqn:En; [|vm_compute in En; discriminate].
  assert (Hnd : classList nd = ["attachment-container"; "nopreview"] /\
                loadListeners nd = [] /\ attributes nd !! "src" = None).
  { vm_compute in En. injection En as <-. splits; reflexivity. }
  destruct Hnd as (Hcl & Hl & Hsrc).
  split; [cbn; f_equal; exact Hcl|].
  destruct (render_base_again sampleHost 0 s
              (with_attachmentContainer (Some 0) (constructedRenderer sampleImage)) 0 nd
              {| markup := "attachment-preview-tmpl"; cssClass := "preview";
                 url := Some "blob:1#-moz-samplesize=2" |})
    as (s' & d & Hrun & Hn & Hlen & _);
    [vm_compute; reflexivity | reflexivity | reflexivity | exact En | exact Hl | exact Hsrc
    | vm_compute; reflexivity |].
  exists s'. split; [exact Hrun|]. rewrite Hn, Hlen. cbn [fmap option_fmap option_map].
  unfold with_content, with_classList. cbn [classList innerHTML].
  replace (classList nd) with ["attachment-container"; "nopreview"].
  splits; vm_compute; reflexivity.
Defined.

(** ** A draft whose iframe is never loaded *)

Lemma onMarkup_draft_unloaded h c data s nd :
  nodes s !! c = Some nd -> contentDocument nd = None -> loadEvents h = 0 ->
  let d := length (deferreds s) in
  exists s',
    onMarkup h draft c data s = (Ok Pending, s') /\
    nodes s' !! c
    = Some (with_contentDocument
              (Some {| documentElement := length (nodes s); clickListeners := [] |})
              (with_attributes (insert "src" "about:blank")
                 (with_loadListeners (fun ls => ls ++ [OnLoad (markup data) d])
                    (with_classList (add_token (cssClass data)) nd)))) /\
    deferreds s' = deferreds s ++ [Pending] /\
    renderers s' = renderers s /\
    trace s' = trace s ++ [ClassListAdd c (cssClass data);
                           AddLoadListener c (OnLoad (markup data) d);
                           SetAttribute c "src" "about:blank"].
Proof.
  intros Hc Hdoc Hload. cbv zeta.
  destruct s as [ns rs ds tr]. cbn [nodes renderers deferreds trace] in *.
  set (d := length ds).
  set (nd3 := with_attributes (insert "src" "about:blank")
                (with_loadListeners (fun ls => ls ++ [OnLoad (markup data) d])
                   (with_classList (add_token (cssClass data)) nd))).
  set (ns3 := alter (with_attributes (insert "src" "about:blank")) c
                (alter (with_loadListeners (fun ls => ls ++ [OnLoad (markup data) d])) c
                   (alter (with_classList (add_token (cssClass data))) c ns))).
  set (s3 := {| nodes := ns3; renderers := rs; deferreds := ds ++ [Pending];
                trace := ((tr ++ [ClassListAdd c (cssClass data)])
                          ++ [AddLoadListener c (OnLoad (markup data) d)])
                         ++ [SetAttribute c "src" "about:blank"] |}).
  assert (E3 : nodes s3 !! c = Some nd3).
  { apply lookup_alter_Some, lookup_alter_Some, lookup_alter_Some, Hc. }
  assert (L3 : length ns3 = length ns).
  { unfold ns3. rewrite !length_alter. reflexivity. }
  assert (Hnav : navigate c s3 = (Ok tt, blankDocument c s3)).
  { apply (navigate_blank c s3 nd3 "about:blank" E3).
    - cbn. apply lookup_insert_eq.
    - exact Hdoc. }
  exists (blankDocument c s3).
  splits.
  - change (onMarkup h draft c data _)
      with ((hostEvents h c ;;
             contentPromise <- promiseState (OfDeferred d) ;;
             pthen contentPromise (onContent data)) s3).
    unfold hostEvents. unfold bind at 1. rewrite (bind_Ok _ _ _ _ _ Hnav), Hload.
    cbv [dispatchLoads ret bind promiseState deferred_promise gets].
    cbn [blankDocument with_nodes deferreds s3].
    unfold d. rewrite lookup_last. reflexivity.
  - unfold blankDocument, with_nodes. cbn [nodes s3].
    rewrite L3. apply lookup_app_l_Some. cbn [s3 nodes] in E3.
    rewrite (lookup_alter_Some _ _ _ _ E3). reflexivity.
  - reflexivity.
  - reflexivity.
  - cbn. rewrite <- !app_assoc. reflexivity.
Qed.

(** X13: the promise of a draft waits for the load event of the iframe.
    If the page never delivers one, [render] never settles; by then the
    iframe has got the decoration class, then the load listener, then its
    [src], in that order, and nothing else has happened: the draft template
    has not been requested and no content is decorated. *)
Theorem render_draft_awaits_load h rid s r data :
  renderers s !! rid = Some r -> _attachmentContainer r = None -> _renderer r = draft ->
  (markupPromise h rid s).1 = Ok (Fulfilled data) -> loadEvents h = 0 ->
  let c := length (nodes s) in
  let d := length (deferreds s) in
  let type := Attachment.type (_attachment r) in
  exists s' nd dm,
    render h rid s = (Ok Pending, s') /\
    nodes s' !! c = Some nd /\
    localName nd = "iframe" /\
    classList nd = ["attachment-container"; cssClass data] /\
    attributes nd = <["src" := "about:blank"]> (<["sandbox" := "allow-same-origin"]> ∅) /\
    loadListeners nd = [OnLoad (markup data) d] /\
    innerHTML nd = "" /\
    deferreds s' !! d = Some Pending /\
    trace (markupPromise h rid s).2 = trace s ++ dm /\
    trace s' = trace s ++ containerEvents draft c type ++ dm
                       ++ [ClassListAdd c (cssClass data);
                           AddLoadListener c (OnLoad (markup data) d);
                           SetAttribute c "src" "about:blank"].
Proof.
  intros Hr Hc Hb Hp Hload. cbv zeta.
  pose proof (getAttachmentContainer_exact rid s r Hr Hc) as E.
  set (s1 := {| nodes := _ |}) in E.
  assert (Hr1 : renderers s1 !! rid
                = Some (with_attachmentContainer (Some (length (nodes s))) r)).
  { cbn [s1 renderers]. rewrite list_lookup_alter_eq, Hr. reflexivity. }
  destruct (render_from_container h rid s r _ s1 _ E Hr Hr1 eq_refl eq_refl)
    as (p & dm & Em & Hst & Hrun).
  rewrite Em in Hp. injection Hp as ->.
  pose proof (markupStage_class h _ data dm Hst) as Hcls.
  destruct (onMarkup_draft_unloaded h (length (nodes s)) data
              (with_trace (fun t => t ++ dm) s1)
              (containerNode draft (Attachment.type (_attachment r))))
    as (s' & Hm & Hn & Hds & _ & Htr); [| reflexivity | exact Hload |].
  { cbn [with_trace nodes s1]. rewrite Hb. apply lookup_last. }
  eexists s', _, dm. rewrite Hrun, Hb. cbn [pthen]. unfold settle. rewrite Hm.
  split; [reflexivity|]. split; [exact Hn|].
  cbn [with_contentDocument with_attributes with_loadListeners with_classList containerNode
       localName attributes classList dataset innerHTML loadListeners].
  splits; try reflexivity.
  - rewrite add_token_new; [reflexivity|].
    rewrite list_elem_of_singleton. destruct Hcls as [-> | ->]; discriminate.
  - rewrite Hds. cbn [with_trace deferreds s1]. apply lookup_last.
  - rewrite Em. reflexivity.
  - rewrite Htr. cbn [with_trace trace s1 deferreds]. rewrite Hb, <- !app_assoc. reflexivity.
Qed.

Lemma render_draft_awaits_load_witness :
  exists s' nd,
    render (with_loadEvents 0 sampleHost) 0 (constructed sampleDraft) = (Ok Pending, s') /\
    nodes s' !! 0 = Some nd /\
    classList nd = ["attachment-container"; "preview"] /\
    loadListeners nd = [OnLoad "attachment-preview-tmpl" 0].
Proof.
  edestruct (render_draft_awaits_load (with_loadEvents 0 sampleHost)
               0 (constructed sampleDraft) (constructedRenderer sampleDraft)
               {| markup := "attachment-preview-tmpl"; cssClass := "preview";
                  url := Some "blob:1#-moz-samplesize=2" |})
    as (s' & nd & dm & Hrun & Hn & _ & Hcl & _ & Hl & _);
    [reflexivity | reflexivity | reflexivity | vm_compute; reflexivity | reflexivity |].
  exists s', nd. auto.
Defined.

(** ** Object URLs *)

Lemma createdURLs_app t1 t2 : createdURLs (t1 ++ t2) = createdURLs t1 ++ createdURLs t2.
Proof. apply omap_app. Qed.

Lemma createdURLs_page t :
  Forall (fun e => pageEvent e = true) t -> createdURLs t = [].
Proof.
  induction 1 as [|e t He _ IH]; [reflexivity|].
  unfold createdURLs in *. cbn [omap list_omap]. destruct e; try discriminate; exact IH.
Qed.

Lemma createdURLs_stage h a p d :
  markupStage h a p d ->
  createdURLs d = if hinted h a then [Attachment.blob a] else [].
Proof.
  unfold hinted. destruct 1 as [Ht | e Ht Hp | Ht Hp | data e Ht Hp Hf
                               | data fragment m Ht Hp Hf Hm | data fragment x Ht Hp Hf Hm];
    rewrite Ht, ?Hp, ?Hf; reflexivity.
Qed.

(** X14: a run of [render] creates an object URL for the blob exactly
    when the attachment is eligible, the probe answers and the downsampler
    gives a fragment, and then only one, whether or not the preview markup
    can be built afterwards; in every other run it creates none. *)
Theorem render_object_urls h rid s r :
  renderers s !! rid = Some r ->
  exists d,
    trace (render h rid s).2 = trace s ++ d /\
    createdURLs d
    = if hinted h (_attachment r) then [Attachment.blob (_attachment r)] else [].
Proof.
  intros Hr. destruct (render_trace h rid s r Hr) as (d0 & p & d1 & d2 & Hst & Htr & H0 & H2).
  exists (d0 ++ d1 ++ d2). split; [exact Htr|].
  rewrite !createdURLs_app, (createdURLs_page d0 H0), (createdURLs_page d2 H2).
  rewrite app_nil_r. apply (createdURLs_stage h _ p d1 Hst).
Qed.

Lemma render_object_urls_witness :
  let h := sampleHostWith (Fulfilled sampleInfo) (Some (JS.VObj "Error")) false in
  hinted h sampleImage = true /\
  previewMarkup h sampleImage = inl (JS.VObj "Error") /\
  exists d,
    trace (render h 0 (constructed sampleImage)).2 = trace (constructed sampleImage) ++ d /\
    createdURLs d = [Attachment.blob sampleImage].
Proof.
  cbv zeta. split; [reflexivity|]. split; [reflexivity|].
  destruct (render_object_urls
              (sampleHostWith (Fulfilled sampleInfo) (Some (JS.VObj "Error")) false)
              0 (constructed sampleImage) (constructedRenderer sampleImage) eq_refl)
    as (d & Htr & Hd).
  exists d. split; [exact Htr | exact Hd].
Defined.

(** ** The templates requested *)

Ltac request_step :=
  first
    [ apply emits_ret | apply emits_throw | apply emits_gets
    | apply emits_log;
      first [ exact I
            | split; [reflexivity | split; [reflexivity | eexists; reflexivity]] ]
    | apply emits_modify; reflexivity
    | apply emits_bind; [|intros ?]
    | apply emits_try_catch; [|intros ?]
    | apply emits_settle
    | apply emits_pthen; intros ?
    | apply emits_pcatch; intros ?
    | match goal with
      | |- emits _ (match ?x with _ => _ end) => destruct x
      | |- emits _ (if ?x then _ else _) => destruct x
      end ].

Lemma draftRequest_getAttachmentContainer h rid :
  emits (draftRequest h) (getAttachmentContainer rid).
Proof.
  unfold getAttachmentContainer, _createAttachmentContainer, createAttachmentContainer,
    this, createElement, setAttribute, classList_add, dataset_set.
  repeat request_step.
Qed.

Lemma draftRequest_onload h n l : emits (draftRequest h) (onload h n l).
Proof.
  unfold onload, removeLoadListener, get_contentDocument, Template_interpolate,
    set_innerHTML, mozL10n_translateFragment, addClickListener, deferred_resolve,
    deferred_reject, settleDeferred.
  repeat request_step.
Qed.

Lemma draftRequest_dispatchLoads h k n : emits (draftRequest h) (dispatchLoads h k n).
Proof.
  induction k as [|k IH]; cbn [dispatchLoads]; [apply emits_ret|].
  apply emits_bind; [|intros _; exact IH].
  unfold dispatchLoad. apply emits_bind; [apply emits_gets|].
  intros ls. induction ls as [|l ls IHl]; cbn [runLoadListeners]; [apply emits_ret|].
  apply emits_bind; [apply draftRequest_onload | intros _; exact IHl].
Qed.

Lemma draftRequest_onMarkup h how c data : emits (draftRequest h) (onMarkup h how c data).
Proof.
  unfold onMarkup, renderTo, draft_renderTo, base_renderTo, defer, addLoadListener,
    promiseState, deferred_promise, hostEvents, navigate, onContent, querySelector,
    set_backgroundImage, classList_add, set_innerHTML, setAttribute.
  repeat first [apply draftRequest_dispatchLoads | request_step].
Qed.

Lemma render_trace_emits (P : event -> Prop) h rid s r :
  renderers s !! rid = Some r ->
  emits P (getAttachmentContainer rid) ->
  (forall how c data, emits P (onMarkup h how c data)) ->
  exists d0 p d1 d2,
    markupStage h (_attachment r) p d1 /\
    trace (render h rid s).2 = trace s ++ d0 ++ d1 ++ d2 /\
    Forall P d0 /\ Forall P d2.
Proof.
  intros Hr H0 H2.
  destruct (render_run h rid s r Hr) as (c & s1 & d0 & p & d1 & Hc & Htr & _ & _ & Hst & Hrun).
  destruct (H0 s) as (d0' & Htr' & Hd0). rewrite Hc in Htr'. cbn [snd] in Htr'.
  rewrite Htr in Htr'. apply app_inv_head in Htr'. subst d0'.
  destruct (emits_pthen _ p (onMarkup h (_renderer r) c)
              (fun data => H2 (_renderer r) c data)
              (with_trace (fun t => t ++ d1) s1)) as (d2 & Htr2 & Hd2).
  exists d0, p, d1, d2. splits; auto.
  rewrite Hrun, Htr2. unfold with_trace. cbn [trace].
  rewrite Htr, <- !app_assoc. reflexivity.
Qed.

(** X15: a run of [render] requests no other template than the three of
    the attachment, and marks no field of the attachment as safe: the
    preview and the no-preview template get the fields of the attachment
    with an empty list of safe fields, so that its type and its name are
    left to the escaping of the template engine; the draft template alone
    has a safe field, [baseHTML], beside the base URL of the page. *)
Theorem render_template_requests h rid s r :
  renderers s !! rid = Some r ->
  let a := _attachment r in
  exists d,
    trace (render h rid s).2 = trace s ++ d /\
    forall templateId fields safe,
      Interpolate templateId fields safe ∈ d ->
      (templateId = "attachment-preview-tmpl" /\ safe = [] /\
       fields = baseMarkupFields a JS.VUndefined) \/
      (templateId = "attachment-nopreview-tmpl" /\ safe = [] /\
       exists error, fields = baseMarkupFields a (JS.VBool (JS.ToBoolean error))) \/
      (templateId = "attachment-draft-tmpl" /\ safe = ["baseHTML"] /\
       exists m, fields = draftFields h m).
Proof.
  intros Hr. cbv zeta.
  destruct (render_trace_emits (draftRequest h) h rid s r Hr
              (draftRequest_getAttachmentContainer h rid)
              (draftRequest_onMarkup h))
    as (d0 & p & d1 & d2 & Hst & Htr & H0 & H2).
  exists (d0 ++ d1 ++ d2). split; [exact Htr|].
  intros templateId fields safe Hin.
  rewrite !elem_of_app in Hin. destruct Hin as [Hin | [Hin | Hin]].
  - rewrite Forall_forall in H0. right. right. exact (H0 _ Hin).
  - pose proof (markupStage_markupEvent h _ _ _ Hst) as Hev.
    rewrite Forall_forall in Hev. specialize (Hev _ Hin).
    destruct Hev as [[? E] | [[? E] | [[? E] | [E | [error E]]]]]; try discriminate.
    + injection E as -> -> ->. left. auto.
    + injection E as -> -> ->. right. left. eauto.
  - rewrite Forall_forall in H2. right. right. exact (H2 _ Hin).
Qed.

Lemma render_template_requests_witness :
  exists d,
    trace (render sampleHost 0 (constructed sampleDraft)).2
    = trace (constructed sampleDraft) ++ d /\
    forall templateId fields safe,
      Interpolate templateId fields safe ∈ d -> safe <> [] ->
      templateId = "attachment-draft-tmpl".
Proof.
  destruct (render_template_requests sampleHost 0 (constructed sampleDraft)
              (constructedRenderer sampleDraft) eq_refl) as (d & Htr & H).
  exists d. split; [exact Htr|].
  intros templateId fields safe Hin Hsafe.
  destruct (H _ _ _ Hin) as [(_ & E & _) | [(_ & E & _) | (E & _)]]; congruence.
Defined.
